(** * Affiliate-commerce analytics: KPI engine and data-quality checks

    A shallow embedding of [src/analytics.py] ([KPIEngine] and
    [DataQuality]).  The pandas frame handed to the engine is a list of
    typed rows; float64 cells are Rocq's primitive binary64 floats, so that
    division by zero, NaN and the infinities behave as they do in numpy, and
    int64 cells are integers whose sums wrap around at 64 bits.

    The pandas operations are embedded by what they compute: a column sum
    replaces missing cells by 0 and adds the cells as numpy's pairwise
    summation does, a group sum is the compensated (Kahan) sum of pandas'
    [group_sum], [groupby] yields one group per distinct key in ascending key
    order, [fillna] replaces NaN cells only, and the frames returned by the
    grouped reports carry their column labels.  The library versions followed
    are numpy 1.25 or later and pandas 2.1 or later, without the optional
    bottleneck accelerator. *)

From Stdlib Require Import ZArith List String Ascii Bool Lia.
From Stdlib Require Import Floats DecimalString Sorted.
From Stdlib Require Uint63 OrderedTypeEx.
From Stdlib Require Import Permutation.
From Stdlib Require Reals Lra Psatz.
Import ListNotations.

Local Open Scope Z_scope.

(** ** int64 cells *)

Module Int64.

(** Two's-complement normalisation into [-2^63, 2^63). *)
Definition wrap (z : Z) : Z := (z + 2 ^ 63) mod 2 ^ 64 - 2 ^ 63.

(** [Series.sum()] on an int64 column: machine addition, silently wrapping. *)
Definition sum (l : list Z) : Z := wrap (fold_left Z.add l 0).

(** Conversion of an int64 to float64 (round to nearest even), as numpy
    performs it before a true division and when an integer total is stored
    in a float64 Series. *)
Definition to_float (z : Z) : float :=
  let w := wrap z in
  if w =? - 2 ^ 63 then (- 0x1p63)%float
  else if w <? 0 then (- PrimFloat.of_uint63 (Uint63.of_Z (- w)))%float
  else PrimFloat.of_uint63 (Uint63.of_Z w).

End Int64.

(** ** float64 cells *)

Module Float64.

Local Open Scope float_scope.

(** [Series.fillna(0)] on one cell: NaN is the only missing value; the
    infinities are ordinary values ([mode.use_inf_as_na] is left at its
    default). *)
Definition fillna0 (x : float) : float := if is_nan x then 0 else x.

(** The unrolled block of numpy's [DOUBLE_pairwise_sum]: eight
    accumulators [r[0..7]] run over the cells eight at a time, are then
    added as [((r0 + r1) + (r2 + r3)) + ((r4 + r5) + (r6 + r7))], and the
    remaining cells (fewer than eight) are added one by one. *)
Fixpoint sum_unrolled (r0 r1 r2 r3 r4 r5 r6 r7 : float) (a : list float)
  : float :=
  match a with
  | a0 :: a1 :: a2 :: a3 :: a4 :: a5 :: a6 :: a7 :: t =>
      sum_unrolled (r0 + a0) (r1 + a1) (r2 + a2) (r3 + a3)
                   (r4 + a4) (r5 + a5) (r6 + a6) (r7 + a7) t
  | rest =>
      fold_left add rest (((r0 + r1) + (r2 + r3)) + ((r4 + r5) + (r6 + r7)))
  end.

(** [DOUBLE_pairwise_sum(a, n)]: fewer than 8 cells are added one by one,
    starting from -0.0; up to 128 cells go through the unrolled block, whose
    accumulators start as the first eight cells; a longer array is split at
    [n2 = n / 2 - (n / 2) % 8] and the sums of the two parts are added.
    [fuel] bounds the depth of the splitting; the length of the array is
    always enough (lemma [pairwise_sum_fuel]). *)
Fixpoint pairwise_sum (fuel : nat) (a : list float) {struct fuel} : float :=
  match a with
  | a0 :: a1 :: a2 :: a3 :: a4 :: a5 :: a6 :: a7 :: t =>
      if (List.length a <=? 128)%nat
      then sum_unrolled a0 a1 a2 a3 a4 a5 a6 a7 t
      else
        match fuel with
        | S fuel' =>
            let n2 := (List.length a / 2 - (List.length a / 2) mod 8)%nat in
            pairwise_sum fuel' (firstn n2 a) + pairwise_sum fuel' (skipn n2 a)
        | O => sum_unrolled a0 a1 a2 a3 a4 a5 a6 a7 t
        end
  | _ => fold_left add a (-0)
  end.

(** [ndarray.sum()] on a float64 array, that is [np.add.reduce]: the result
    starts as -0.0 and the pairwise sum of the cells is added to it; the
    empty array sums to 0.0. *)
Definition sum (a : list float) : float :=
  match a with
  | [] => 0
  | _ => (-0) + pairwise_sum (List.length a) a
  end.

(** [Series.sum()] with the default [skipna=True] ([nanops.nansum]): the
    missing cells are replaced by 0, then the array is summed. *)
Definition nansum (l : list float) : float := sum (map fillna0 l).

(** A row count as a float64. *)
Definition of_nat (n : nat) : float :=
  PrimFloat.of_uint63 (Uint63.of_Z (Z.of_nat n)).

(** The number of cells that are not missing. *)
Definition count (l : list float) : nat :=
  List.length (filter (fun x => negb (is_nan x)) l).

(** [Series.mean()] ([nanops.nanmean]): the sum divided by the count of the
    cells that are not missing, NaN when there is none. *)
Definition mean (l : list float) : float :=
  if (0 <? count l)%nat then nansum l / of_nat (count l) else nan.

(** [nanops.nanvar] with the default [ddof=1], in two passes: the average
    first, then the squared deviations [(avg - values) ** 2] (0 at the
    missing cells), their sum divided by [count - ddof].  With at most one
    observation there is no degree of freedom and the result is NaN.  A
    deviation that is NaN at a cell that is not missing is kept. *)
Definition var (l : list float) : float :=
  if (count l <=? 1)%nat then nan
  else
    let avg := nansum l / of_nat (count l) in
    let sqr := map (fun x => if is_nan x then 0
                             else (avg - x) * (avg - x)) l in
    sum sqr / (of_nat (count l) - 1).

(** [Series.std()]: the square root of the variance. *)
Definition std (l : list float) : float := PrimFloat.sqrt (var l).

End Float64.

(** ** The joined frame returned by [DataLoader.get_data]

    One record per row of the SQL join.  [clicks] and [impressions] are
    INTEGER columns of the driving table (int64); [orders], [revenue] and
    [commission_paid] come from the LEFT JOIN and are float64 columns, NaN
    where no conversion matched until the loader fills them; [date] is a
    timestamp, [campaign_id] an integer, and the other columns hold text. *)

Record Row := mkRow {
  date : Z;
  campaign_id : Z;
  device_type : string;
  channel : string;
  clicks : Z;
  impressions : Z;
  orders : float;
  revenue : float;
  commission_paid : float;
  partner_name : string;
  vertical : string;
  campaign_name : string;
  landing_page_variant : string
}.

Definition DataFrame := list Row.

(** ** [class DataLoader] *)

Module DataLoader.

(** The step of [get_data] that follows the SQL query:
    [df.fillna({'orders': 0, 'revenue': 0.0, 'commission_paid': 0.0},
    inplace=True)]. *)
Definition fill_row (r : Row) : Row :=
  {| date := date r;
     campaign_id := campaign_id r;
     device_type := device_type r;
     channel := channel r;
     clicks := clicks r;
     impressions := impressions r;
     orders := Float64.fillna0 (orders r);
     revenue := Float64.fillna0 (revenue r);
     commission_paid := Float64.fillna0 (commission_paid r);
     partner_name := partner_name r;
     vertical := vertical r;
     campaign_name := campaign_name r;
     landing_page_variant := landing_page_variant r |}.

Definition fill_joined (df : DataFrame) : DataFrame := map fill_row df.

End DataLoader.

(** ** [df.groupby([k1, k2])] *)

Module GroupBy.

Definition key := (string * string)%type.

(** Key pairs are ordered lexicographically, and strings code point by
    code point (the byte order of their UTF-8 encoding). *)
Definition key_compare (a b : key) : comparison :=
  match String.compare (fst a) (fst b) with
  | Eq => String.compare (snd a) (snd b)
  | c => c
  end.

Definition key_eqb (a b : key) : bool :=
  (String.eqb (fst a) (fst b) && String.eqb (snd a) (snd b))%bool.

Definition key_lt (a b : key) : Prop := key_compare a b = Lt.

Fixpoint insert_key (k : key) (l : list key) : list key :=
  match l with
  | [] => [k]
  | h :: t =>
      match key_compare k h with
      | Lt => k :: l
      | Eq => l
      | Gt => h :: insert_key k t
      end
  end.

(** The group keys of a frame: [groupby] is called with its default
    [sort=True], so the distinct keys come out in ascending order. *)
Definition group_keys (ks : list key) : list key :=
  fold_right insert_key [] ks.

(** The rows of one group, in frame order. *)
Definition group_rows (by_ : Row -> key) (k : key) (df : DataFrame)
  : DataFrame :=
  filter (fun r => key_eqb (by_ r) k) df.

(** The five sums of [.agg({... : 'sum'})] for one group. *)
Record Sums := mkSums {
  s_impressions : Z;
  s_clicks : Z;
  s_orders : float;
  s_revenue : float;
  s_commission_paid : float
}.

(** One step of the loop of pandas' [group_sum] on a float64 column, for
    the group of the current row: a missing cell is skipped; otherwise the
    running sum [sumx] and its [compensation] are updated as in Kahan's
    summation, and a compensation that comes out as NaN (an infinity was
    added) is reset to 0. *)
Definition kahan_step (st : float * float) (val : float) : float * float :=
  let sumx := fst st in
  let compensation := snd st in
  if is_nan val then st
  else
    let y := (val - compensation)%float in
    let t := (sumx + y)%float in
    let c := (t - sumx - y)%float in
    (t, if is_nan c then 0%float else c).

(** [group_sum] for the cells of one group, in frame order. *)
Definition group_sum (l : list float) : float :=
  fst (fold_left kahan_step l (0%float, 0%float)).

(** On an int64 column the same loop is exact machine arithmetic: the
    compensation stays 0 and the sum wraps around. *)
Definition agg_sum (rows : DataFrame) : Sums :=
  {| s_impressions := Int64.sum (map impressions rows);
     s_clicks := Int64.sum (map clicks rows);
     s_orders := group_sum (map orders rows);
     s_revenue := group_sum (map revenue rows);
     s_commission_paid := group_sum (map commission_paid rows) |}.

(** [df.groupby(by).agg(...).reset_index()]: one entry per group key. *)
Definition groupby_agg (by_ : Row -> key) (df : DataFrame)
  : list (key * Sums) :=
  map (fun k => (k, agg_sum (group_rows by_ k df)))
      (group_keys (map by_ df)).

End GroupBy.

(** ** Result frames

    The grouped frames are built column by column; a row of such a frame is
    the ordered list of its labelled cells. *)

Inductive cell :=
| CText (s : string)
| CInt (z : Z)
| CFloat (f : float).

Definition LabelledRow := list (string * cell).
Definition Table := list LabelledRow.

Module Frame.

(** [row[name]] *)
Fixpoint lookup (name : string) (row : LabelledRow) : option cell :=
  match row with
  | [] => None
  | (n, c) :: t => if String.eqb n name then Some c else lookup name t
  end.

Definition columns (row : LabelledRow) : list string := map fst row.

Definition float_at (name : string) (row : LabelledRow) : option float :=
  match lookup name row with
  | Some (CFloat f) => Some f
  | _ => None
  end.

(** The values of an int64 column, top to bottom. *)
Definition int_column (name : string) (t : Table) : list Z :=
  flat_map (fun row => match lookup name row with
                       | Some (CInt z) => [z]
                       | _ => []
                       end) t.

(** The values of a float64 column, top to bottom. *)
Definition float_column (name : string) (t : Table) : list float :=
  flat_map (fun row => match float_at name row with
                       | Some f => [f]
                       | None => []
                       end) t.

(** The pairs held by two text columns, top to bottom. *)
Definition key_column (n1 n2 : string) (t : Table) : list GroupBy.key :=
  flat_map (fun row => match lookup n1 row, lookup n2 row with
                       | Some (CText a), Some (CText b) => [(a, b)]
                       | _, _ => []
                       end) t.

Definition fillna_cell (c : cell) : cell :=
  match c with
  | CFloat f => CFloat (Float64.fillna0 f)
  | _ => c
  end.

(** [frame.fillna(0, inplace=True)]: every cell of every column. *)
Definition fillna0 (t : Table) : Table :=
  map (map (fun nc => (fst nc, fillna_cell (snd nc)))) t.

(** A cell holds a finite number (text cells hold none). *)
Definition finite_cell (c : cell) : bool :=
  match c with
  | CFloat f => is_finite f
  | CInt _ => true
  | CText _ => true
  end.

End Frame.

(** ** [class KPIEngine] *)

Module KPIEngine.

Import GroupBy.
Local Open Scope float_scope.

(** The Series returned by [df.agg({...})]: its five entries share one
    dtype, float64, since revenue and commission are floats. *)
Record Metrics := mkMetrics {
  m_impressions : float;
  m_clicks : float;
  m_orders : float;
  m_revenue : float;
  m_commission_paid : float
}.

Record KPIs := mkKPIs {
  CTR : float;
  Conversion_Rate : float;
  EPC : float;
  AOV : float;
  ROI : float
}.

Definition agg_metrics (df : DataFrame) : Metrics :=
  {| m_impressions := Int64.to_float (Int64.sum (map impressions df));
     m_clicks := Int64.to_float (Int64.sum (map clicks df));
     m_orders := Float64.nansum (map orders df);
     m_revenue := Float64.nansum (map revenue df);
     m_commission_paid := Float64.nansum (map commission_paid df) |}.

(** [a / b if b > 0 else 0.0] *)
Definition safe_div (a b : float) : float :=
  if 0 <? b then a / b else 0.

Definition calculate_kpis (df : DataFrame) : KPIs * Metrics :=
  let metrics := agg_metrics df in
  ({| CTR := safe_div (m_clicks metrics) (m_impressions metrics);
      Conversion_Rate := safe_div (m_orders metrics) (m_clicks metrics);
      EPC := safe_div (m_revenue metrics) (m_clicks metrics);
      AOV := safe_div (m_revenue metrics) (m_orders metrics);
      ROI := safe_div (m_revenue metrics - m_commission_paid metrics)
                      (m_commission_paid metrics) |},
   metrics).

(** The columns of [groupby([n1, n2]).agg({...}).reset_index()]: the two
    key columns first, then the sums in the order of the dict. *)
Definition grouped_row (n1 n2 : string) (g : key * Sums) : LabelledRow :=
  [ (n1, CText (fst (fst g)));
    (n2, CText (snd (fst g)));
    ("impressions"%string, CInt (s_impressions (snd g)));
    ("clicks"%string, CInt (s_clicks (snd g)));
    ("orders"%string, CFloat (s_orders (snd g)));
    ("revenue"%string, CFloat (s_revenue (snd g)));
    ("commission_paid"%string, CFloat (s_commission_paid (snd g))) ].

(** The ratios shared by both grouped frames, each an unguarded
    element-wise division (int64 operands are converted to float64). *)
Definition ctr_of (s : Sums) : float :=
  Int64.to_float (s_clicks s) / Int64.to_float (s_impressions s).
Definition conversion_rate_of (s : Sums) : float :=
  s_orders s / Int64.to_float (s_clicks s).
Definition epc_of (s : Sums) : float :=
  s_revenue s / Int64.to_float (s_clicks s).
Definition aov_of (s : Sums) : float :=
  s_revenue s / s_orders s.
Definition roi_of (s : Sums) : float :=
  (s_revenue s - s_commission_paid s) / s_commission_paid s.

Definition partner_key (r : Row) : key := (partner_name r, vertical r).

Definition partner_row (g : key * Sums) : LabelledRow :=
  (grouped_row "partner_name" "vertical" g
   ++ [ ("CTR"%string, CFloat (ctr_of (snd g)));
        ("Conversion_Rate"%string, CFloat (conversion_rate_of (snd g)));
        ("EPC"%string, CFloat (epc_of (snd g)));
        ("AOV"%string, CFloat (aov_of (snd g)));
        ("ROI"%string, CFloat (roi_of (snd g))) ])%list.

Definition get_partner_performance (df : DataFrame) : Table :=
  let grouped := map partner_row (groupby_agg partner_key df) in
  Frame.fillna0 grouped.

Definition campaign_key (r : Row) : key :=
  (campaign_name r, landing_page_variant r).

Definition campaign_row (g : key * Sums) : LabelledRow :=
  (grouped_row "campaign_name" "landing_page_variant" g
   ++ [ ("CTR"%string, CFloat (ctr_of (snd g)));
        ("Conversion_Rate"%string, CFloat (conversion_rate_of (snd g)));
        ("EPC"%string, CFloat (epc_of (snd g)));
        ("ROI"%string, CFloat (roi_of (snd g))) ])%list.

Definition get_campaign_performance (df : DataFrame) : Table :=
  let grouped := map campaign_row (groupby_agg campaign_key df) in
  Frame.fillna0 grouped.

End KPIEngine.

(** ** [class DataQuality] *)

Module DataQuality.

Local Open Scope float_scope.

(** [f"{n}"] for a count. *)
Definition fmt (n : nat) : string :=
  NilEmpty.string_of_uint (Nat.to_uint n).

Definition invalid_ctr (df : DataFrame) : DataFrame :=
  filter (fun r => (impressions r <? clicks r)%Z) df.

Definition neg_val (df : DataFrame) : DataFrame :=
  filter (fun r => ((revenue r <? 0) || (commission_paid r <? 0))%bool) df.

(** [df.isnull().sum().sum()], the number of missing cells of the frame.
    In a [Row] the date, integer and text cells always hold a value, so the
    missing cells are the NaN cells of the three float64 columns. *)
Definition nulls (df : DataFrame) : nat :=
  (List.length (filter is_nan (map orders df))
   + List.length (filter is_nan (map revenue df))
   + List.length (filter is_nan (map commission_paid df)))%nat.

Definition rev_data (df : DataFrame) : list float :=
  filter (fun x => 0 <? x) (map revenue df).

Definition z_scores (l : list float) : list float :=
  let mean := Float64.mean l in
  let std := Float64.std l in
  map (fun x => (x - mean) / std) l.

(** [outliers.sum()]: how many z-scores exceed 3 in absolute value. *)
Definition outliers (l : list float) : nat :=
  List.length (filter (fun z => 3 <? abs z) (z_scores l)).

Definition msg_ctr (n : nat) : string :=
  ("CRITICAL: Found " ++ fmt n ++ " rows where Clicks > Impressions.")%string.
Definition msg_neg (n : nat) : string :=
  ("CRITICAL: Found " ++ fmt n ++ " rows with negative Revenue or Commission.")%string.
Definition msg_nulls (n : nat) : string :=
  ("WARNING: Found " ++ fmt n ++ " missing values in dataset.")%string.
Definition msg_outliers (n : nat) : string :=
  ("INFO: Detected " ++ fmt n ++ " revenue outliers (>3 Std Dev).")%string.
Definition msg_passed : string :=
  "PASSED: All data quality checks passed."%string.

Definition check_ctr (df : DataFrame) : list string :=
  match invalid_ctr df with
  | [] => []
  | l => [msg_ctr (List.length l)]
  end.

Definition check_neg (df : DataFrame) : list string :=
  match neg_val df with
  | [] => []
  | l => [msg_neg (List.length l)]
  end.

Definition check_nulls (df : DataFrame) : list string :=
  if (0 <? nulls df)%nat then [msg_nulls (nulls df)] else [].

Definition check_outliers (df : DataFrame) : list string :=
  match rev_data df with
  | [] => []
  | l => if (0 <? outliers l)%nat then [msg_outliers (outliers l)] else []
  end.

Definition run_checks (df : DataFrame) : list string :=
  let issues :=
    (check_ctr df ++ check_neg df ++ check_nulls df ++ check_outliers df)%list
  in
  match issues with
  | [] => [msg_passed]
  | _ => issues
  end.

End DataQuality.

(** ** Boolean selections of a result frame *)

Module Select.

Local Open Scope float_scope.

(** [frame[frame[col] < bound]] *)
Definition below (col : string) (bound : float) (t : Table) : Table :=
  filter (fun row => match Frame.float_at col row with
                     | Some f => f <? bound
                     | None => false
                     end) t.

(** [frame[frame[col] > bound]] *)
Definition above (col : string) (bound : float) (t : Table) : Table :=
  filter (fun row => match Frame.float_at col row with
                     | Some f => bound <? f
                     | None => false
                     end) t.

(** The sort key of a row: its number in column [col], if any. *)
Definition sort_key (col : string) (row : LabelledRow) : option float :=
  match Frame.float_at col row with
  | Some f => if is_nan f then None else Some f
  | None => None
  end.

(** A descending sort on a float64 column that keeps rows of equal value
    in frame order and puts the rows without a number last: the order
    [sort_values(col, ascending=False)] returns when its sort is stable.
    [insert_desc] puts a row in front of the sorted rows that follow it in
    the frame. *)
Fixpoint insert_desc (col : string) (row : LabelledRow) (t : Table) : Table :=
  match t with
  | [] => [row]
  | h :: t' =>
      match sort_key col h, sort_key col row with
      | Some a, Some b =>
          if a <=? b then row :: h :: t' else h :: insert_desc col row t'
      | Some _, None => h :: insert_desc col row t'
      | None, _ => row :: h :: t'
      end
  end.

Definition sort_values_desc (col : string) (t : Table) : Table :=
  fold_right (insert_desc col) [] t.

End Select.

(** ** [report_generator.py] *)

Module ReportGenerator.

Import KPIEngine.

(** The values [generate_report] interpolates into its Markdown template
    (the formatting of the numbers and the writing of the file are left
    out). *)
Record ReportValues := mkReportValues {
  kpis : KPIs;
  metrics : Metrics;
  top_partners : Table;
  underperformers : Table;
  first_pick : LabelledRow;
  second_pick : LabelledRow
}.

(** [generate_report], from the loaded frame on.  [sort_values] stands for
    [DataFrame.sort_values(col, ascending=False)], whose order among equal
    revenues is pandas' own; [None] is the IndexError that
    [top_partners.iloc[0]] or [top_partners.iloc[1]] raises when the row is
    missing. *)
Definition generate_report (sort_values : string -> Table -> Table)
           (df : DataFrame) : option ReportValues :=
  let km := calculate_kpis df in
  let partner_perf := get_partner_performance df in
  let top := firstn 5 (sort_values "revenue"%string partner_perf) in
  let under := Select.below "ROI" 1 partner_perf in
  match nth_error top 0, nth_error top 1 with
  | Some a, Some b =>
      Some {| kpis := fst km; metrics := snd km;
              top_partners := top; underperformers := under;
              first_pick := a; second_pick := b |}
  | _, _ => None
  end.

End ReportGenerator.

(** ** [dashboard.py] *)

Module Dashboard.

Import KPIEngine.

(** The three widgets an issue can be shown with. *)
Inductive widget := st_error | st_warning | st_info.

(** [p in s] on strings: [p] occurs somewhere in [s]. *)
Fixpoint contains (p s : string) : bool :=
  (String.prefix p s
   || match s with
      | EmptyString => false
      | String _ t => contains p t
      end)%bool.

(** The character [c] occurs in [s]. *)
Fixpoint has_char (c : ascii) (s : string) : bool :=
  match s with
  | EmptyString => false
  | String a t => (Ascii.eqb c a || has_char c t)%bool
  end.

(** The loop over the issues of [run_checks]. *)
Definition show_issue (issue : string) : widget :=
  if contains "CRITICAL" issue then st_error
  else if contains "WARNING" issue then st_warning
  else st_info.

Definition widget_rank (w : widget) : nat :=
  match w with st_error => 0 | st_warning => 1 | st_info => 2 end.

(** [partner_perf[partner_perf['ROI'] < 1.0]] and
    [partner_perf[partner_perf['ROI'] > 4.0]] *)
Definition low_roi (partner_perf : Table) : Table :=
  Select.below "ROI" 1 partner_perf.
Definition high_roi (partner_perf : Table) : Table :=
  Select.above "ROI" 4 partner_perf.

(** [Series.unique()]: the distinct values, in order of first appearance. *)
Fixpoint unique (l : list string) : list string :=
  match l with
  | [] => []
  | x :: t => x :: filter (fun y => negb (String.eqb y x)) (unique t)
  end.

(** The sidebar's default values: the date range from [df['date'].min()]
    to [df['date'].max()] and every vertical of the frame; [None] when the
    frame is empty (the script stops on "No data available."). Dates are
    day numbers. *)
Definition default_filters (df : DataFrame) : option (list Z * list string) :=
  match df with
  | [] => None
  | r :: t =>
      Some ([fold_left Z.min (map date t) (date r);
             fold_left Z.max (map date t) (date r)],
            unique (map vertical df))
  end.

(** The filter logic: both ends of [date_range] are read by index ([None]
    is the IndexError of a range with a single date), then the records
    within the range and of a selected vertical are kept. *)
Definition filtered_df (date_range : list Z) (selected_vertical : list string)
           (df : DataFrame) : option DataFrame :=
  match nth_error date_range 0, nth_error date_range 1 with
  | Some d0, Some d1 =>
      Some (filter (fun r => ((d0 <=? date r) && (date r <=? d1)
                              && existsb (String.eqb (vertical r))
                                         selected_vertical)%bool) df)
  | _, _ => None
  end.

End Dashboard.

(** ** The ordering the specification describes *)

Module Spec.

Import GroupBy.

(** The distinct keys of a column of keys, each at the place of its first
    appearance. *)
Fixpoint first_appearance (ks : list key) : list key :=
  match ks with
  | [] => []
  | k :: t => k :: filter (fun k' => negb (key_eqb k' k)) (first_appearance t)
  end.

End Spec.

(** * Properties *)

(** ** binary64 arithmetic, through its specification *)

Module Float64Facts.

Local Open Scope float_scope.

Definition sf_nan (x : spec_float) : bool :=
  match x with S754_nan => true | _ => false end.

(** Zero of either sign, or NaN: what a vanishing spread can be. *)
Definition sf_zero_or_nan (x : spec_float) : bool :=
  match x with S754_nan | S754_zero _ => true | _ => false end.

(** Neither NaN nor an infinity. *)
Definition sf_finite (x : spec_float) : bool :=
  match x with S754_zero _ | S754_finite _ _ _ => true | _ => false end.

Lemma Prim2SF_0 : Prim2SF 0 = S754_zero false.
Proof. reflexivity. Qed.

Lemma SFcompare_refl (x : spec_float) :
  sf_nan x = false -> SFcompare x x = Some Eq.
Proof.
  destruct x as [s | s | | s m e]; simpl; intros H; try discriminate.
  - reflexivity.
  - now destruct s.
  - rewrite Z.compare_refl, Pos.compare_cont_refl. now destruct s.
Qed.

Lemma is_nan_spec (x : float) : is_nan x = sf_nan (Prim2SF x).
Proof.
  unfold is_nan. rewrite eqb_spec. unfold SFeqb.
  destruct (sf_nan (Prim2SF x)) eqn:E.
  - destruct (Prim2SF x); try discriminate. reflexivity.
  - now rewrite SFcompare_refl.
Qed.

Lemma fillna0_not_nan (x : float) : is_nan (Float64.fillna0 x) = false.
Proof.
  unfold Float64.fillna0. destruct (is_nan x) eqn:E; [reflexivity | exact E].
Qed.

Lemma fillna0_id (x : float) : is_nan x = false -> Float64.fillna0 x = x.
Proof. unfold Float64.fillna0. now intros ->. Qed.

(** Comparisons against NaN are false. *)
Lemma ltb_nan_r (x y : float) : is_nan y = true -> (x <? y) = false.
Proof.
  rewrite is_nan_spec, ltb_spec. unfold SFltb.
  destruct (Prim2SF y); try discriminate. now destruct (Prim2SF x).
Qed.

Lemma ltb_0_false_of_leb (d : float) : (d <=? 0) = true -> (0 <? d) = false.
Proof.
  rewrite leb_spec, ltb_spec, Prim2SF_0. unfold SFleb, SFltb.
  destruct (Prim2SF d) as [s | s | | s m e]; simpl; try discriminate;
    destruct s; simpl; congruence.
Qed.


Lemma is_finite_spec (x : float) : is_finite x = sf_finite (Prim2SF x).
Proof.
unfold is_finite, is_infinity. rewrite is_nan_spec, eqb_spec, abs_spec.
replace (Prim2SF infinity) with (S754_infinity false) by reflexivity.
destruct (Prim2SF x) as [s | s | | s m e]; try reflexivity; now destruct s.
Qed.

(** *** Rounding never produces NaN *)

Lemma shr_1_nonneg (mrs : shr_record) :
  (0 <= shr_m mrs)%Z -> (0 <= shr_m (shr_1 mrs))%Z.
Proof.
destruct mrs as [m r s]; simpl.
destruct m as [| p | p]; simpl; intros H; try lia; destruct p; simpl; lia.
Qed.

Lemma iter_shr_1_nonneg (p : positive) : forall mrs : shr_record,
  (0 <= shr_m mrs)%Z -> (0 <= shr_m (iter_pos shr_1 p mrs))%Z.
Proof.
induction p as [p IH | p IH |]; simpl; intros mrs H.
- apply IH, IH, shr_1_nonneg, H.
- apply IH, IH, H.
- apply shr_1_nonneg, H.
Qed.

Lemma shr_nonneg (mrs : shr_record) (e n : Z) :
  (0 <= shr_m mrs)%Z -> (0 <= shr_m (fst (shr mrs e n)))%Z.
Proof.
unfold shr. destruct n; simpl; auto using iter_shr_1_nonneg.
Qed.

Lemma shr_fexp_nonneg (m e : Z) (l : location) :
  (0 <= m)%Z -> (0 <= shr_m (fst (shr_fexp prec emax m e l)))%Z.
Proof.
intros H. unfold shr_fexp. apply shr_nonneg.
destruct l as [| c]; [| destruct c]; exact H.
Qed.

Lemma round_nearest_even_nonneg (m : Z) (l : location) :
  (0 <= m)%Z -> (0 <= round_nearest_even m l)%Z.
Proof.
intros H. unfold round_nearest_even.
destruct l as [| c]; [| destruct c]; try destruct (Z.even m); lia.
Qed.

Lemma binary_round_aux_not_nan (s : bool) (m e : Z) (l : location) :
  (0 <= m)%Z -> sf_nan (binary_round_aux prec emax s m e l) = false.
Proof.
intros H. unfold binary_round_aux.
pose proof (shr_fexp_nonneg m e l H) as H1.
destruct (shr_fexp prec emax m e l) as [mrs1 e1]; simpl in H1.
pose proof (shr_fexp_nonneg _ e1 loc_Exact
              (round_nearest_even_nonneg _ (loc_of_shr_record mrs1) H1)) as H2.
destruct (shr_fexp prec emax _ e1 loc_Exact) as [mrs2 e2]; simpl in H2.
destruct (shr_m mrs2) as [| q | q]; try reflexivity.
- now destruct (e2 <=? emax - prec)%Z.
- lia.
Qed.

Lemma binary_normalize_not_nan (m e : Z) (sz : bool) :
  sf_nan (binary_normalize prec emax m e sz) = false.
Proof.
unfold binary_normalize, binary_round.
destruct m as [| p | p]; try reflexivity;
  destruct (shl_align _ _ _) as [mz ez]; now apply binary_round_aux_not_nan.
Qed.

(** The difference of two finite numbers is a number (possibly an
    infinity, on overflow). *)
Lemma SF64sub_not_nan (x y : spec_float) :
  sf_finite x = true -> sf_finite y = true -> sf_nan (SF64sub x y) = false.
Proof.
unfold SF64sub, SFsub.
destruct x as [sx | sx | | sx mx ex]; destruct y as [sy | sy | | sy my ey];
  simpl; try discriminate; intros _ _; try reflexivity.
- now destruct sx, sy.
- apply binary_normalize_not_nan.
Qed.

(** A number divided by a finite nonzero number is a number. *)
Lemma SF64div_not_nan (x : spec_float) (sy : bool) (my : positive) (ey : Z) :
  sf_nan x = false -> sf_nan (SF64div x (S754_finite sy my ey)) = false.
Proof.
unfold SF64div, SFdiv.
destruct x as [sx | sx | | sx mx ex]; simpl; try discriminate;
  intros _; try reflexivity.
unfold SFdiv_core_binary.
set (m' := match _ with Z0 => _ | Zpos _ => _ | Zneg _ => _ end) at 1.
assert (Hm : (0 <= m')%Z).
{ subst m'. destruct (_ - _ - _)%Z; try lia. apply Z.shiftl_nonneg. lia. }
pose proof (Z.div_pos m' (Zpos my) Hm ltac:(lia)) as Hq.
unfold Z.div in Hq.
destruct (Z.div_eucl m' (Zpos my)) as [q r]; simpl in Hq.
now apply binary_round_aux_not_nan.
Qed.

(** *** Quotients that are NaN *)

(** 0/0, NaN/y and x/NaN are all NaN. *)
Lemma div_vanishing_nan (x y : float) :
  sf_zero_or_nan (Prim2SF x) = true -> sf_zero_or_nan (Prim2SF y) = true ->
  is_nan (x / y) = true.
Proof.
rewrite is_nan_spec, div_spec.
destruct (Prim2SF x); try discriminate; destruct (Prim2SF y);
  try discriminate; reflexivity.
Qed.

Lemma div_nan_r (x y : float) : is_nan y = true -> is_nan (x / y) = true.
Proof.
rewrite !is_nan_spec, div_spec.
destruct (Prim2SF y); try discriminate. now destruct (Prim2SF x).
Qed.

Lemma abs_nan (x : float) : is_nan x = true -> is_nan (abs x) = true.
Proof.
rewrite !is_nan_spec, abs_spec. now destruct (Prim2SF x).
Qed.


(** *** The pairwise sum *)

(** -0.0 is neutral for the addition. *)
Lemma add_neg_zero_l (x : float) : (-0) + x = x.
Proof.
apply Prim2SF_inj. rewrite add_spec.
change (Prim2SF (-0)) with (S754_zero true).
destruct (Prim2SF x) as [s | s | | s m e]; try reflexivity. now destruct s.
Qed.

Lemma sum_cons (x : float) (l : list float) :
  Float64.sum (x :: l)
  = Float64.pairwise_sum (List.length (x :: l)) (x :: l).
Proof. unfold Float64.sum. apply add_neg_zero_l. Qed.

(** Induction on a list, eight cells at a time. *)
Lemma list_ind8 {A : Type} (P : list A -> Prop) :
  (forall l, (List.length l < 8)%nat -> P l) ->
  (forall a0 a1 a2 a3 a4 a5 a6 a7 t,
     P t -> P (a0 :: a1 :: a2 :: a3 :: a4 :: a5 :: a6 :: a7 :: t)) ->
  forall l, P l.
Proof.
intros Hs Hc l.
assert (H : forall n l', (List.length l' <= n)%nat -> P l').
{ induction n as [| n IH]; intros l' Hl.
  - apply Hs. lia.
  - destruct l' as [| a0 [| a1 [| a2 [| a3 [| a4 [| a5 [| a6 [| a7 t]]]]]]]];
      try (apply Hs; simpl; lia).
    apply Hc, IH. simpl in Hl. lia. }
apply (H (List.length l)). lia.
Qed.

Lemma sum_unrolled_short (r0 r1 r2 r3 r4 r5 r6 r7 : float) (l : list float) :
  (List.length l < 8)%nat ->
  Float64.sum_unrolled r0 r1 r2 r3 r4 r5 r6 r7 l
  = fold_left add l (((r0 + r1) + (r2 + r3)) + ((r4 + r5) + (r6 + r7))).
Proof.
destruct l as [| a0 [| a1 [| a2 [| a3 [| a4 [| a5 [| a6 [| a7 t]]]]]]]];
  intros H; try reflexivity.
simpl in H. lia.
Qed.

Lemma pairwise_sum_short (fuel : nat) (l : list float) :
  (List.length l < 8)%nat ->
  Float64.pairwise_sum fuel l = fold_left add l (-0).
Proof.
destruct l as [| a0 [| a1 [| a2 [| a3 [| a4 [| a5 [| a6 [| a7 t]]]]]]]];
  intros H; destruct fuel; try reflexivity; simpl in H; lia.
Qed.

Lemma pairwise_sum_block (fuel : nat) (a0 a1 a2 a3 a4 a5 a6 a7 : float)
      (t : list float) :
  (List.length t <= 120)%nat ->
  Float64.pairwise_sum fuel (a0 :: a1 :: a2 :: a3 :: a4 :: a5 :: a6 :: a7 :: t)
  = Float64.sum_unrolled a0 a1 a2 a3 a4 a5 a6 a7 t.
Proof.
intros H.
assert (E : (List.length (a0 :: a1 :: a2 :: a3 :: a4 :: a5 :: a6 :: a7 :: t)
             <=? 128)%nat = true) by (apply Nat.leb_le; simpl; lia).
destruct fuel; cbn [Float64.pairwise_sum]; now rewrite E.
Qed.

Lemma pairwise_sum_split (fuel : nat) (a : list float) :
  (128 < List.length a)%nat ->
  Float64.pairwise_sum (S fuel) a
  = let n2 := (List.length a / 2 - (List.length a / 2) mod 8)%nat in
    Float64.pairwise_sum fuel (firstn n2 a)
    + Float64.pairwise_sum fuel (skipn n2 a).
Proof.
intros H.
destruct a as [| a0 [| a1 [| a2 [| a3 [| a4 [| a5 [| a6 [| a7 t]]]]]]]];
  try (simpl in H; lia).
assert (E : (List.length (a0 :: a1 :: a2 :: a3 :: a4 :: a5 :: a6 :: a7 :: t)
             <=? 128)%nat = false) by (apply Nat.leb_gt; exact H).
cbn [Float64.pairwise_sum]. now rewrite E.
Qed.

(** The place where a long array is split leaves two shorter, non-empty
    parts. *)
Lemma split_point (n : nat) :
  (128 < n)%nat ->
  (0 < n / 2 - (n / 2) mod 8 < n)%nat.
Proof.
intros H.
pose proof (Nat.mod_upper_bound (n / 2) 8 ltac:(lia)) as Hm.
pose proof (Nat.div_mod_eq n 2) as Hd.
pose proof (Nat.mod_upper_bound n 2 ltac:(lia)) as Hr.
lia.
Qed.

(** The length of the array is enough fuel: more changes nothing. *)
Lemma pairwise_sum_fuel (fuel : nat) : forall a : list float,
  (List.length a <= fuel)%nat ->
  Float64.pairwise_sum fuel a = Float64.pairwise_sum (List.length a) a.
Proof.
induction fuel as [fuel IH] using lt_wf_ind. intros a Ha.
destruct (Nat.le_gt_cases (List.length a) 128) as [Hs | Hl].
- destruct a as [| a0 [| a1 [| a2 [| a3 [| a4 [| a5 [| a6 [| a7 t]]]]]]]];
    try (rewrite !pairwise_sum_short by (simpl; lia); reflexivity).
  rewrite !pairwise_sum_block by (simpl in Hs; lia). reflexivity.
- destruct fuel as [| fuel]; [lia |].
  assert (En : exists n, List.length a = S n)
    by (exists (pred (List.length a)); lia).
  destruct En as [n En].
  transitivity (Float64.pairwise_sum (S n) a); [| now rewrite En].
  rewrite (pairwise_sum_split fuel a Hl), (pairwise_sum_split n a Hl).
  cbv zeta.
  pose proof (split_point (List.length a) Hl) as Hp.
  set (n2 := (List.length a / 2 - (List.length a / 2) mod 8)%nat) in *.
  assert (L1 : List.length (firstn n2 a) = n2) by (apply firstn_length_le; lia).
  assert (L2 : List.length (skipn n2 a) = (List.length a - n2)%nat)
    by apply length_skipn.
  rewrite (IH fuel ltac:(lia) (firstn n2 a)) by lia.
  rewrite (IH fuel ltac:(lia) (skipn n2 a)) by lia.
  rewrite (IH n ltac:(lia) (firstn n2 a)) by lia.
  rewrite (IH n ltac:(lia) (skipn n2 a)) by lia.
  reflexivity.
Qed.

(** A property of cells that the addition preserves holds of every sum. *)
Section Closed.

Variable P : float -> Prop.
Hypothesis P_add : forall a b, P a -> P b -> P (a + b).

Lemma fold_add_closed (l : list float) : forall acc : float,
  P acc -> Forall P l -> P (fold_left add l acc).
Proof.
induction l as [| x l IH]; intros acc Ha Hl; [exact Ha |].
inversion Hl; subst. cbn [fold_left]. apply IH; auto.
Qed.

Lemma sum_unrolled_closed (l : list float) :
  forall r0 r1 r2 r3 r4 r5 r6 r7 : float,
  P r0 -> P r1 -> P r2 -> P r3 -> P r4 -> P r5 -> P r6 -> P r7 ->
  Forall P l -> P (Float64.sum_unrolled r0 r1 r2 r3 r4 r5 r6 r7 l).
Proof.
induction l as [l Hl | a0 a1 a2 a3 a4 a5 a6 a7 t IH] using list_ind8;
  intros r0 r1 r2 r3 r4 r5 r6 r7 H0 H1 H2 H3 H4 H5 H6 H7 HF.
- rewrite sum_unrolled_short by exact Hl.
  apply fold_add_closed; auto.
- do 8 (apply Forall_cons_iff in HF; destruct HF as [? HF]).
  cbn [Float64.sum_unrolled]. apply IH; auto.
Qed.

Lemma pairwise_sum_closed (fuel : nat) : forall l : list float,
  P (-0) -> Forall P l -> P (Float64.pairwise_sum fuel l).
Proof.
induction fuel as [| fuel IH]; intros l H0 HF;
  (destruct (Nat.lt_ge_cases (List.length l) 8) as [Hs | Hs];
   [rewrite pairwise_sum_short by exact Hs; now apply fold_add_closed |]);
  (destruct (Nat.le_gt_cases (List.length l) 128) as [Hb | Hb]).
- destruct l as [| a0 [| a1 [| a2 [| a3 [| a4 [| a5 [| a6 [| a7 t]]]]]]]];
    try (simpl in Hs; lia).
  rewrite pairwise_sum_block by (simpl in Hb; lia).
  do 8 (apply Forall_cons_iff in HF; destruct HF as [? HF]).
  apply sum_unrolled_closed; auto.
- destruct l as [| a0 [| a1 [| a2 [| a3 [| a4 [| a5 [| a6 [| a7 t]]]]]]]];
    try (simpl in Hs; lia).
  cbn [Float64.pairwise_sum].
  do 8 (apply Forall_cons_iff in HF; destruct HF as [? HF]).
  destruct (_ <=? 128)%nat; apply sum_unrolled_closed; auto.
- destruct l as [| a0 [| a1 [| a2 [| a3 [| a4 [| a5 [| a6 [| a7 t]]]]]]]];
    try (simpl in Hs; lia).
  rewrite pairwise_sum_block by (simpl in Hb; lia).
  do 8 (apply Forall_cons_iff in HF; destruct HF as [? HF]).
  apply sum_unrolled_closed; auto.
- rewrite (pairwise_sum_split fuel l Hb). cbv zeta.
  set (n2 := (List.length l / 2 - (List.length l / 2) mod 8)%nat).
  rewrite <- (firstn_skipn n2 l) in HF. apply Forall_app in HF.
  apply P_add; apply IH; tauto.
Qed.

Lemma sum_closed (l : list float) :
  P 0 -> P (-0) -> Forall P l -> P (Float64.sum l).
Proof.
intros H0 Hn HF. destruct l as [| x l]; [exact H0 |].
rewrite sum_cons. now apply pairwise_sum_closed.
Qed.

End Closed.

(** The count of the cells that are not missing. *)
Lemma count_le_length (l : list float) :
  (Float64.count l <= List.length l)%nat.
Proof. apply filter_length_le. Qed.

Lemma count_full (l : list float) :
  (forall x, In x l -> is_nan x = false) ->
  Float64.count l = List.length l.
Proof.
intros H. unfold Float64.count. induction l as [| x l IH]; [reflexivity |].
cbn [filter]. rewrite (H x) by (now left). simpl. f_equal.
apply IH. intros y Hy. apply H. now right.
Qed.

End Float64Facts.

(** ** Group keys: a strict total order, and sorted insertion *)

Module GroupByFacts.

Import GroupBy.

Lemma string_compare_refl (a : string) : String.compare a a = Eq.
Proof. now apply OrderedTypeEx.String_as_OT.cmp_eq. Qed.

Lemma string_compare_trans (a b c : string) :
  String.compare a b = Lt -> String.compare b c = Lt ->
  String.compare a c = Lt.
Proof.
intros H1 H2.
apply OrderedTypeEx.String_as_OT.cmp_lt in H1, H2.
apply OrderedTypeEx.String_as_OT.cmp_lt.
eapply OrderedTypeEx.String_as_OT.lt_trans; eassumption.
Qed.

Lemma key_compare_eq (a b : key) : key_compare a b = Eq <-> a = b.
Proof.
destruct a as [a1 a2], b as [b1 b2]. unfold key_compare. simpl. split.
- destruct (String.compare a1 b1) eqn:E1; try discriminate.
  intros E2. apply String.compare_eq_iff in E1, E2. congruence.
- intros H. inversion H. now rewrite !string_compare_refl.
Qed.

Lemma key_compare_antisym (a b : key) :
  key_compare a b = CompOpp (key_compare b a).
Proof.
destruct a as [a1 a2], b as [b1 b2]. unfold key_compare. simpl.
rewrite (String.compare_antisym a1 b1), (String.compare_antisym a2 b2).
now destruct (String.compare b1 a1).
Qed.

Lemma key_lt_irrefl (a : key) : ~ key_lt a a.
Proof.
unfold key_lt. now rewrite (proj2 (key_compare_eq a a) eq_refl).
Qed.

Lemma key_lt_trans (a b c : key) : key_lt a b -> key_lt b c -> key_lt a c.
Proof.
destruct a as [a1 a2], b as [b1 b2], c as [c1 c2].
unfold key_lt, key_compare. simpl.
destruct (String.compare a1 b1) eqn:E1; try discriminate;
  destruct (String.compare b1 c1) eqn:E2; try discriminate; intros H1 H2.
- apply String.compare_eq_iff in E1, E2. subst.
  rewrite string_compare_refl. eapply string_compare_trans; eassumption.
- apply String.compare_eq_iff in E1. subst. now rewrite E2.
- apply String.compare_eq_iff in E2. subst. now rewrite E1.
- now rewrite (string_compare_trans _ _ _ E1 E2).
Qed.

Lemma key_eqb_eq (a b : key) : key_eqb a b = true <-> a = b.
Proof.
destruct a as [a1 a2], b as [b1 b2]. unfold key_eqb. simpl.
rewrite andb_true_iff, !String.eqb_eq. split; [intros []|intros [=]]; subst; auto.
Qed.

Lemma key_eqb_refl (a : key) : key_eqb a a = true.
Proof. now apply key_eqb_eq. Qed.

Lemma key_eqb_neq (a b : key) : key_eqb a b = false <-> a <> b.
Proof.
rewrite <- key_eqb_eq. now destruct (key_eqb a b).
Qed.

Lemma insert_key_In (k x : key) (l : list key) :
  In x (insert_key k l) <-> x = k \/ In x l.
Proof.
induction l as [| h t IH]; simpl.
- intuition.
- destruct (key_compare k h) eqn:E; simpl.
  + apply key_compare_eq in E. subst. intuition.
  + intuition.
  + rewrite IH. intuition.
Qed.

Lemma insert_key_sorted (k : key) (l : list key) :
  StronglySorted key_lt l -> StronglySorted key_lt (insert_key k l).
Proof.
induction 1 as [| h t Hs IH Hall]; simpl.
- constructor; [constructor | constructor].
- destruct (key_compare k h) eqn:E.
  + now constructor.
  + constructor; [now constructor |].
    constructor; [exact E |].
    eapply Forall_impl; [| exact Hall].
    intros x Hx. eapply key_lt_trans; eassumption.
  + constructor; [exact IH |].
    apply Forall_forall. intros x Hx.
    apply insert_key_In in Hx. destruct Hx as [-> | Hx].
    * unfold key_lt. rewrite key_compare_antisym, E. reflexivity.
    * rewrite Forall_forall in Hall. now apply Hall.
Qed.

Lemma group_keys_In (ks : list key) (x : key) :
  In x (group_keys ks) <-> In x ks.
Proof.
induction ks as [| k t IH]; simpl; [tauto |].
rewrite insert_key_In, IH. intuition.
Qed.

Lemma group_keys_sorted (ks : list key) : StronglySorted key_lt (group_keys ks).
Proof.
induction ks as [| k t IH]; simpl; [constructor | now apply insert_key_sorted].
Qed.

Lemma sorted_NoDup (l : list key) : StronglySorted key_lt l -> NoDup l.
Proof.
induction 1 as [| h t Hs IH Hall]; constructor; [| exact IH].
intros Hin. rewrite Forall_forall in Hall.
exact (key_lt_irrefl h (Hall h Hin)).
Qed.

Lemma group_keys_NoDup (ks : list key) : NoDup (group_keys ks).
Proof. apply sorted_NoDup, group_keys_sorted. Qed.

(** The entries of [groupby_agg] are the group keys, each with the sums
    of its own rows. *)
Lemma groupby_agg_keys (by_ : Row -> key) (df : DataFrame) :
  map fst (groupby_agg by_ df) = group_keys (map by_ df).
Proof.
unfold groupby_agg. rewrite map_map. simpl. apply map_id.
Qed.

Lemma groupby_agg_In (by_ : Row -> key) (df : DataFrame) (g : key * Sums) :
  In g (groupby_agg by_ df) <->
  In (fst g) (map by_ df) /\ snd g = agg_sum (group_rows by_ (fst g) df).
Proof.
unfold groupby_agg. rewrite in_map_iff. split.
- intros [k [<- Hk]]. simpl. split; [now apply group_keys_In | reflexivity].
- intros [Hk Hs]. exists (fst g). split; [| now apply group_keys_In].
  destruct g as [k s]. simpl in *. now rewrite Hs.
Qed.

End GroupByFacts.

Import GroupBy KPIEngine DataQuality Float64Facts GroupByFacts.

(** ** [safe_div] and [calculate_kpis] *)

(** C3. [safe_div x d] is the quotient [x / d] when [d > 0] and [0.0] when
    [d <= 0]: zero and negative denominators are treated alike (and so is a
    NaN denominator); the function is total.  In particular
    [safe_div x 0 = 0.0], [safe_div x (-1) = 0.0] and
    [safe_div 10 4 = 2.5]. *)
Theorem safe_div_spec : forall x d : float,
  ((0 <? d)%float = true -> safe_div x d = (x / d)%float) /\
  ((d <=? 0)%float = true -> safe_div x d = 0%float) /\
  (is_nan d = true -> safe_div x d = 0%float) /\
  safe_div x 0 = 0%float /\
  safe_div x (-1) = 0%float /\
  safe_div 10 4 = 2.5%float.
Proof.
intros x d. unfold safe_div. repeat split.
- now intros ->.
- intros H. now rewrite (ltb_0_false_of_leb d H).
- intros H. now rewrite (ltb_nan_r 0 d H).
Qed.

(** C5. On the empty frame [calculate_kpis] returns five zero totals and
    five zero ratios. *)
Theorem calculate_kpis_empty :
  calculate_kpis [] =
  ({| CTR := 0; Conversion_Rate := 0; EPC := 0; AOV := 0; ROI := 0 |},
   {| m_impressions := 0; m_clicks := 0; m_orders := 0; m_revenue := 0;
      m_commission_paid := 0 |}).
Proof. reflexivity. Qed.

(** ** [run_checks] *)

(** C7. On the empty frame none of the four checks emits an issue and
    [run_checks] returns the single PASSED issue. *)
Theorem run_checks_empty :
  check_ctr [] = [] /\ check_neg [] = [] /\ check_nulls [] = [] /\
  check_outliers [] = [] /\
  run_checks [] = ["PASSED: All data quality checks passed."%string].
Proof. repeat split. Qed.

Lemma check_ctr_cases (df : DataFrame) :
  check_ctr df = [] \/ check_ctr df = [msg_ctr (List.length (invalid_ctr df))].
Proof. unfold check_ctr. destruct (invalid_ctr df); auto. Qed.

Lemma check_neg_cases (df : DataFrame) :
  check_neg df = [] \/ check_neg df = [msg_neg (List.length (neg_val df))].
Proof. unfold check_neg. destruct (neg_val df); auto. Qed.

Lemma check_nulls_cases (df : DataFrame) :
  check_nulls df = [] \/ check_nulls df = [msg_nulls (nulls df)].
Proof. unfold check_nulls. destruct (0 <? nulls df)%nat; auto. Qed.

Lemma check_outliers_cases (df : DataFrame) :
  check_outliers df = [] \/
  check_outliers df = [msg_outliers (outliers (rev_data df))].
Proof.
unfold check_outliers. destruct (rev_data df) as [| x l]; auto.
destruct (0 <? outliers (x :: l))%nat; auto.
Qed.

(** Every issue emitted by one of the four checks carries the severity of
    its check. *)
Lemma issue_severity (df : DataFrame) (s : string) :
  In s (check_ctr df ++ check_neg df ++ check_nulls df ++ check_outliers df) ->
  String.prefix "CRITICAL" s = true \/ String.prefix "WARNING" s = true \/
  (String.prefix "INFO" s = true /\ In s (check_outliers df)).
Proof.
intros H. repeat (apply in_app_or in H; destruct H as [H | H]).
- destruct (check_ctr_cases df) as [E | E]; rewrite E in H;
    [contradiction | destruct H as [<- | []]; now left].
- destruct (check_neg_cases df) as [E | E]; rewrite E in H;
    [contradiction | destruct H as [<- | []]; now left].
- destruct (check_nulls_cases df) as [E | E]; rewrite E in H;
    [contradiction | destruct H as [<- | []]; right; now left].
- right; right. split; [| exact H].
  destruct (check_outliers_cases df) as [E | E]; rewrite E in H;
    [contradiction | now destruct H as [<- | []]].
Qed.

Lemma prefix_head_neq (a b : ascii) (p s : string) :
  a <> b -> String.prefix (String a p) (String b s) = false.
Proof. intros H. simpl. now destruct (ascii_dec a b). Qed.

Lemma prefix_head_eq (a : ascii) (p s : string) :
  String.prefix (String a p) s = true -> exists s', s = String a s'.
Proof.
destruct s as [| b s]; simpl; [discriminate |].
destruct (ascii_dec a b) as [<- |]; [eauto | discriminate].
Qed.

Lemma run_checks_issues (df : DataFrame) :
  check_ctr df ++ check_neg df ++ check_nulls df ++ check_outliers df <> [] ->
  run_checks df =
  check_ctr df ++ check_neg df ++ check_nulls df ++ check_outliers df.
Proof.
unfold run_checks.
destruct (check_ctr df ++ check_neg df ++ check_nulls df ++ check_outliers df);
  congruence.
Qed.

(** C8. When some record has more clicks than impressions, [run_checks]
    opens its report with the message "CRITICAL: Found n rows where Clicks >
    Impressions.", where n, written in decimal, is the number of such
    records (at least one), and no issue of the report is a PASSED issue. *)
Theorem run_checks_flags_invalid_ctr : forall df : DataFrame,
  (exists r, In r df /\ (impressions r < clicks r)%Z) ->
  let n := List.length (filter (fun r => (impressions r <? clicks r)%Z) df) in
  let message :=
    ("CRITICAL: Found " ++ NilEmpty.string_of_uint (Nat.to_uint n)
     ++ " rows where Clicks > Impressions.")%string in
  (1 <= n)%nat /\
  hd_error (run_checks df) = Some message /\
  In message (run_checks df) /\
  (forall s, In s (run_checks df) -> String.prefix "PASSED" s = false).
Proof.
intros df [r [Hin Hlt]] n message. change message with (msg_ctr n).
clear message.
assert (Hr : In r (invalid_ctr df)).
{ apply filter_In. split; [exact Hin | now apply Z.ltb_lt]. }
assert (Hc : check_ctr df = [msg_ctr n]).
{ unfold check_ctr. fold (invalid_ctr df) in n.
  destruct (invalid_ctr df) eqn:E; [contradiction | reflexivity]. }
assert (Hrun : run_checks df =
  check_ctr df ++ check_neg df ++ check_nulls df ++ check_outliers df).
{ apply run_checks_issues. now rewrite Hc. }
repeat split.
- subst n. fold (invalid_ctr df). destruct (invalid_ctr df); [contradiction |].
  simpl. lia.
- now rewrite Hrun, Hc.
- rewrite Hrun, Hc. now left.
- intros s Hs. rewrite Hrun in Hs.
  destruct (issue_severity df s Hs) as [P | [P | [P _]]];
    apply prefix_head_eq in P; destruct P as [s' ->];
    apply prefix_head_neq; discriminate.
Qed.

(** A single record with 20 clicks for 10 impressions, and the same record
    twelve times. *)
Lemma run_checks_flags_invalid_ctr_witness :
  let r := mkRow 0 1 "Mobile" "Email" 20 10 0 0 0 "P" "Tech" "C" "A" in
  (exists r', In r' [r] /\ (impressions r' < clicks r')%Z) /\
  In "CRITICAL: Found 1 rows where Clicks > Impressions."%string
     (run_checks [r]) /\
  ~ In "PASSED: All data quality checks passed."%string (run_checks [r]) /\
  In "CRITICAL: Found 12 rows where Clicks > Impressions."%string
     (run_checks (repeat r 12)).
Proof.
intros r.
assert (H : exists r', In r' [r] /\ (impressions r' < clicks r')%Z).
{ exists r. split; [now left | reflexivity]. }
split; [exact H |].
destruct (run_checks_flags_invalid_ctr [r] H) as (_ & _ & Hin & Hno).
split; [exact Hin |].
split; [intros Hp; apply Hno in Hp; discriminate Hp |].
assert (H12 : exists r', In r' (repeat r 12) /\ (impressions r' < clicks r')%Z).
{ exists r. split; [now left | reflexivity]. }
exact (proj1 (proj2 (proj2 (run_checks_flags_invalid_ctr _ H12)))).
Defined.

(** ** The grouped frames *)

Lemma partner_table_rows (df : DataFrame) (row : LabelledRow) :
  In row (get_partner_performance df) <->
  exists g, In g (groupby_agg partner_key df) /\
            row = map (fun nc => (fst nc, Frame.fillna_cell (snd nc)))
                      (partner_row g).
Proof.
unfold get_partner_performance, Frame.fillna0. rewrite map_map, in_map_iff.
split; intros [g [H1 H2]]; exists g; auto.
Qed.

Lemma campaign_table_rows (df : DataFrame) (row : LabelledRow) :
  In row (get_campaign_performance df) <->
  exists g, In g (groupby_agg campaign_key df) /\
            row = map (fun nc => (fst nc, Frame.fillna_cell (snd nc)))
                      (campaign_row g).
Proof.
unfold get_campaign_performance, Frame.fillna0. rewrite map_map, in_map_iff.
split; intros [g [H1 H2]]; exists g; auto.
Qed.

(** C9. Every row of the campaign frame has exactly eleven columns: the
    two key columns, the five sums and the four ratios CTR,
    Conversion_Rate, EPC and ROI; there is no AOV column, whereas every row
    of the partner frame has one. *)
Theorem campaign_performance_columns : forall df : DataFrame,
  Forall (fun row =>
            Frame.columns row =
            ["campaign_name"; "landing_page_variant"; "impressions"; "clicks";
             "orders"; "revenue"; "commission_paid";
             "CTR"; "Conversion_Rate"; "EPC"; "ROI"]%string /\
            ~ In "AOV"%string (Frame.columns row) /\
            Frame.lookup "AOV" row = None)
         (get_campaign_performance df) /\
  Forall (fun row => exists f, Frame.lookup "AOV" row = Some (CFloat f))
         (get_partner_performance df).
Proof.
intros df. split; apply Forall_forall; intros row H.
- apply campaign_table_rows in H. destruct H as [g [_ ->]].
  split; [reflexivity | split; [| reflexivity]].
  simpl. intros H. repeat (destruct H as [H | H]; [discriminate H |]).
  exact H.
- apply partner_table_rows in H. destruct H as [g [_ ->]].
  simpl. eauto.
Qed.

(** The sanitising pass leaves no NaN in the partner frame. *)
Lemma partner_performance_no_nan (df : DataFrame) (row : LabelledRow)
      (n : string) (f : float) :
  In row (get_partner_performance df) -> In (n, CFloat f) row ->
  is_nan f = false.
Proof.
intros H Hc. apply partner_table_rows in H. destruct H as [g [_ ->]].
simpl in Hc.
repeat (destruct Hc as [Hc | Hc];
        [inversion Hc; subst; apply fillna0_not_nan |]).
contradiction.
Qed.

(** C1. One group without clicks but with an order and revenue: the
    divisions by zero give infinities, which [fillna(0)] does not replace;
    Conversion_Rate and EPC of the returned row are infinite, not 0. *)
Theorem partner_performance_keeps_infinity :
  let df := [mkRow 0 1 "Mobile" "Email" 0 10 1 5 1 "P" "Tech" "C" "A"] in
  Frame.float_column "CTR" (get_partner_performance df) = [0%float] /\
  Frame.float_column "Conversion_Rate" (get_partner_performance df)
    = [infinity] /\
  Frame.float_column "EPC" (get_partner_performance df) = [infinity] /\
  forallb (fun row => forallb Frame.finite_cell (map snd row))
          (get_partner_performance df) = false.
Proof. repeat split. Qed.

(** ** Row order of the grouped frames *)

Lemma flat_map_single {A B C : Type} (f : B -> list C) (g : A -> B)
      (h : A -> C) (l : list A) :
  (forall x, f (g x) = [h x]) -> flat_map f (map g l) = map h l.
Proof.
intros H. induction l as [| x l IH]; simpl; [reflexivity |].
now rewrite H, IH.
Qed.

Lemma partner_key_column (df : DataFrame) :
  Frame.key_column "partner_name" "vertical" (get_partner_performance df)
  = group_keys (map partner_key df).
Proof.
rewrite <- groupby_agg_keys.
unfold get_partner_performance, Frame.fillna0, Frame.key_column.
rewrite map_map. apply flat_map_single. now intros [[a b] s].
Qed.

Lemma campaign_key_column (df : DataFrame) :
  Frame.key_column "campaign_name" "landing_page_variant"
                   (get_campaign_performance df)
  = group_keys (map campaign_key df).
Proof.
rewrite <- groupby_agg_keys.
unfold get_campaign_performance, Frame.fillna0, Frame.key_column.
rewrite map_map. apply flat_map_single. now intros [[a b] s].
Qed.

(** C2, as amended. The rows of both grouped frames come in strictly
    ascending lexicographic order of their key pair, one row for each
    distinct key of the input ([groupby] sorts its groups by default). *)
Theorem grouped_rows_sorted_by_key : forall df : DataFrame,
  let pk := Frame.key_column "partner_name" "vertical"
                             (get_partner_performance df) in
  let ck := Frame.key_column "campaign_name" "landing_page_variant"
                             (get_campaign_performance df) in
  StronglySorted key_lt pk /\ NoDup pk /\
  List.length pk = List.length (get_partner_performance df) /\
  (forall k, In k pk <-> In k (map partner_key df)) /\
  StronglySorted key_lt ck /\ NoDup ck /\
  List.length ck = List.length (get_campaign_performance df) /\
  (forall k, In k ck <-> In k (map campaign_key df)).
Proof.
intros df pk ck. subst pk ck.
rewrite partner_key_column, campaign_key_column.
unfold get_partner_performance, get_campaign_performance, Frame.fillna0.
rewrite !length_map, <- !(groupby_agg_keys _ df), !length_map.
rewrite !groupby_agg_keys.
repeat split;
  try apply group_keys_sorted; try apply group_keys_NoDup;
  try apply group_keys_In.
Qed.

(** C2, as stated, fails: two records whose keys first appear as
    ("Zeta", "Tech") and then ("Alpha", "Home") come out with "Alpha"
    first, in both frames. *)
Lemma first_appearance_order_counterexample :
  let df := [mkRow 0 1 "Mobile" "Email" 5 100 1 20 4 "Zeta" "Tech" "Z_Promo" "B";
             mkRow 0 2 "Mobile" "Email" 7 200 2 30 6 "Alpha" "Home" "A_Promo" "A"] in
  Frame.key_column "partner_name" "vertical" (get_partner_performance df)
    <> Spec.first_appearance (map partner_key df) /\
  Frame.key_column "campaign_name" "landing_page_variant"
                   (get_campaign_performance df)
    <> Spec.first_appearance (map campaign_key df).
Proof. split; discriminate. Qed.

(** ** Group sums against grand totals *)

Lemma fold_add_acc (l : list Z) (a : Z) :
  fold_left Z.add l a = a + fold_left Z.add l 0.
Proof.
revert a. induction l as [| x l IH]; intros a; simpl; [lia |].
rewrite (IH (a + x)), (IH x). lia.
Qed.

Lemma fold_add_cons (x : Z) (l : list Z) :
  fold_left Z.add (x :: l) 0 = x + fold_left Z.add l 0.
Proof. simpl. apply fold_add_acc. Qed.

Lemma fold_add_pointwise {A : Type} (a b : A -> Z) (K : list A) :
  fold_left Z.add (map (fun k => a k + b k) K) 0
  = fold_left Z.add (map a K) 0 + fold_left Z.add (map b K) 0.
Proof.
induction K as [| k K IH]; [reflexivity |].
cbn [map]. rewrite !fold_add_cons, IH. lia.
Qed.

(** Among distinct keys exactly one is the key of a given row. *)
Lemma fold_add_indicator (x : key) (v : Z) (K : list key) :
  NoDup K -> In x K ->
  fold_left Z.add (map (fun k => if key_eqb x k then v else 0) K) 0 = v.
Proof.
induction 1 as [| k K Hk Hnd IH]; intros Hin; [contradiction |].
cbn [map]. rewrite fold_add_cons.
destruct Hin as [-> | Hin].
- rewrite key_eqb_refl.
  assert (E : fold_left Z.add
                (map (fun k => if key_eqb x k then v else 0) K) 0 = 0).
  { clear IH Hnd. induction K as [| k K IHK]; [reflexivity |].
    cbn [map]. rewrite fold_add_cons.
    destruct (key_eqb x k) eqn:E.
    - apply key_eqb_eq in E. subst. exfalso. apply Hk. now left.
    - rewrite IHK; [lia |]. intros H. apply Hk. now right. }
  lia.
- destruct (key_eqb x k) eqn:E.
  + apply key_eqb_eq in E. subst. contradiction.
  + rewrite IH by exact Hin. lia.
Qed.

(** The groups partition the frame: summing a column group by group gives
    its sum over the frame. *)
Lemma group_partition (by_ : Row -> key) (f : Row -> Z) (K : list key) :
  NoDup K -> forall df : DataFrame,
  (forall r, In r df -> In (by_ r) K) ->
  fold_left Z.add
    (map (fun k => fold_left Z.add (map f (group_rows by_ k df)) 0) K) 0
  = fold_left Z.add (map f df) 0.
Proof.
intros Hnd. induction df as [| r df IH]; intros Hin.
- clear Hnd Hin. induction K as [| k K IHK]; [reflexivity |].
  cbn [map]. rewrite fold_add_cons, IHK. reflexivity.
- cbn [map]. rewrite fold_add_cons, <- IH by (intros; apply Hin; now right).
  rewrite <- (fold_add_indicator (by_ r) (f r) K Hnd) at 1
    by (apply Hin; now left).
  rewrite <- fold_add_pointwise. f_equal. apply map_ext. intros k.
  unfold group_rows. cbn [filter].
  destruct (key_eqb (by_ r) k); cbn [map];
    [now rewrite fold_add_cons | lia].
Qed.

Lemma wrap_mod (z : Z) : Int64.wrap z mod 2 ^ 64 = z mod 2 ^ 64.
Proof.
unfold Int64.wrap.
rewrite <- (Zminus_mod_idemp_l ((z + 2 ^ 63) mod 2 ^ 64)), Z.mod_mod by lia.
rewrite Zminus_mod_idemp_l. f_equal. lia.
Qed.

Lemma wrap_congr (x y : Z) :
  x mod 2 ^ 64 = y mod 2 ^ 64 -> Int64.wrap x = Int64.wrap y.
Proof.
intros H. unfold Int64.wrap.
rewrite <- (Zplus_mod_idemp_l x), <- (Zplus_mod_idemp_l y), H. reflexivity.
Qed.

(** Wrapping each partial sum does not change the wrapped total. *)
Lemma sum_of_wrapped {A : Type} (g : A -> Z) (K : list A) :
  Int64.sum (map (fun k => Int64.wrap (g k)) K) = Int64.sum (map g K).
Proof.
unfold Int64.sum. apply wrap_congr.
induction K as [| k K IH]; [reflexivity |].
cbn [map]. rewrite !fold_add_cons.
rewrite Z.add_mod, wrap_mod, IH, <- Z.add_mod by lia. reflexivity.
Qed.

Lemma groupby_int_total (by_ : Row -> key) (f : Row -> Z) (df : DataFrame) :
  Int64.sum (map (fun k => Int64.sum (map f (group_rows by_ k df)))
                 (group_keys (map by_ df)))
  = Int64.sum (map f df).
Proof.
unfold Int64.sum at 2.
rewrite (sum_of_wrapped
           (fun k => fold_left Z.add (map f (group_rows by_ k df)) 0)).
unfold Int64.sum. f_equal.
apply group_partition; [apply group_keys_NoDup |].
intros r Hr. apply group_keys_In, in_map, Hr.
Qed.

Lemma partner_int_column (name : string) (f : Sums -> Z) (df : DataFrame) :
  (forall g, Frame.lookup name
               (map (fun nc => (fst nc, Frame.fillna_cell (snd nc)))
                    (partner_row g)) = Some (CInt (f (snd g)))) ->
  Frame.int_column name (get_partner_performance df)
  = map (fun k => f (agg_sum (group_rows partner_key k df)))
        (group_keys (map partner_key df)).
Proof.
intros H.
unfold get_partner_performance, Frame.fillna0, Frame.int_column, groupby_agg.
rewrite !map_map.
apply (flat_map_single _ _
         (fun k => f (agg_sum (group_rows partner_key k df)))).
intros k. now rewrite H.
Qed.



(** ** ROI under a negative commission total *)






(** * Further properties of the checker *)

Lemma filter_nil_iff {A : Type} (f : A -> bool) (l : list A) :
  filter f l = [] <-> Forall (fun x => f x = false) l.
Proof.
induction l as [| x l IH]; simpl.
- split; [constructor | reflexivity].
- destruct (f x) eqn:E; split; intros H.
  + discriminate H.
  + inversion H; subst. congruence.
  + constructor; [exact E | now apply IH].
  + inversion H; subst. now apply IH.
Qed.

Lemma filter_length_pos {A : Type} (f : A -> bool) (l : list A) (x : A) :
  In x l -> f x = true -> (1 <= List.length (filter f l))%nat.
Proof.
intros Hin Hf.
assert (H : In x (filter f l)) by (apply filter_In; auto).
destruct (filter f l); [contradiction | simpl; lia].
Qed.

(** Once a check has emitted something, the report is the list of the
    emitted issues, none of which is the PASSED issue. *)
Lemma run_checks_no_passed (df : DataFrame) :
  check_ctr df ++ check_neg df ++ check_nulls df ++ check_outliers df <> [] ->
  forall s, In s (run_checks df) -> String.prefix "PASSED" s = false.
Proof.
intros Hne s Hs. rewrite (run_checks_issues df Hne) in Hs.
destruct (issue_severity df s Hs) as [P | [P | [P _]]];
  apply prefix_head_eq in P; destruct P as [s' ->];
  apply prefix_head_neq; discriminate.
Qed.

Lemma check_neg_emits (df : DataFrame) :
  neg_val df <> [] -> check_neg df = [msg_neg (List.length (neg_val df))].
Proof.
unfold check_neg. destruct (neg_val df); [congruence | reflexivity].
Qed.

Lemma check_ctr_silent (df : DataFrame) :
  invalid_ctr df = [] -> check_ctr df = [].
Proof. unfold check_ctr. now intros ->. Qed.

(** X1. When some record has a negative revenue or a negative commission,
    the report holds the message "CRITICAL: Found n rows with negative
    Revenue or Commission.", where n, written in decimal, is the number of
    such records (at least one); the message comes first in the report when
    no record has more clicks than impressions, and the report holds no
    PASSED issue. *)
Theorem run_checks_flags_negative : forall df : DataFrame,
  (exists r, In r df /\
     ((revenue r <? 0)%float = true \/ (commission_paid r <? 0)%float = true)) ->
  let n :=
    List.length
      (filter (fun r => ((revenue r <? 0) || (commission_paid r <? 0))%float%bool)
              df) in
  let message :=
    ("CRITICAL: Found " ++ NilEmpty.string_of_uint (Nat.to_uint n)
     ++ " rows with negative Revenue or Commission.")%string in
  (1 <= n)%nat /\
  In message (run_checks df) /\
  (Forall (fun r => (clicks r <= impressions r)%Z) df ->
   hd_error (run_checks df) = Some message) /\
  (forall s, In s (run_checks df) -> String.prefix "PASSED" s = false).
Proof.
intros df [r [Hin Hneg]] n message.
assert (En : n = List.length (neg_val df)) by reflexivity.
assert (Em : message = msg_neg n) by reflexivity.
clearbody message. subst message. clearbody n. subst n.
set (n := List.length (neg_val df)).
assert (Hf : ((revenue r <? 0) || (commission_paid r <? 0))%float%bool = true).
{ apply orb_true_iff. exact Hneg. }
assert (Hn : (1 <= n)%nat).
{ exact (filter_length_pos _ df r Hin Hf). }
assert (Hc : check_neg df = [msg_neg n]).
{ apply check_neg_emits. subst n. destruct (neg_val df); simpl in Hn; [lia |].
  discriminate. }
assert (Hne : check_ctr df ++ check_neg df ++ check_nulls df
              ++ check_outliers df <> []).
{ rewrite Hc. destruct (check_ctr df); discriminate. }
repeat split.
- exact Hn.
- rewrite (run_checks_issues df Hne), Hc.
  apply in_or_app. right. now left.
- intros Hi. rewrite (run_checks_issues df Hne), Hc.
  replace (check_ctr df) with (@nil string); [reflexivity |].
  symmetry. apply check_ctr_silent, filter_nil_iff.
  revert Hi. apply Forall_impl. intros a. apply Z.ltb_ge.
- now apply run_checks_no_passed.
Qed.

(** One record with revenue -1, and eleven records with commission -2. *)
Lemma run_checks_flags_negative_witness :
  let r := mkRow 0 1 "Mobile" "Email" 5 100 1 (-1) 0 "P" "Tech" "C" "A" in
  (exists r', In r' [r] /\
     ((revenue r' <? 0)%float = true \/
      (commission_paid r' <? 0)%float = true)) /\
  In "CRITICAL: Found 1 rows with negative Revenue or Commission."%string
     (run_checks [r]) /\
  hd_error
    (run_checks
       (repeat (mkRow 0 1 "Mobile" "Email" 5 100 1 3 (-2) "P" "Tech" "C" "A")
               11))
  = Some "CRITICAL: Found 11 rows with negative Revenue or Commission."%string.
Proof.
intros r.
assert (H : exists r', In r' [r] /\
     ((revenue r' <? 0)%float = true \/
      (commission_paid r' <? 0)%float = true)).
{ exists r. split; [now left | left; reflexivity]. }
split; [exact H |].
split; [exact (proj1 (proj2 (run_checks_flags_negative [r] H))) |].
set (r2 := mkRow 0 1 "Mobile" "Email" 5 100 1 3 (-2) "P" "Tech" "C" "A").
assert (H2 : exists r', In r' (repeat r2 11) /\
     ((revenue r' <? 0)%float = true \/
      (commission_paid r' <? 0)%float = true)).
{ exists r2. split; [now left | right; reflexivity]. }
apply (proj1 (proj2 (proj2 (run_checks_flags_negative _ H2)))).
apply Forall_forall. intros a Ha. apply repeat_spec in Ha. subst a.
unfold r2. cbn [clicks impressions]. lia.
Defined.

Lemma nulls_pos (df : DataFrame) (r : Row) :
  In r df ->
  is_nan (orders r) = true \/ is_nan (revenue r) = true \/
  is_nan (commission_paid r) = true ->
  (1 <= nulls df)%nat.
Proof.
intros Hin H. unfold nulls.
destruct H as [H | [H | H]].
- pose proof (filter_length_pos is_nan (map orders df) _ (in_map orders _ _ Hin) H).
  lia.
- pose proof (filter_length_pos is_nan (map revenue df) _
                (in_map revenue _ _ Hin) H).
  lia.
- pose proof (filter_length_pos is_nan (map commission_paid df) _
                (in_map commission_paid _ _ Hin) H).
  lia.
Qed.

(** X2. When some record has a missing (NaN) orders, revenue or commission
    cell, the report holds a message "WARNING: Found n missing values in
    dataset." where n, written in decimal, is at least 1 and at least the
    number of missing cells of these three columns; and the report holds no
    PASSED issue. *)
Theorem run_checks_flags_missing : forall df : DataFrame,
  (exists r, In r df /\
     (is_nan (orders r) = true \/ is_nan (revenue r) = true \/
      is_nan (commission_paid r) = true)) ->
  (exists n : nat,
     (1 <= n)%nat /\
     (List.length (filter is_nan (map orders df))
      + List.length (filter is_nan (map revenue df))
      + List.length (filter is_nan (map commission_paid df)) <= n)%nat /\
     In ("WARNING: Found " ++ NilEmpty.string_of_uint (Nat.to_uint n)
         ++ " missing values in dataset.")%string (run_checks df)) /\
  (forall s, In s (run_checks df) -> String.prefix "PASSED" s = false).
Proof.
intros df [r [Hin Hnan]].
pose proof (nulls_pos df r Hin Hnan) as Hn.
assert (Hc : check_nulls df = [msg_nulls (nulls df)]).
{ unfold check_nulls.
  destruct (Nat.ltb_spec 0 (nulls df)); [reflexivity | lia]. }
assert (Hne : check_ctr df ++ check_neg df ++ check_nulls df
              ++ check_outliers df <> []).
{ rewrite Hc. destruct (check_ctr df); [| discriminate].
  destruct (check_neg df); discriminate. }
split.
- exists (nulls df). split; [exact Hn |]. split; [apply Nat.le_refl |].
  change (In (msg_nulls (nulls df)) (run_checks df)).
  rewrite (run_checks_issues df Hne), Hc.
  apply in_or_app. right. apply in_or_app. right. now left.
- now apply run_checks_no_passed.
Qed.

(** One record whose revenue and commission are both missing: two cells. *)
Lemma run_checks_flags_missing_witness :
  let r := mkRow 0 1 "Mobile" "Email" 5 100 0 nan nan "P" "Tech" "C" "A" in
  (exists r', In r' [r] /\
     (is_nan (orders r') = true \/ is_nan (revenue r') = true \/
      is_nan (commission_paid r') = true)) /\
  (exists n : nat,
     (2 <= n)%nat /\
     In ("WARNING: Found " ++ NilEmpty.string_of_uint (Nat.to_uint n)
         ++ " missing values in dataset.")%string (run_checks [r])) /\
  run_checks [r] = ["WARNING: Found 2 missing values in dataset."%string].
Proof.
intros r.
assert (H : exists r', In r' [r] /\
     (is_nan (orders r') = true \/ is_nan (revenue r') = true \/
      is_nan (commission_paid r') = true)).
{ exists r. split; [now left | right; left; reflexivity]. }
split; [exact H |].
split; [| reflexivity].
destruct (proj1 (run_checks_flags_missing [r] H)) as (n & _ & Hn & Hin).
exists n. split; [exact Hn | exact Hin].
Defined.

Lemma Forall_iff_ext {A : Type} (P Q : A -> Prop) (l : list A) :
  (forall x, P x <-> Q x) -> (Forall P l <-> Forall Q l).
Proof.
intros H. split; apply Forall_impl; intros x; apply H.
Qed.

Lemma length_zero_nil {A : Type} (l : list A) :
  List.length l = 0%nat <-> l = [].
Proof. destruct l; simpl; split; congruence. Qed.

Lemma check_ctr_nil_iff (df : DataFrame) :
  check_ctr df = [] <-> Forall (fun r => (clicks r <= impressions r)%Z) df.
Proof.
rewrite (Forall_iff_ext _ (fun r => (impressions r <? clicks r)%Z = false))
  by (intros r; symmetry; apply Z.ltb_ge).
rewrite <- filter_nil_iff. fold (invalid_ctr df). unfold check_ctr.
destruct (invalid_ctr df); split; congruence.
Qed.

Lemma check_neg_nil_iff (df : DataFrame) :
  check_neg df = [] <->
  Forall (fun r => (revenue r <? 0)%float = false /\
                   (commission_paid r <? 0)%float = false) df.
Proof.
rewrite (Forall_iff_ext _
           (fun r => ((revenue r <? 0) || (commission_paid r <? 0))%float%bool
                     = false))
  by (intros r; symmetry; apply orb_false_iff).
rewrite <- filter_nil_iff. fold (neg_val df). unfold check_neg.
destruct (neg_val df); split; congruence.
Qed.

Lemma nulls_zero_iff (df : DataFrame) :
  nulls df = 0%nat <->
  Forall (fun r => is_nan (orders r) = false /\ is_nan (revenue r) = false /\
                   is_nan (commission_paid r) = false) df.
Proof.
unfold nulls.
assert (E : forall a b c : nat, (a + b + c = 0 <-> a = 0 /\ b = 0 /\ c = 0)%nat)
  by (intros; lia).
rewrite E, !length_zero_nil, !filter_nil_iff, !Forall_map, !Forall_forall.
split.
- intros (Ho & Hr & Hc) r Hin. auto.
- intros H. repeat split; intros r Hin; apply (H r Hin).
Qed.

Lemma check_nulls_nil_iff (df : DataFrame) :
  check_nulls df = [] <-> nulls df = 0%nat.
Proof.
unfold check_nulls.
destruct (Nat.ltb_spec 0 (nulls df)); split; intros;
  try discriminate; try reflexivity; lia.
Qed.

Lemma check_outliers_nil_iff (df : DataFrame) :
  check_outliers df = [] <-> outliers (rev_data df) = 0%nat.
Proof.
unfold check_outliers. destruct (rev_data df) as [| x l].
- split; reflexivity.
- destruct (Nat.ltb_spec 0 (outliers (x :: l)));
    split; intros; try discriminate; try reflexivity; lia.
Qed.

Lemma run_checks_passed_checks (df : DataFrame) :
  run_checks df = [msg_passed] <->
  check_ctr df = [] /\ check_neg df = [] /\ check_nulls df = [] /\
  check_outliers df = [].
Proof.
split.
- intros H.
  destruct (check_ctr df ++ check_neg df ++ check_nulls df
            ++ check_outliers df) as [| i l] eqn:E.
  + apply app_eq_nil in E. destruct E as [E1 E].
    apply app_eq_nil in E. destruct E as [E2 E].
    apply app_eq_nil in E. tauto.
  + exfalso.
    assert (Hne : check_ctr df ++ check_neg df ++ check_nulls df
                  ++ check_outliers df <> []) by (rewrite E; discriminate).
    assert (Hp : String.prefix "PASSED" msg_passed = false).
    { apply (run_checks_no_passed df Hne). rewrite H. now left. }
    discriminate Hp.
- intros (E1 & E2 & E3 & E4). unfold run_checks.
  now rewrite E1, E2, E3, E4.
Qed.

Lemma outliers_zero_iff (l : list float) :
  outliers l = 0%nat <->
  Forall (fun x => (3 <? abs ((x - Float64.mean l) / Float64.std l))%float
                   = false) l.
Proof.
unfold outliers, z_scores.
rewrite length_zero_nil, filter_nil_iff, Forall_map. reflexivity.
Qed.

(** X3. The PASSED issue is only reported for a clean frame: when it
    occurs in the report, it is the whole report, no record has more clicks
    than impressions, none has a negative revenue or commission, no orders,
    revenue or commission cell is missing, and no positive revenue lies
    more than 3 standard deviations from the mean of the positive
    revenues. *)
Theorem run_checks_passed_only_if_clean : forall df : DataFrame,
  In "PASSED: All data quality checks passed."%string (run_checks df) ->
  let rev := filter (fun x => (0 <? x)%float) (map revenue df) in
  run_checks df = ["PASSED: All data quality checks passed."%string] /\
  Forall (fun r => (clicks r <= impressions r)%Z) df /\
  Forall (fun r => (revenue r <? 0)%float = false /\
                   (commission_paid r <? 0)%float = false) df /\
  Forall (fun r => is_nan (orders r) = false /\ is_nan (revenue r) = false /\
                   is_nan (commission_paid r) = false) df /\
  Forall (fun x => (3 <? abs ((x - Float64.mean rev) / Float64.std rev))%float
                   = false) rev.
Proof.
intros df Hin rev. change rev with (rev_data df). clear rev.
assert (E : run_checks df = [msg_passed]).
{ destruct (check_ctr df ++ check_neg df ++ check_nulls df
            ++ check_outliers df) as [| i l] eqn:E.
  - unfold run_checks. now rewrite E.
  - exfalso.
    assert (Hne : check_ctr df ++ check_neg df ++ check_nulls df
                  ++ check_outliers df <> []) by (rewrite E; discriminate).
    pose proof (run_checks_no_passed df Hne _ Hin) as Hp.
    discriminate Hp. }
split; [exact E |].
apply run_checks_passed_checks in E.
rewrite check_ctr_nil_iff, check_neg_nil_iff, check_nulls_nil_iff,
  nulls_zero_iff, check_outliers_nil_iff, outliers_zero_iff in E.
exact E.
Qed.

(** One record with 5 clicks for 100 impressions and revenue 20. *)
Lemma run_checks_passed_only_if_clean_witness :
  let df := [mkRow 0 1 "Mobile" "Email" 5 100 1 20 4 "P" "Tech" "C" "A"] in
  In "PASSED: All data quality checks passed."%string (run_checks df) /\
  Forall (fun r => (clicks r <= impressions r)%Z) df.
Proof.
intros df.
assert (H : In "PASSED: All data quality checks passed."%string
               (run_checks df)) by (now left).
split; [exact H |].
exact (proj1 (proj2 (run_checks_passed_only_if_clean df H))).
Defined.

(** * The dashboard's display of the issues *)

Module DashboardFacts.

Import Dashboard.

Lemma contains_prefix (p s : string) :
  String.prefix p s = true -> contains p s = true.
Proof. intros H. destruct s; simpl in *; now rewrite H. Qed.

Lemma contains_no_char (c : ascii) (p s : string) :
  has_char c s = false -> contains (String c p) s = false.
Proof.
induction s as [| a t IH]; [reflexivity |].
cbn [has_char contains]. intros H. apply orb_false_iff in H.
destruct H as [Hc Ht]. rewrite (IH Ht), orb_false_r.
apply prefix_head_neq. intros ->. now rewrite Ascii.eqb_refl in Hc.
Qed.

Lemma has_char_append (c : ascii) (s1 s2 : string) :
  has_char c (s1 ++ s2) = (has_char c s1 || has_char c s2)%bool.
Proof.
induction s1 as [| a t IH]; [reflexivity |].
cbn [String.append has_char]. now rewrite IH, orb_assoc.
Qed.

(** A printed count holds digits only. *)
Lemma has_char_fmt (c : ascii) (n : nat) :
  has_char c "0123456789" = false -> has_char c (fmt n) = false.
Proof.
intros H. unfold fmt. generalize (Nat.to_uint n). intros d.
cbn [has_char] in H. repeat (apply orb_false_iff in H; destruct H as [? H]).
induction d; cbn [NilEmpty.string_of_uint has_char];
  try reflexivity; apply orb_false_iff; split; assumption.
Qed.

Lemma show_msg_ctr (n : nat) : show_issue (msg_ctr n) = st_error.
Proof. unfold show_issue. now rewrite contains_prefix. Qed.

Lemma show_msg_neg (n : nat) : show_issue (msg_neg n) = st_error.
Proof. unfold show_issue. now rewrite contains_prefix. Qed.

Lemma show_msg_nulls (n : nat) : show_issue (msg_nulls n) = st_warning.
Proof.
assert (HC : has_char "C" (msg_nulls n) = false).
{ unfold msg_nulls. rewrite !has_char_append, has_char_fmt; reflexivity. }
unfold show_issue. rewrite (contains_no_char "C" _ _ HC).
now rewrite contains_prefix.
Qed.

Lemma show_msg_outliers (n : nat) : show_issue (msg_outliers n) = st_info.
Proof.
assert (HC : has_char "C" (msg_outliers n) = false).
{ unfold msg_outliers. rewrite !has_char_append, has_char_fmt; reflexivity. }
assert (HW : has_char "W" (msg_outliers n) = false).
{ unfold msg_outliers. rewrite !has_char_append, has_char_fmt; reflexivity. }
unfold show_issue.
now rewrite (contains_no_char "C" _ _ HC), (contains_no_char "W" _ _ HW).
Qed.

Lemma show_msg_passed : show_issue msg_passed = st_info.
Proof. reflexivity. Qed.

End DashboardFacts.

Import Dashboard DashboardFacts.

(** X4. Every issue of a report is shown by the dashboard with the widget
    of its severity: the two CRITICAL messages as errors, the WARNING
    message as a warning, the INFO message and the PASSED issue as
    information; the count printed in a message never makes the substring
    tests misfire. *)
Theorem dashboard_shows_severity : forall df : DataFrame,
  Forall (fun s =>
            (String.prefix "CRITICAL" s = true /\ show_issue s = st_error) \/
            (String.prefix "WARNING" s = true /\ show_issue s = st_warning) \/
            ((String.prefix "INFO" s = true \/ String.prefix "PASSED" s = true)
             /\ show_issue s = st_info))
         (run_checks df).
Proof.
intros df. apply Forall_forall. intros s Hs. unfold run_checks in Hs.
assert (Hi : In s [msg_passed] \/
             In s (check_ctr df ++ check_neg df ++ check_nulls df
                   ++ check_outliers df)).
{ destruct (check_ctr df ++ check_neg df ++ check_nulls df
            ++ check_outliers df); [now left | now right]. }
clear Hs. destruct Hi as [[<- | []] | Hi].
- right; right. split; [now right | reflexivity].
- repeat (apply in_app_or in Hi; destruct Hi as [Hi | Hi]).
  + destruct (check_ctr_cases df) as [E | E]; rewrite E in Hi;
      [contradiction | destruct Hi as [<- | []]].
    left. split; [reflexivity | apply show_msg_ctr].
  + destruct (check_neg_cases df) as [E | E]; rewrite E in Hi;
      [contradiction | destruct Hi as [<- | []]].
    left. split; [reflexivity | apply show_msg_neg].
  + destruct (check_nulls_cases df) as [E | E]; rewrite E in Hi;
      [contradiction | destruct Hi as [<- | []]].
    right; left. split; [reflexivity | apply show_msg_nulls].
  + destruct (check_outliers_cases df) as [E | E]; rewrite E in Hi;
      [contradiction | destruct Hi as [<- | []]].
    right; right. split; [now left | apply show_msg_outliers].
Qed.

(** X5. A report is never empty and has at most four issues; its issues
    come by decreasing severity (errors, then the warning, then
    information), and the PASSED issue only ever stands alone. *)
Theorem run_checks_shape : forall df : DataFrame,
  (1 <= List.length (run_checks df) <= 4)%nat /\
  StronglySorted
    (fun s t => (widget_rank (show_issue s) <= widget_rank (show_issue t))%nat)
    (run_checks df) /\
  (In "PASSED: All data quality checks passed."%string (run_checks df) ->
   run_checks df = ["PASSED: All data quality checks passed."%string]).
Proof.
intros df. unfold run_checks.
destruct (check_ctr_cases df) as [E1 | E1]; rewrite E1;
destruct (check_neg_cases df) as [E2 | E2]; rewrite E2;
destruct (check_nulls_cases df) as [E3 | E3]; rewrite E3;
destruct (check_outliers_cases df) as [E4 | E4]; rewrite E4;
  cbn [app List.length];
  (split; [lia |]);
  (split;
   [ repeat (constructor;
             rewrite ?show_msg_ctr, ?show_msg_neg, ?show_msg_nulls,
               ?show_msg_outliers, ?show_msg_passed; cbn [widget_rank];
             try lia)
   | try reflexivity ]);
  intros H; exfalso; cbn [In] in H;
  repeat (destruct H as [H | H]; [discriminate H |]); exact H.
Qed.

(** * Conversion of int64 totals to float64 *)

Module ConversionFacts.

Lemma digits2_pos_size (p : positive) : digits2_pos p = Pos.size p.
Proof. induction p; simpl; congruence. Qed.

Lemma digits_bound (p : positive) (k : Z) :
  0 <= k -> Zpos p < 2 ^ k -> Zpos (digits2_pos p) <= k.
Proof.
intros Hk H. rewrite digits2_pos_size.
pose proof (Pos.size_le p) as Hs.
assert (H2 : 2 ^ Zpos (Pos.size p) <= 2 * Zpos p).
{ rewrite <- Pos2Z.inj_pow. change (2 * Zpos p) with (Zpos p~0).
  now apply Pos2Z.pos_le_pos. }
destruct (Z_le_gt_dec (Zpos (Pos.size p)) k) as [|Hgt]; [assumption | exfalso].
assert (2 ^ (k + 1) <= 2 ^ Zpos (Pos.size p)) by (apply Z.pow_le_mono_r; lia).
rewrite Z.pow_add_r in H0 by lia. lia.
Qed.

Lemma digits_succ (p : positive) :
  (digits2_pos (Pos.succ p) <= Pos.succ (digits2_pos p))%positive.
Proof.
induction p as [p IH | p IH |]; simpl; try lia.
Qed.

Lemma Zdigits2_succ (m : Z) : 0 <= m -> Zdigits2 (m + 1) <= Zdigits2 m + 1.
Proof.
destruct m as [| p | p]; intros H; try lia; simpl.
- lia.
- rewrite Pos.add_1_r. pose proof (digits_succ p). lia.
Qed.

Lemma Zdigits2_nonneg (m : Z) : 0 <= Zdigits2 m.
Proof. destruct m; simpl; lia. Qed.

Lemma digits_shr_1 (mrs : shr_record) :
  0 <= shr_m mrs ->
  Zdigits2 (shr_m (shr_1 mrs)) = Z.max 0 (Zdigits2 (shr_m mrs) - 1).
Proof.
destruct mrs as [m r s]; simpl.
destruct m as [| p | p]; intros H; try lia; [reflexivity |].
destruct p; cbn [Zdigits2 digits2_pos shr_m]; rewrite ?Pos2Z.inj_succ; lia.
Qed.

Lemma digits_iter_shr (p : positive) : forall mrs : shr_record,
  0 <= shr_m mrs ->
  Zdigits2 (shr_m (iter_pos shr_1 p mrs))
  = Z.max 0 (Zdigits2 (shr_m mrs) - Zpos p).
Proof.
induction p as [p IH | p IH |]; intros mrs H; simpl.
- rewrite IH, IH, digits_shr_1 by auto using iter_shr_1_nonneg, shr_1_nonneg.
  lia.
- rewrite IH, IH by auto using iter_shr_1_nonneg. lia.
- now apply digits_shr_1.
Qed.

Lemma digits_iter_xO (m d : positive) :
  digits2_pos (Pos.iter xO m d) = (digits2_pos m + d)%positive.
Proof.
induction d as [| d IH] using Pos.peano_ind.
- simpl. lia.
- rewrite Pos.iter_succ. simpl. rewrite IH. lia.
Qed.

(** Exponent and magnitude after one truncation step. *)
Lemma shr_fexp_bounds (m e : Z) (l : location) :
  0 <= m ->
  let r := shr_fexp prec emax m e l in
  0 <= shr_m (fst r) /\
  snd r <= Z.max e (Z.max (Zdigits2 m + e - 53) (-1074)) /\
  Zdigits2 (shr_m (fst r)) + snd r <= Z.max (Zdigits2 m + e) (-1074).
Proof.
intros H r. subst r. unfold shr_fexp, shr.
assert (Hm : shr_m (shr_record_of_loc m l) = m)
  by (destruct l as [| c]; [| destruct c]; reflexivity).
change (fexp prec emax (Zdigits2 m + e))
  with (Z.max (Zdigits2 m + e - 53) (-1074)).
destruct (Z.max (Zdigits2 m + e - 53) (-1074) - e) as [| p | p] eqn:En;
  cbn [fst snd]; rewrite ?Hm.
- repeat split; lia.
- split; [apply iter_shr_1_nonneg; lia |].
  rewrite digits_iter_shr, Hm by lia. lia.
- repeat split; lia.
Qed.

Lemma round_nearest_even_digits (m : Z) (l : location) :
  0 <= m -> Zdigits2 (round_nearest_even m l) <= Zdigits2 m + 1.
Proof.
intros H. pose proof (Zdigits2_succ m H).
unfold round_nearest_even.
destruct l as [| c]; [| destruct c]; try destruct (Z.even m); lia.
Qed.

(** Rounding a magnitude well below the overflow threshold gives a
    finite number. *)
Lemma binary_round_aux_finite (s : bool) (m e : Z) (l : location) :
  0 <= m -> e <= 970 -> Zdigits2 m + e <= 1023 ->
  sf_finite (binary_round_aux prec emax s m e l) = true.
Proof.
intros Hm He Hd. unfold binary_round_aux.
destruct (shr_fexp_bounds m e l Hm) as (H1 & H2 & H3).
destruct (shr_fexp prec emax m e l) as [mrs1 e1]. cbn [fst snd] in H1, H2, H3.
pose proof (round_nearest_even_nonneg _ (loc_of_shr_record mrs1) H1) as Hr.
pose proof (round_nearest_even_digits _ (loc_of_shr_record mrs1) H1) as Hrd.
destruct (shr_fexp_bounds _ e1 loc_Exact Hr) as (K1 & K2 & K3).
destruct (shr_fexp prec emax _ e1 loc_Exact) as [mrs2 e2].
cbn [fst snd] in K1, K2, K3.
destruct (shr_m mrs2) as [| q | q]; try reflexivity; [| lia].
change (emax - prec) with 971.
destruct (Z.leb_spec e2 971); [reflexivity | lia].
Qed.

Lemma binary_normalize_finite (z : Z) :
  - 2 ^ 63 < z < 2 ^ 63 ->
  sf_finite (binary_normalize prec emax z 0 false) = true.
Proof.
intros Hz. unfold binary_normalize.
assert (Hround : forall (s : bool) (p : positive), Zpos p < 2 ^ 63 ->
          sf_finite (binary_round prec emax s p 0) = true).
{ intros s p Hp. unfold binary_round, shl_align.
  pose proof (digits_bound p 63 ltac:(lia) Hp) as Hd.
  destruct (fexp prec emax (Zpos (digits2_pos p) + 0) - 0) as [| d | d] eqn:E;
    try (apply binary_round_aux_finite; cbn [Zdigits2]; lia).
  apply binary_round_aux_finite; cbn [Zdigits2]; try lia.
  rewrite digits_iter_xO. lia. }
destruct z as [| p | p]; [reflexivity | |]; apply Hround; lia.
Qed.

Lemma of_uint63_finite (w : Z) :
  0 <= w < 2 ^ 63 ->
  sf_finite (Prim2SF (PrimFloat.of_uint63 (Uint63.of_Z w))) = true.
Proof.
intros Hw. rewrite of_uint63_spec, Uint63.of_Z_spec.
rewrite Z.mod_small by (exact Hw).
apply binary_normalize_finite. lia.
Qed.

Lemma wrap_range (z : Z) : - 2 ^ 63 <= Int64.wrap z < 2 ^ 63.
Proof.
unfold Int64.wrap.
pose proof (Z.mod_pos_bound (z + 2 ^ 63) (2 ^ 64) ltac:(lia)). lia.
Qed.

(** An int64 converts to a finite float64. *)
Lemma to_float_finite (z : Z) : is_finite (Int64.to_float z) = true.
Proof.
rewrite is_finite_spec. unfold Int64.to_float.
pose proof (wrap_range z) as Hw.
destruct (Z.eqb_spec (Int64.wrap z) (- 2 ^ 63)) as [E | E]; [reflexivity |].
destruct (Z.ltb_spec (Int64.wrap z) 0) as [L | L].
- rewrite opp_spec.
  pose proof (of_uint63_finite (- Int64.wrap z) ltac:(lia)) as H.
  destruct (Prim2SF _); try discriminate; reflexivity.
- apply of_uint63_finite. lia.
Qed.

Lemma Zdigits2_pos (m : Z) : 0 <= m -> (0 < Zdigits2 m <-> 0 < m).
Proof. destruct m; simpl; lia. Qed.

Lemma digits_succ_ge (p : positive) :
  (digits2_pos p <= digits2_pos (Pos.succ p))%positive.
Proof.
induction p as [p IH | p IH |]; simpl; lia.
Qed.

Lemma round_nearest_even_ge (m : Z) (l : location) :
  0 < m ->
  0 < round_nearest_even m l /\
  Zdigits2 m <= Zdigits2 (round_nearest_even m l).
Proof.
intros H.
assert (Hs : Zdigits2 m <= Zdigits2 (m + 1)).
{ destruct m as [| p | p]; try lia. simpl. rewrite Pos.add_1_r.
  pose proof (digits_succ_ge p). lia. }
unfold round_nearest_even.
destruct l as [| c]; [| destruct c]; try destruct (Z.even m); lia.
Qed.

(** A nonzero magnitude above the underflow threshold stays nonzero. *)
Lemma shr_fexp_pos (m e : Z) (l : location) :
  0 < m -> - 1074 < Zdigits2 m + e ->
  let r := shr_fexp prec emax m e l in
  0 < shr_m (fst r) /\
  Zdigits2 m + e <= Zdigits2 (shr_m (fst r)) + snd r.
Proof.
intros H Hd r. subst r. unfold shr_fexp, shr.
assert (Hm : shr_m (shr_record_of_loc m l) = m)
  by (destruct l as [| c]; [| destruct c]; reflexivity).
change (fexp prec emax (Zdigits2 m + e))
  with (Z.max (Zdigits2 m + e - 53) (-1074)).
destruct (Z.max (Zdigits2 m + e - 53) (-1074) - e) as [| p | p] eqn:En;
  cbn [fst snd]; rewrite ?Hm; try lia.
assert (Hdig : Zdigits2 (shr_m (iter_pos shr_1 p (shr_record_of_loc m l)))
               = Z.max 0 (Zdigits2 m - Zpos p))
  by (rewrite digits_iter_shr, Hm; lia).
split; [| lia].
apply Zdigits2_pos; [apply iter_shr_1_nonneg; lia | lia].
Qed.

Lemma binary_round_aux_nonzero (s : bool) (m e : Z) (l : location) :
  0 < m -> e <= 970 -> - 1074 < Zdigits2 m + e <= 1023 ->
  exists q e2, binary_round_aux prec emax s m e l = S754_finite s q e2.
Proof.
intros Hm He Hd.
pose proof (binary_round_aux_finite s m e l ltac:(lia) He ltac:(lia)) as Hf.
revert Hf. unfold binary_round_aux.
destruct (shr_fexp_pos m e l Hm ltac:(lia)) as (H1 & H2).
destruct (shr_fexp prec emax m e l) as [mrs1 e1]. cbn [fst snd] in H1, H2.
destruct (round_nearest_even_ge _ (loc_of_shr_record mrs1) H1) as (Hr & Hrd).
destruct (shr_fexp_pos _ e1 loc_Exact Hr ltac:(lia)) as (K1 & _).
destruct (shr_fexp prec emax _ e1 loc_Exact) as [mrs2 e2].
cbn [fst snd] in K1.
destruct (shr_m mrs2) as [| q | q]; try lia.
destruct (e2 <=? emax - prec); [eauto | discriminate].
Qed.

Lemma binary_normalize_pos (p : positive) :
  Zpos p < 2 ^ 63 ->
  exists q e2,
    binary_normalize prec emax (Zpos p) 0 false = S754_finite false q e2.
Proof.
intros Hp. unfold binary_normalize, binary_round, shl_align.
pose proof (digits_bound p 63 ltac:(lia) Hp) as Hd.
destruct (fexp prec emax (Zpos (digits2_pos p) + 0) - 0) as [| d | d] eqn:E;
  try (apply binary_round_aux_nonzero; cbn [Zdigits2]; lia).
apply binary_round_aux_nonzero; cbn [Zdigits2]; try lia.
rewrite digits_iter_xO. lia.
Qed.

(** The conversion keeps the sign: the float64 image of an int64 is
    positive exactly when the integer is. *)
Lemma to_float_pos (z : Z) :
  (0 <? Int64.to_float z)%float = (0 <? Int64.wrap z).
Proof.
rewrite ltb_spec, Prim2SF_0. unfold Int64.to_float.
pose proof (wrap_range z) as Hw.
destruct (Z.eqb_spec (Int64.wrap z) (- 2 ^ 63)) as [E | E].
- rewrite E. reflexivity.
- destruct (Z.ltb_spec (Int64.wrap z) 0) as [L | L].
  + assert (Hn : 0 <= - Int64.wrap z < 2 ^ 63) by lia.
    rewrite opp_spec, of_uint63_spec, Uint63.of_Z_spec, Z.mod_small
      by exact Hn.
    destruct (Z.ltb_spec 0 (Int64.wrap z)); [lia |].
    destruct (Int64.wrap z) as [| p | p]; try lia.
    destruct (binary_normalize_pos p ltac:(lia)) as (q & e2 & Eq).
    cbn [Z.opp]. rewrite Eq. reflexivity.
  + assert (Hn : 0 <= Int64.wrap z < 2 ^ 63) by lia.
    rewrite of_uint63_spec, Uint63.of_Z_spec, Z.mod_small by exact Hn.
    destruct (Int64.wrap z) as [| p | p]; try lia; [reflexivity |].
    destruct (binary_normalize_pos p ltac:(lia)) as (q & e2 & ->).
    reflexivity.
Qed.

Lemma to_float_neg (z : Z) :
  (Int64.to_float z <? 0)%float = (Int64.wrap z <? 0).
Proof.
rewrite ltb_spec, Prim2SF_0. unfold Int64.to_float.
pose proof (wrap_range z) as Hw.
destruct (Z.eqb_spec (Int64.wrap z) (- 2 ^ 63)) as [E | E].
- rewrite E. reflexivity.
- destruct (Z.ltb_spec (Int64.wrap z) 0) as [L | L].
  + assert (Hn : 0 <= - Int64.wrap z < 2 ^ 63) by lia.
    rewrite opp_spec, of_uint63_spec, Uint63.of_Z_spec, Z.mod_small
      by exact Hn.
    destruct (Int64.wrap z) as [| p | p]; try lia.
    destruct (binary_normalize_pos p ltac:(lia)) as (q & e2 & Eq).
    cbn [Z.opp]. rewrite Eq. reflexivity.
  + assert (Hn : 0 <= Int64.wrap z < 2 ^ 63) by lia.
    rewrite of_uint63_spec, Uint63.of_Z_spec, Z.mod_small by exact Hn.
    destruct (Int64.wrap z) as [| p | p]; try lia; [reflexivity |].
    destruct (binary_normalize_pos p ltac:(lia)) as (q & e2 & ->).
    reflexivity.
Qed.

Lemma wrap_idem (z : Z) : Int64.wrap (Int64.wrap z) = Int64.wrap z.
Proof. apply wrap_congr, wrap_mod. Qed.

Lemma sum_wrapped (l : list Z) : Int64.wrap (Int64.sum l) = Int64.sum l.
Proof. apply wrap_idem. Qed.

End ConversionFacts.

(** * Guarded division and the overall KPIs *)

Module DivisionFacts.

Local Open Scope float_scope.

(** Rounding keeps the sign it is given. *)
Lemma binary_round_aux_sign (s : bool) (m e : Z) (l : location) :
  (0 <= m)%Z ->
  match binary_round_aux prec emax s m e l with
  | S754_nan => False
  | S754_zero s' | S754_infinity s' | S754_finite s' _ _ => s' = s
  end.
Proof.
intros H. unfold binary_round_aux.
pose proof (shr_fexp_nonneg m e l H) as H1.
destruct (shr_fexp prec emax m e l) as [mrs1 e1]; simpl in H1.
pose proof (shr_fexp_nonneg _ e1 loc_Exact
              (round_nearest_even_nonneg _ (loc_of_shr_record mrs1) H1)) as H2.
destruct (shr_fexp prec emax _ e1 loc_Exact) as [mrs2 e2]; simpl in H2.
destruct (shr_m mrs2) as [| q | q]; try reflexivity.
- now destruct (e2 <=? emax - prec)%Z.
- lia.
Qed.

Lemma div_core_nonneg (mx my : positive) (ex ey : Z) :
  (0 <= fst (fst (SFdiv_core_binary prec emax (Zpos mx) ex (Zpos my) ey)))%Z.
Proof.
unfold SFdiv_core_binary.
set (m' := match _ with Z0 => _ | Zpos _ => _ | Zneg _ => _ end) at 1.
assert (Hm : (0 <= m')%Z).
{ subst m'. destruct (_ - _ - _)%Z; try lia. apply Z.shiftl_nonneg. lia. }
pose proof (Z.div_pos m' (Zpos my) Hm ltac:(lia)) as Hq.
unfold Z.div in Hq.
destruct (Z.div_eucl m' (Zpos my)) as [q r]. exact Hq.
Qed.

(** A positive float64 is a positive finite number or plus infinity. *)
Lemma positive_cases (b : float) :
  (0 <? b) = true ->
  Prim2SF b = S754_infinity false \/
  exists m e, Prim2SF b = S754_finite false m e.
Proof.
rewrite ltb_spec, Prim2SF_0. unfold SFltb.
destruct (Prim2SF b) as [s | s | | s m e]; simpl; try discriminate;
  destruct s; try discriminate; eauto.
Qed.

(** A finite numerator over a positive denominator is a number. *)
Lemma div_finite_pos (n d : float) :
  is_finite n = true -> (0 <? d) = true -> is_nan (n / d) = false.
Proof.
rewrite is_finite_spec, is_nan_spec, div_spec. intros Hn Hd.
destruct (positive_cases d Hd) as [E | (m & e & E)]; rewrite E.
- destruct (Prim2SF n); try discriminate; reflexivity.
- apply SF64div_not_nan. destruct (Prim2SF n); try discriminate; reflexivity.
Qed.

(** A number over a positive finite denominator is a number. *)
Lemma div_pos_finite (n d : float) :
  is_nan n = false -> is_finite d = true -> (0 <? d) = true ->
  is_nan (n / d) = false.
Proof.
rewrite is_finite_spec, !is_nan_spec, div_spec. intros Hn Hf Hd.
destruct (positive_cases d Hd) as [E | (m & e & E)]; rewrite E in *.
- discriminate Hf.
- now apply SF64div_not_nan.
Qed.

Lemma safe_div_not_nan (a b : float) :
  is_finite a = true -> is_nan (safe_div a b) = false.
Proof.
intros Ha. unfold safe_div. destruct (0 <? b) eqn:E; [| reflexivity].
now apply div_finite_pos.
Qed.

Lemma safe_div_not_negative (a b : float) :
  (a <? 0) = false -> (safe_div a b <? 0) = false.
Proof.
intros Ha. unfold safe_div. destruct (0 <? b) eqn:E; [| reflexivity].
revert Ha. rewrite !ltb_spec, Prim2SF_0, div_spec. unfold SFltb.
destruct (positive_cases b E) as [Eb | (m & e & Eb)]; rewrite Eb.
- destruct (Prim2SF a) as [s | s | | s ma ea]; simpl; try reflexivity;
    destruct s; simpl; congruence.
- destruct (Prim2SF a) as [s | s | | s ma ea]; simpl; try reflexivity;
    destruct s; simpl; try congruence.
  intros _.
  pose proof (div_core_nonneg ma m ea e) as Hq.
  destruct (SFdiv_core_binary prec emax (Zpos ma) ea (Zpos m) e)
    as [[q e'] l]. cbn [fst] in Hq.
  pose proof (binary_round_aux_sign false q e' l Hq) as Hs.
  destruct (binary_round_aux prec emax false q e' l) as [s | s | | s mq eq];
    try contradiction; subst; reflexivity.
Qed.

End DivisionFacts.

Import ConversionFacts DivisionFacts.

(** * Rounding errors of the float64 operations *)

Module RoundingFacts.

Import Reals Lra Psatz.
Import Float64Facts ConversionFacts DivisionFacts.

Local Open Scope Z_scope.

(** ** Powers of two and the value of a mantissa and exponent *)

Definition bpow (e : Z) : R := powerRZ 2 e.

Definition F2R (m e : Z) : R := (IZR m * bpow e)%R.

Lemma bpow_pos (e : Z) : (0 < bpow e)%R.
Proof. apply powerRZ_lt. lra. Qed.

Lemma bpow_add (a b : Z) : bpow (a + b) = (bpow a * bpow b)%R.
Proof. apply powerRZ_add. lra. Qed.

Lemma bpow_IZR (k : Z) : 0 <= k -> bpow k = IZR (2 ^ k).
Proof.
intros H. unfold bpow. destruct k as [| p | p]; try lia.
- reflexivity.
- symmetry. apply Zpower_pos_powerRZ.
Qed.

Lemma bpow_le (a b : Z) : a <= b -> (bpow a <= bpow b)%R.
Proof.
intros H. replace b with (a + (b - a)) by lia. rewrite bpow_add.
rewrite (bpow_IZR (b - a)) by lia.
assert (H0 : 1 <= 2 ^ (b - a))
  by (pose proof (Z.pow_pos_nonneg 2 (b - a)); lia).
apply IZR_le in H0. pose proof (bpow_pos a). nra.
Qed.

Lemma bpow_1 : bpow 1 = 2%R.
Proof. rewrite bpow_IZR by lia. reflexivity. Qed.

Lemma bpow_0 : bpow 0 = 1%R.
Proof. reflexivity. Qed.

Lemma bpow_succ (a : Z) : bpow (a + 1) = (2 * bpow a)%R.
Proof. rewrite bpow_add, bpow_1. lra. Qed.

(** Moving a power of two between mantissa and exponent. *)
Lemma F2R_shift (m e k : Z) : 0 <= k -> F2R (m * 2 ^ k) e = F2R m (e + k).
Proof.
intros H. unfold F2R. rewrite mult_IZR, <- bpow_IZR, bpow_add by exact H. lra.
Qed.

Lemma F2R_le (m1 m2 e : Z) : m1 <= m2 -> (F2R m1 e <= F2R m2 e)%R.
Proof.
intros H. unfold F2R. apply IZR_le in H. pose proof (bpow_pos e). nra.
Qed.

Lemma F2R_lt (m1 m2 e : Z) : m1 < m2 -> (F2R m1 e < F2R m2 e)%R.
Proof.
intros H. unfold F2R. apply IZR_lt in H. pose proof (bpow_pos e). nra.
Qed.

Lemma F2R_succ (m e : Z) : F2R (m + 1) e = (F2R m e + bpow e)%R.
Proof. unfold F2R. rewrite plus_IZR. lra. Qed.

(** ** Binary digits *)

Lemma digits_spec (p : positive) :
  2 ^ (Zpos (digits2_pos p) - 1) <= Zpos p < 2 ^ Zpos (digits2_pos p).
Proof.
rewrite digits2_pos_size.
pose proof (Pos.size_gt p) as Hg. pose proof (Pos.size_le p) as Hl.
split.
- assert (H : 2 * 2 ^ (Zpos (Pos.size p) - 1) <= 2 * Zpos p); [| lia].
  rewrite <- Z.pow_succ_r by lia.
  replace (Z.succ (Zpos (Pos.size p) - 1)) with (Zpos (Pos.size p)) by lia.
  rewrite <- Pos2Z.inj_pow. change (2 * Zpos p) with (Zpos p~0).
  now apply Pos2Z.pos_le_pos.
- rewrite <- Pos2Z.inj_pow. now apply Pos2Z.pos_lt_pos.
Qed.

Lemma Zdigits2_spec (m : Z) :
  0 < m -> 2 ^ (Zdigits2 m - 1) <= m < 2 ^ Zdigits2 m.
Proof.
destruct m as [| p | p]; intros H; try lia. apply digits_spec.
Qed.

Lemma Zdigits2_le (m k : Z) : 0 <= m -> 0 <= k -> m < 2 ^ k -> Zdigits2 m <= k.
Proof.
intros Hm Hk H. destruct m as [| p | p]; try lia; [simpl; lia |].
now apply digits_bound.
Qed.

Lemma Zdigits2_ge (m k : Z) : 0 <= k -> 2 ^ k <= m -> k < Zdigits2 m.
Proof.
intros Hk H.
assert (Hm : 0 < m) by (pose proof (Z.pow_pos_nonneg 2 k); lia).
destruct (Zdigits2_spec m Hm) as [_ Hu].
destruct (Z_lt_le_dec k (Zdigits2 m)) as [|Hle]; [assumption | exfalso].
assert (2 ^ Zdigits2 m <= 2 ^ k).
{ apply Z.pow_le_mono_r; [lia |]. lia. }
lia.
Qed.

(** ** Truncation by right shifts *)

Lemma shr_1_m (mrs : shr_record) :
  0 <= shr_m mrs -> shr_m (shr_1 mrs) = shr_m mrs / 2.
Proof.
destruct mrs as [m r s]; cbn [shr_m]. intros H.
destruct m as [| p | p]; try lia; [reflexivity |].
destruct p as [p | p |]; cbn [shr_1 shr_m].
- rewrite Pos2Z.inj_xI. apply Z.div_unique with (r := 1); lia.
- rewrite Pos2Z.inj_xO. apply Z.div_unique with (r := 0); lia.
- reflexivity.
Qed.

Lemma pow2_xO (p : positive) : 2 ^ Zpos p~0 = 2 ^ Zpos p * 2 ^ Zpos p.
Proof. rewrite Pos2Z.inj_xO, <- Z.pow_add_r by lia. f_equal. lia. Qed.

Lemma pow2_xI (p : positive) : 2 ^ Zpos p~1 = 2 * (2 ^ Zpos p * 2 ^ Zpos p).
Proof.
rewrite Pos2Z.inj_xI, Z.pow_add_r, Z.pow_1_r by lia.
replace (2 * Zpos p) with (Zpos p~0) by lia. rewrite pow2_xO. ring.
Qed.

Lemma iter_shr_m (p : positive) : forall mrs : shr_record,
  0 <= shr_m mrs ->
  shr_m (SpecFloat.iter_pos shr_1 p mrs) = shr_m mrs / 2 ^ Zpos p.
Proof.
induction p as [p IH | p IH |]; intros mrs H; cbn [SpecFloat.iter_pos].
- assert (Hp : 0 < 2 ^ Zpos p) by (apply Z.pow_pos_nonneg; lia).
  rewrite IH, IH, shr_1_m by auto using iter_shr_1_nonneg, shr_1_nonneg.
  rewrite pow2_xI, !Z.div_div by lia. reflexivity.
- assert (Hp : 0 < 2 ^ Zpos p) by (apply Z.pow_pos_nonneg; lia).
  rewrite IH, IH by auto using iter_shr_1_nonneg.
  rewrite pow2_xO, !Z.div_div by lia. reflexivity.
- rewrite shr_1_m by exact H. reflexivity.
Qed.

Lemma shr_record_of_loc_m (m : Z) (l : location) :
  shr_m (shr_record_of_loc m l) = m.
Proof. destruct l as [| c]; [| destruct c]; reflexivity. Qed.

(** One truncation step: the new exponent and the new mantissa; nothing
    changes when the exponent stays. *)
Lemma shr_fexp_spec (m e : Z) (l : location) :
  0 <= m ->
  let r := shr_fexp prec emax m e l in
  let e1 := Z.max e (Z.max (Zdigits2 m + e - 53) (-1074)) in
  snd r = e1 /\ shr_m (fst r) = m / 2 ^ (e1 - e) /\
  (e1 = e -> fst r = shr_record_of_loc m l).
Proof.
intros H r e1. subst r e1. unfold shr_fexp, shr.
change (fexp prec emax (Zdigits2 m + e))
  with (Z.max (Zdigits2 m + e - 53) (-1074)).
destruct (Z.max (Zdigits2 m + e - 53) (-1074) - e) as [| p | p] eqn:En;
  cbn [fst snd].
- replace (Z.max e _) with e by lia. rewrite Z.sub_diag, Z.div_1_r.
  split; [reflexivity |]. split; [apply shr_record_of_loc_m | reflexivity].
- replace (Z.max e _) with (e + Zpos p) by lia.
  split; [reflexivity |]. split; [| lia].
  rewrite iter_shr_m, shr_record_of_loc_m by (rewrite shr_record_of_loc_m; lia).
  f_equal. f_equal. lia.
- replace (Z.max e _) with e by lia. rewrite Z.sub_diag, Z.div_1_r.
  split; [reflexivity |]. split; [apply shr_record_of_loc_m | reflexivity].
Qed.

(** ** Rounding to nearest *)

Lemma trunc_lt (m e : Z) :
  0 <= m ->
  m / 2 ^ (Z.max e (Z.max (Zdigits2 m + e - 53) (-1074)) - e) < 2 ^ 53.
Proof.
intros H. set (k := Z.max e (Z.max (Zdigits2 m + e - 53) (-1074)) - e).
assert (Hk : 0 <= k) by (subst k; lia).
assert (Hp : 0 < 2 ^ k) by (apply Z.pow_pos_nonneg; lia).
apply Z.div_lt_upper_bound; [exact Hp |].
rewrite <- Z.pow_add_r by lia.
destruct (Z.eq_dec m 0) as [-> | Hm].
- apply Z.pow_pos_nonneg; lia.
- destruct (Zdigits2_spec m ltac:(lia)) as [_ Hu].
  eapply Z.lt_le_trans; [exact Hu |].
  apply Z.pow_le_mono_r; [lia |]. subst k. lia.
Qed.

Lemma round_nearest_even_cases (m : Z) (l : location) :
  round_nearest_even m l = m \/ round_nearest_even m l = m + 1.
Proof.
unfold round_nearest_even.
destruct l as [| c]; [| destruct c]; try destruct (Z.even m); auto.
Qed.

(** The result of a rounding: the mantissa is truncated to the exponent
    [e1], then kept or incremented. *)
Lemma binary_round_aux_spec (s : bool) (m e : Z) (l : location) :
  0 <= m ->
  let e1 := Z.max e (Z.max (Zdigits2 m + e - 53) (-1074)) in
  let m1 := m / 2 ^ (e1 - e) in
  exists m2 : Z,
    (m2 = m1 \/ m2 = m1 + 1) /\
    (l = loc_Exact -> e1 = e -> m2 = m1) /\
    match binary_round_aux prec emax s m e l with
    | S754_zero s' => s' = s /\ m2 = 0
    | S754_infinity s' => s' = s /\ 0 < m2 /\ 970 < e1
    | S754_finite s' m3 e2 =>
        s' = s /\ e1 <= e2 /\ Zpos m3 * 2 ^ (e2 - e1) = m2 /\ e2 <= 971
    | S754_nan => False
    end.
Proof.
intros H e1 m1. unfold binary_round_aux.
destruct (shr_fexp_spec m e l H) as (E1 & M1 & U1).
fold e1 in E1, M1, U1. fold m1 in M1.
pose proof (trunc_lt m e H) as Hlt. fold e1 in Hlt. fold m1 in Hlt.
assert (Hm1 : 0 <= m1) by (subst m1; apply Z.div_pos; [lia |];
                            apply Z.pow_pos_nonneg; lia).
destruct (shr_fexp prec emax m e l) as [mrs1 e1']. cbn [fst snd] in E1, M1, U1.
subst e1'. rewrite M1.
set (m2 := round_nearest_even m1 (loc_of_shr_record mrs1)).
assert (Hc : m2 = m1 \/ m2 = m1 + 1) by apply round_nearest_even_cases.
exists m2. split; [exact Hc |]. split.
{ intros -> Ee. subst m2. rewrite (U1 Ee). reflexivity. }
assert (Hm2 : 0 <= m2) by lia.
destruct (shr_fexp_spec m2 e1 loc_Exact Hm2) as (E2 & M2 & _).
destruct (shr_fexp prec emax m2 e1 loc_Exact) as [mrs2 e2].
cbn [fst snd] in E2, M2. rewrite <- E2 in M2.
assert (He1 : -1074 <= e1) by (subst e1; lia).
assert (Hcase : m2 < 2 ^ 53 \/ m2 = 2 ^ 53) by lia.
assert (Hval : e1 <= e2 <= e1 + 1 /\ shr_m mrs2 * 2 ^ (e2 - e1) = m2).
{ destruct Hcase as [Hs | Hb].
  - assert (Hd : Zdigits2 m2 <= 53) by (apply Zdigits2_le; lia).
    assert (Ee : e2 = e1) by lia. clear E2. subst e2.
    rewrite Z.sub_diag in M2 |- *. rewrite Z.div_1_r in M2.
    split; [lia |]. rewrite M2. change (2 ^ 0) with 1. lia.
  - rewrite Hb in E2, M2. change (Zdigits2 (2 ^ 53)) with 54 in E2.
    assert (Ee : e2 = e1 + 1) by lia. clear E2. subst e2.
    replace (e1 + 1 - e1) with 1 in M2 |- * by lia.
    split; [lia |]. rewrite M2, Hb. reflexivity. }
destruct Hval as [Hle Hval].
destruct (shr_m mrs2) as [| q | q] eqn:Eq.
- split; [reflexivity |]. rewrite <- Hval. lia.
- change (emax - prec) with 971.
  destruct (Z.leb_spec e2 971) as [Hb | Hb].
  + repeat split; try assumption; lia.
  + split; [reflexivity |]. split; [| lia]. rewrite <- Hval.
    assert (0 < 2 ^ (e2 - e1)) by (apply Z.pow_pos_nonneg; lia). lia.
- assert (0 <= 2 ^ (e2 - e1)) by (apply Z.pow_nonneg; lia). nia.
Qed.

(** The sign given to a rounding only shows in the sign of the result. *)
Lemma binary_round_aux_abs (s : bool) (m e : Z) (l : location) :
  SFabs (binary_round_aux prec emax s m e l)
  = SFabs (binary_round_aux prec emax false m e l).
Proof.
unfold binary_round_aux.
destruct (shr_fexp prec emax m e l) as [mrs1 e1].
destruct (shr_fexp prec emax _ e1 loc_Exact) as [mrs2 e2].
destruct (shr_m mrs2); try reflexivity.
now destruct (e2 <=? emax - prec).
Qed.

(** ** The real value of a float, and the error of a rounding *)

Definition B2R (x : spec_float) : R :=
  match x with
  | S754_finite s m e => F2R (cond_Zopp s (Zpos m)) e
  | _ => 0%R
  end.

(** The unit roundoff of the bounds below, 2^-52. *)
Definition u : R := bpow (-52).

Lemma u_val : (u = / 4503599627370496)%R.
Proof.
unfold u, bpow. change (-52) with (- (52)). rewrite powerRZ_neg'.
f_equal. change (powerRZ 2 52) with (bpow 52). rewrite bpow_IZR by lia.
reflexivity.
Qed.

Lemma u_bounds : (0 < u < / 1000000000000000)%R.
Proof. rewrite u_val. lra. Qed.

(** Rounding [V], known to lie between [F2R m e] and [F2R (m + 1) e]: the
    result lies between the two multiples of [bpow e1] around [V]. *)
Lemma round_bounds (s : bool) (m e : Z) (l : location) (V : R) :
  0 <= m -> (F2R m e <= V < F2R (m + 1) e)%R ->
  let e1 := Z.max e (Z.max (Zdigits2 m + e - 53) (-1074)) in
  exists m1 : Z,
    0 <= m1 < 2 ^ 53 /\
    (0 < m -> e1 = Zdigits2 m + e - 53 -> 2 ^ 52 <= m1) /\
    (F2R m1 e1 <= V < F2R (m1 + 1) e1)%R /\
    match binary_round_aux prec emax s m e l with
    | S754_zero s' => s' = s /\ m1 = 0
    | S754_infinity s' => s' = s /\ 970 < e1
    | S754_finite s' m3 e2 =>
        s' = s /\ e1 <= e2 <= 971 /\
        (F2R m1 e1 <= F2R (Zpos m3) e2 <= F2R (m1 + 1) e1)%R /\
        (l = loc_Exact -> e1 = e -> F2R (Zpos m3) e2 = F2R m e)
    | S754_nan => False
    end.
Proof.
intros H HV e1.
destruct (binary_round_aux_spec s m e l H) as (m2 & Hc & Hex & Hr).
fold e1 in Hc, Hex, Hr.
set (k := e1 - e) in *.
assert (Hk : 0 <= k) by (subst k e1; lia).
assert (Hp : 0 < 2 ^ k) by (apply Z.pow_pos_nonneg; lia).
set (m1 := m / 2 ^ k) in *.
exists m1.
assert (Hm1 : 0 <= m1) by (subst m1; apply Z.div_pos; lia).
assert (Hlt : m1 < 2 ^ 53) by (apply trunc_lt; exact H).
assert (Hlo : m1 * 2 ^ k <= m) by (subst m1; rewrite Z.mul_comm;
                                    apply Z.mul_div_le; lia).
assert (Hhi : m + 1 <= (m1 + 1) * 2 ^ k).
{ subst m1. pose proof (Z.mul_succ_div_gt m (2 ^ k) Hp). lia. }
assert (Ee : e1 = e + k) by (subst k; lia).
assert (V1 : (F2R m1 e1 <= F2R m e)%R).
{ rewrite Ee, <- F2R_shift by lia. now apply F2R_le. }
assert (V2 : (F2R (m + 1) e <= F2R (m1 + 1) e1)%R).
{ rewrite Ee, <- F2R_shift by lia. now apply F2R_le. }
split; [lia |]. split.
{ intros Hm Hd.
  destruct (Zdigits2_spec m Hm) as [Hl _].
  subst m1. apply Z.div_le_lower_bound; [lia |].
  rewrite <- Z.pow_add_r by lia.
  eapply Z.le_trans; [| exact Hl]. apply Z.pow_le_mono_r; lia. }
split; [lra |].
destruct (binary_round_aux prec emax s m e l) as [s' | s' | | s' m3 e2].
- destruct Hr as [-> Hz]. split; [reflexivity | lia].
- destruct Hr as (-> & _ & He). split; [reflexivity | exact He].
- exact Hr.
- destruct Hr as (-> & Hle & Hv & Hb). split; [reflexivity |].
  split; [lia |].
  assert (Ev : F2R (Zpos m3) e2 = F2R m2 e1).
  { replace e2 with (e1 + (e2 - e1)) by lia.
    rewrite <- F2R_shift by lia. now rewrite Hv. }
  rewrite Ev. split.
  + destruct Hc as [-> | ->]; split; apply F2R_le; lia.
  + intros Hl He. rewrite (Hex Hl He). subst m1.
    replace k with 0 by lia. now rewrite Z.div_1_r, He.
Qed.

(** ** Addition *)

Lemma iter_xO_val (m d : positive) :
  Zpos (Pos.iter xO m d) = Zpos m * 2 ^ Zpos d.
Proof.
induction d as [| d IH] using Pos.peano_ind.
- simpl. lia.
- rewrite Pos.iter_succ, Pos2Z.inj_xO, IH, Pos2Z.inj_succ, Z.pow_succ_r by lia.
  ring.
Qed.

Lemma shl_align_spec (m : positive) (e e' : Z) :
  let r := shl_align m e e' in
  snd r = Z.min e e' /\
  Zpos (fst r) = Zpos m * 2 ^ (e - snd r) /\
  Zpos (digits2_pos (fst r)) + snd r = Zpos (digits2_pos m) + e.
Proof.
unfold shl_align. destruct (e' - e) as [| d | d] eqn:E; cbn [fst snd].
- replace (Z.min e e') with e by lia. rewrite Z.sub_diag. lia.
- replace (Z.min e e') with e by lia. rewrite Z.sub_diag. lia.
- replace (Z.min e e') with e' by lia.
  rewrite iter_xO_val, digits_iter_xO.
  replace (e - e') with (Zpos d) by lia. lia.
Qed.

(** Rounding a positive integer multiple of a power of two that is not
    below the smallest one: the relative error is at most [u]. *)
Lemma binary_round_bounds (s : bool) (p : positive) (ez : Z) :
  -1074 <= ez ->
  match binary_round prec emax s p ez with
  | S754_infinity s' => s' = s /\ (bpow 1023 <= F2R (Zpos p) ez)%R
  | S754_finite s' m3 e2 =>
      s' = s /\ e2 <= 971 /\
      (F2R (Zpos p) ez * (1 - u) <= F2R (Zpos m3) e2
       <= F2R (Zpos p) ez * (1 + u))%R
  | _ => False
  end.
Proof.
intros Hez. unfold binary_round.
change (fexp prec emax (Zpos (digits2_pos p) + ez))
  with (Z.max (Zpos (digits2_pos p) + ez - 53) (-1074)).
set (F := Z.max (Zpos (digits2_pos p) + ez - 53) (-1074)).
destruct (shl_align_spec p ez F) as (E1 & E2 & E3).
destruct (shl_align p ez F) as [mz ez']. cbn [fst snd] in E1, E2, E3.
set (V := F2R (Zpos p) ez).
assert (EV : V = F2R (Zpos mz) ez').
{ subst V. rewrite E2, F2R_shift by lia. f_equal. lia. }
assert (HV : (F2R (Zpos mz) ez' <= V < F2R (Zpos mz + 1) ez')%R).
{ rewrite <- EV, F2R_succ, <- EV. pose proof (bpow_pos ez'). lra. }
destruct (round_bounds s (Zpos mz) ez' loc_Exact V ltac:(lia) HV)
  as (m1 & Hm1 & Hbig & HL & Hr).
cbn [Zdigits2] in Hbig, Hr, HL. rewrite E3 in Hbig, Hr, HL.
fold F in Hbig, Hr, HL.
replace (Z.max ez' F) with F in * by lia.
pose proof u_bounds as Hu. pose proof (bpow_pos F) as HF.
assert (HVpos : (bpow ez' <= V)%R).
{ rewrite EV. unfold F2R. assert (1 <= IZR (Zpos mz))%R by (apply IZR_le; lia).
  pose proof (bpow_pos ez'). nra. }
assert (Hinf : 970 < F -> (bpow 1023 <= V)%R).
{ intros HF'. subst V. destruct (digits_spec p) as [Hd _].
  apply IZR_le in Hd. rewrite <- bpow_IZR in Hd by lia.
  unfold F2R. eapply Rle_trans; [apply (bpow_le 1023
     (Zpos (digits2_pos p) - 1 + ez)); lia |].
  rewrite bpow_add. pose proof (bpow_pos ez). nra. }
destruct (Z_le_gt_dec F ez) as [Hno | Hshift].
- (* no shift: the result is exact *)
  assert (Ee : F = ez') by lia.
  destruct (binary_round_aux prec emax s (Zpos mz) ez' loc_Exact)
    as [s' | s' | | s' m3 e2].
  + destruct Hr as [_ Hz]. subst m1. rewrite Ee in HL.
    unfold F2R in HL. simpl in HL. lra.
  + destruct Hr as [-> He]. split; [reflexivity | auto].
  + exact Hr.
  + destruct Hr as (-> & Hb & _ & Hx). split; [reflexivity |].
    split; [lia |]. rewrite (Hx eq_refl Ee), <- EV.
    assert (0 < V)%R by (pose proof (bpow_pos ez'); lra). nra.
- (* a shift: the kept mantissa has 53 digits *)
  assert (Ee : F = Zpos (digits2_pos p) + ez - 53) by lia.
  assert (Hbig' : 2 ^ 52 <= m1) by (apply Hbig; lia).
  assert (HL1 : (bpow F <= F2R m1 F * u)%R).
  { unfold F2R. apply IZR_le in Hbig'. rewrite u_val.
    change (IZR (2 ^ 52)) with 4503599627370496%R in Hbig'. nra. }
  rewrite F2R_succ in HL.
  destruct (binary_round_aux prec emax s (Zpos mz) ez' loc_Exact)
    as [s' | s' | | s' m3 e2].
  + destruct Hr as [_ Hz]. lia.
  + destruct Hr as [-> He]. split; [reflexivity | auto].
  + exact Hr.
  + destruct Hr as (-> & Hb & Hv & _). split; [reflexivity |].
    split; [lia |]. rewrite F2R_succ in Hv. nra.
Qed.

Definition nonneg (x : spec_float) : bool :=
  match x with
  | S754_zero _ => true
  | S754_infinity s => negb s
  | S754_finite s _ _ => negb s
  | S754_nan => false
  end.

Lemma valid_exponent (s : bool) (m : positive) (e : Z) :
  valid_binary (S754_finite s m e) = true ->
  -1074 <= e <= 971 /\ Zpos (digits2_pos m) <= 53 /\
  (-1074 < e -> Zpos (digits2_pos m) = 53).
Proof.
cbn [valid_binary]. unfold bounded, canonical_mantissa.
change (fexp prec emax (Zpos (digits2_pos m) + e))
  with (Z.max (Zpos (digits2_pos m) + e - 53) (-1074)).
change (emax - prec) with 971.
intros H. apply andb_true_iff in H. destruct H as [H1 H2].
apply Z.eqb_eq in H1. apply Z.leb_le in H2.
change (Z.max (Zpos (digits2_pos m) + e - 53) (-1074) = e) in H1.
change (e <= 971) in H2. lia.
Qed.

Lemma B2R_nonneg (x : spec_float) : nonneg x = true -> (0 <= B2R x)%R.
Proof.
destruct x as [s | s | | s m e]; cbn [nonneg B2R]; try lra.
destruct s; [discriminate |]. intros _. cbn [cond_Zopp]. unfold F2R.
assert (0 < IZR (Zpos m))%R by (apply IZR_lt; lia).
pose proof (bpow_pos e). nra.
Qed.

(** The sum of two valid floats that are not negative is not negative;
    when it is finite, so are both terms, and the sum is rounded with a
    relative error of at most [u]. *)
Lemma SFadd_nonneg (x y : spec_float) :
  valid_binary x = true -> valid_binary y = true ->
  nonneg x = true -> nonneg y = true ->
  nonneg (SF64add x y) = true /\
  (SF64add x y = S754_infinity false \/
   (sf_finite x = true /\ sf_finite y = true /\
    sf_finite (SF64add x y) = true /\
    ((B2R x + B2R y) * (1 - u) <= B2R (SF64add x y))%R)).
Proof.
intros Vx Vy Nx Ny. pose proof u_bounds as Hu.
destruct x as [sx | sx | | sx mx ex]; try discriminate;
  destruct y as [sy | sy | | sy my ey]; try discriminate;
  try (destruct sx; [discriminate |]); try (destruct sy; [discriminate |]);
  cbn [SF64add SFadd nonneg negb];
  try (split; [reflexivity | now left]).
- (* zero, zero *)
  destruct sx, sy; split; try reflexivity; right; cbn [B2R sf_finite];
    repeat split; lra.
- (* zero, finite *)
  split; [reflexivity |]. right. cbn [B2R sf_finite cond_Zopp].
  repeat split.
  assert (0 <= F2R (Zpos my) ey)%R
    by (apply (B2R_nonneg (S754_finite false my ey)); reflexivity).
  nra.
- (* finite, zero *)
  split; [reflexivity |]. right. cbn [B2R sf_finite cond_Zopp].
  repeat split.
  assert (0 <= F2R (Zpos mx) ex)%R
    by (apply (B2R_nonneg (S754_finite false mx ex)); reflexivity).
  nra.
- (* finite, finite *)
  destruct (valid_exponent _ _ _ Vx) as (Hex & _).
  destruct (valid_exponent _ _ _ Vy) as (Hey & _).
  set (ez := Z.min ex ey).
  destruct (shl_align_spec mx ex ez) as (X1 & X2 & _).
  destruct (shl_align_spec my ey ez) as (Y1 & Y2 & _).
  cbn [cond_Zopp].
  rewrite X2, Y2, X1, Y1.
  replace (Z.min ex ez) with ez by (subst ez; lia).
  replace (Z.min ey ez) with ez by (subst ez; lia).
  assert (Px : 0 < Zpos mx * 2 ^ (ex - ez))
    by (apply Z.mul_pos_pos; [lia | apply Z.pow_pos_nonneg; subst ez; lia]).
  assert (Py : 0 < Zpos my * 2 ^ (ey - ez))
    by (apply Z.mul_pos_pos; [lia | apply Z.pow_pos_nonneg; subst ez; lia]).
  destruct (Zpos mx * 2 ^ (ex - ez) + Zpos my * 2 ^ (ey - ez))
    as [| p | p] eqn:Ep; try lia.
  cbn [binary_normalize].
  assert (EV : F2R (Zpos p) ez
               = (F2R (Zpos mx) ex + F2R (Zpos my) ey)%R).
  { rewrite <- Ep. unfold F2R at 1. rewrite plus_IZR.
    rewrite Rmult_plus_distr_r.
    change (IZR (Zpos mx * 2 ^ (ex - ez)) * bpow ez)%R
      with (F2R (Zpos mx * 2 ^ (ex - ez)) ez).
    change (IZR (Zpos my * 2 ^ (ey - ez)) * bpow ez)%R
      with (F2R (Zpos my * 2 ^ (ey - ez)) ez).
    rewrite !F2R_shift by (subst ez; lia).
    f_equal; f_equal; lia. }
  pose proof (binary_round_bounds false p ez ltac:(subst ez; lia)) as Hr.
  destruct (binary_round prec emax false p ez) as [s' | s' | | s' m3 e2];
    try contradiction.
  + destruct Hr as [-> _]. split; [reflexivity | now left].
  + destruct Hr as (-> & Hb & Hv). split; [reflexivity |]. right.
    cbn [B2R sf_finite cond_Zopp]. rewrite <- EV. repeat split. apply Hv.
Qed.

(** ** Multiplication and division *)

(** A rounding that does not vanish keeps at least half of the value. *)
Lemma round_lower (s : bool) (m e : Z) (l : location) (V : R) :
  0 <= m -> (F2R m e <= V < F2R (m + 1) e)%R ->
  match binary_round_aux prec emax s m e l with
  | S754_finite _ m3 e2 => (V < 2 * F2R (Zpos m3) e2)%R
  | S754_nan => False
  | _ => True
  end.
Proof.
intros H HV.
destruct (round_bounds s m e l V H HV) as (m1 & Hm1 & _ & HL & Hr).
set (e1 := Z.max e (Z.max (Zdigits2 m + e - 53) (-1074))) in *.
destruct (binary_round_aux prec emax s m e l) as [s' | s' | | s' m3 e2];
  auto.
destruct Hr as (_ & He & Hv & _).
rewrite F2R_succ in HL, Hv. pose proof (bpow_pos e1) as Hp.
destruct (Z.eq_dec m1 0) as [-> | Hne].
- assert (bpow e1 <= F2R (Zpos m3) e2)%R.
  { unfold F2R. assert (1 <= IZR (Zpos m3))%R by (apply IZR_le; lia).
    pose proof (bpow_le e1 e2 ltac:(lia)). pose proof (bpow_pos e2). nra. }
  unfold F2R in HL. simpl in HL. lra.
- assert (bpow e1 <= F2R m1 e1)%R.
  { unfold F2R. assert (1 <= IZR m1)%R by (apply IZR_le; lia). nra. }
  lra.
Qed.

Lemma F2R_mul (m1 e1 m2 e2 : Z) :
  (F2R m1 e1 * F2R m2 e2)%R = F2R (m1 * m2) (e1 + e2).
Proof. unfold F2R. rewrite mult_IZR, bpow_add. ring. Qed.

Lemma F2R_pos (m : positive) (e : Z) : (0 < F2R (Zpos m) e)%R.
Proof.
unfold F2R. assert (0 < IZR (Zpos m))%R by (apply IZR_lt; lia).
pose proof (bpow_pos e). nra.
Qed.

Lemma F2R_ge_bpow (m : positive) (e : Z) : (bpow e <= F2R (Zpos m) e)%R.
Proof.
unfold F2R. assert (1 <= IZR (Zpos m))%R by (apply IZR_le; lia).
pose proof (bpow_pos e). nra.
Qed.

(** The magnitude of a finite float. *)
Definition mag (x : spec_float) : R :=
  match x with
  | S754_finite _ m e => F2R (Zpos m) e
  | _ => 0%R
  end.

(** The square of a finite float is +0 (on underflow), +infinity (on
    overflow) or a positive float that keeps at least half of the exact
    square. *)
Lemma SFmul_square (s : bool) (m : positive) (e : Z) :
  match SF64mul (S754_finite s m e) (S754_finite s m e) with
  | S754_zero s' => s' = false
  | S754_infinity s' => s' = false
  | S754_finite s' m3 e2 =>
      s' = false /\
      (F2R (Zpos m) e * F2R (Zpos m) e < 2 * F2R (Zpos m3) e2)%R
  | S754_nan => False
  end.
Proof.
cbn [SF64mul SFmul]. replace (xorb s s) with false by (now destruct s).
set (V := (F2R (Zpos m) e * F2R (Zpos m) e)%R).
assert (HV : (F2R (Zpos (m * m)) (e + e) <= V
              < F2R (Zpos (m * m) + 1) (e + e))%R).
{ subst V. rewrite F2R_mul, F2R_succ. rewrite Pos2Z.inj_mul.
  pose proof (bpow_pos (e + e)). lra. }
pose proof (round_lower false (Zpos (m * m)) (e + e) loc_Exact V
              ltac:(lia) HV) as Hl.
destruct (round_bounds false (Zpos (m * m)) (e + e) loc_Exact V
            ltac:(lia) HV) as (m1 & _ & _ & _ & Hr).
destruct (binary_round_aux prec emax false (Zpos (m * m)) (e + e) loc_Exact)
  as [s' | s' | | s' m3 e2]; tauto.
Qed.

(** The quotient computed by the division, before rounding. *)
Lemma div_core_spec (mx my : positive) (ex ey : Z) :
  let r := SFdiv_core_binary prec emax (Zpos mx) ex (Zpos my) ey in
  let q := fst (fst r) in
  let e' := snd (fst r) in
  let D := Zpos (digits2_pos mx) + ex - (Zpos (digits2_pos my) + ey) in
  e' = Z.min (Z.max (D - 53) (-1074)) (ex - ey) /\
  q = Zpos mx * 2 ^ (ex - ey - e') / Zpos my /\
  0 <= q /\
  (F2R q e' <= F2R (Zpos mx) ex / F2R (Zpos my) ey < F2R (q + 1) e')%R.
Proof.
intros r q e' D. subst r q e'. unfold SFdiv_core_binary.
cbn [Zdigits2].
change (fexp prec emax (Zpos (digits2_pos mx) + ex
                        - (Zpos (digits2_pos my) + ey)))
  with (Z.max (D - 53) (-1074)).
set (e' := Z.min (Z.max (D - 53) (-1074)) (ex - ey)).
remember (ex - ey - e') as sh eqn:Esh.
assert (Hs : 0 <= sh) by (subst sh e'; lia).
set (m' := match sh with
           | 0 => Zpos mx
           | Zpos _ => Z.shiftl (Zpos mx) sh
           | Zneg _ => 0
           end).
assert (Em : m' = Zpos mx * 2 ^ sh).
{ subst m'. clear Esh. destruct sh as [| p | p]; try lia.
  rewrite Z.shiftl_mul_pow2 by lia. reflexivity. }
assert (Hm' : 0 < m').
{ rewrite Em. apply Z.mul_pos_pos; [lia | apply Z.pow_pos_nonneg; lia]. }
pose proof (Z.div_mod m' (Zpos my) ltac:(lia)) as Hdm.
pose proof (Z.mod_pos_bound m' (Zpos my) ltac:(lia)) as Hmod.
unfold Z.div, Z.modulo in Hdm, Hmod.
assert (Eq : fst (Z.div_eucl m' (Zpos my)) = m' / Zpos my) by reflexivity.
destruct (Z.div_eucl m' (Zpos my)) as [q r]. cbn [fst snd] in *.
split; [reflexivity |]. split; [rewrite Eq, Em, Esh; reflexivity |].
assert (Hq : 0 <= q) by nia.
split; [exact Hq |].
pose proof (F2R_pos my ey) as Dpos.
assert (EN : F2R (Zpos mx) ex = F2R m' (e' + ey)).
{ rewrite Em, F2R_shift by lia. f_equal. lia. }
assert (Lo : (F2R q e' * F2R (Zpos my) ey <= F2R (Zpos mx) ex)%R).
{ rewrite F2R_mul, EN. apply F2R_le. nia. }
assert (Hi : (F2R (Zpos mx) ex < F2R (q + 1) e' * F2R (Zpos my) ey)%R).
{ rewrite F2R_mul, EN. apply F2R_lt. nia. }
split.
- apply Rmult_le_reg_r with (F2R (Zpos my) ey); [exact Dpos |].
  unfold Rdiv. rewrite Rmult_assoc, Rinv_l by lra. lra.
- apply Rmult_lt_reg_r with (F2R (Zpos my) ey); [exact Dpos |].
  unfold Rdiv. rewrite Rmult_assoc, Rinv_l by lra. lra.
Qed.

Lemma F2R_digits (m : positive) (e : Z) :
  (bpow (Zpos (digits2_pos m) - 1 + e) <= F2R (Zpos m) e
   < bpow (Zpos (digits2_pos m) + e))%R.
Proof.
destruct (digits_spec m) as [Hl Hu].
apply IZR_le in Hl. apply IZR_lt in Hu.
rewrite <- bpow_IZR in Hl, Hu by lia.
rewrite !bpow_add. unfold F2R. pose proof (bpow_pos e). nra.
Qed.

Lemma bpow_lt_inv (a b : Z) : (bpow a < bpow b)%R -> a < b.
Proof.
intros H. destruct (Z_lt_le_dec a b) as [| Hle]; [assumption | exfalso].
pose proof (bpow_le b a Hle). lra.
Qed.

Lemma bpow_m1074_le (m : positive) (e : Z) :
  -1074 <= e -> (bpow (-1074) <= F2R (Zpos m) e)%R.
Proof.
intros H. pose proof (bpow_le (-1074) e H). pose proof (F2R_ge_bpow m e). lra.
Qed.

(** A quotient of positive floats that is not below the smallest positive
    float does not vanish, and keeps at least half of the exact
    quotient. *)
Lemma SFdiv_lower (mx my : positive) (ex ey : Z) :
  valid_binary (S754_finite false mx ex) = true ->
  (bpow (-1074) <= F2R (Zpos mx) ex / F2R (Zpos my) ey)%R ->
  match SF64div (S754_finite false mx ex) (S754_finite false my ey) with
  | S754_infinity s' => s' = false
  | S754_finite s' m3 e2 =>
      s' = false /\
      (F2R (Zpos mx) ex / F2R (Zpos my) ey < 2 * F2R (Zpos m3) e2)%R
  | _ => False
  end.
Proof.
intros Vx Hmin. destruct (valid_exponent _ _ _ Vx) as (_ & Hdx & _).
cbn [SF64div SFdiv xorb].
destruct (div_core_spec mx my ex ey) as (E' & Eq & Hq & HV).
destruct (SFdiv_core_binary prec emax (Zpos mx) ex (Zpos my) ey)
  as [[q e'] l]. cbn [fst snd] in E', Eq, Hq, HV.
set (V := (F2R (Zpos mx) ex / F2R (Zpos my) ey)%R) in *.
pose proof (round_lower false q e' l V Hq HV) as Hl.
destruct (round_bounds false q e' l V Hq HV) as (m1 & _ & _ & HL & Hr).
set (e1 := Z.max e' (Z.max (Zdigits2 q + e' - 53) (-1074))) in *.
destruct (binary_round_aux prec emax false q e' l)
  as [s' | s' | | s' m3 e2]; try tauto.
exfalso. destruct Hr as [_ Hz]. subst m1.
assert (Hlt : (V < bpow e1)%R)
  by (unfold F2R in HL; simpl in HL; lra).
assert (Hge : (bpow e1 <= V)%R); [| lra].
destruct (Z.eq_dec e1 (-1074)) as [-> | Hne]; [exact Hmin |].
destruct (Z.eq_dec q 0) as [Hq0 | Hq0].
- exfalso.
  assert (He1 : e1 = e').
  { subst e1. rewrite Hq0 in *. cbn [Zdigits2] in *. lia. }
  set (D := Zpos (digits2_pos mx) + ex - (Zpos (digits2_pos my) + ey)) in *.
  destruct (Z_le_gt_dec (Z.max (D - 53) (-1074)) (ex - ey)) as [Hc | Hc].
  + assert (Ee : e' = D - 53) by lia.
    assert (Hsh : ex - ey - e'
                  = 53 - Zpos (digits2_pos mx) + Zpos (digits2_pos my))
      by (subst D; lia).
    destruct (digits_spec mx) as [Hlx _]. destruct (digits_spec my) as [_ Huy].
    assert (Hbig : 2 ^ 52 <= Zpos mx * 2 ^ (ex - ey - e') / Zpos my).
    { apply Z.div_le_lower_bound; [lia |].
      rewrite Hsh.
      assert (H1 : 2 ^ (Zpos (digits2_pos mx) - 1)
                   * 2 ^ (53 - Zpos (digits2_pos mx) + Zpos (digits2_pos my))
                   <= Zpos mx
                      * 2 ^ (53 - Zpos (digits2_pos mx)
                             + Zpos (digits2_pos my))).
      { apply Z.mul_le_mono_nonneg_r; [apply Z.pow_nonneg; lia | exact Hlx]. }
      rewrite <- Z.pow_add_r in H1 by lia.
      replace (Zpos (digits2_pos mx) - 1
               + (53 - Zpos (digits2_pos mx) + Zpos (digits2_pos my)))
        with (52 + Zpos (digits2_pos my)) in H1 by lia.
      rewrite Z.pow_add_r in H1 by lia. nia. }
    lia.
  + subst D. lia.
- assert (Hqp : 0 < q) by lia.
  destruct q as [| qp | qp]; try lia.
  pose proof (F2R_digits qp e') as [Hd _].
  pose proof (F2R_ge_bpow qp e') as Hb.
  cbn [Zdigits2] in e1.
  assert (Hc : e1 = e' \/ e1 <= Zpos (digits2_pos qp) - 1 + e')
    by (subst e1; lia).
  destruct Hc as [-> | Hc]; [lra |].
  pose proof (bpow_le _ _ Hc). lra.
Qed.

(** A quotient of magnitude at most 2.9 rounds to a float below 3. *)
Lemma SFdiv_upper (sx : bool) (mx my : positive) (ex ey : Z) :
  (F2R (Zpos mx) ex <= 29 / 10 * F2R (Zpos my) ey)%R ->
  match SF64div (S754_finite sx mx ex) (S754_finite false my ey) with
  | S754_zero _ => True
  | S754_finite _ m3 e2 => (F2R (Zpos m3) e2 < 3)%R
  | _ => False
  end.
Proof.
intros Hle. cbn [SF64div SFdiv].
destruct (div_core_spec mx my ex ey) as (E' & Eq & Hq & HV).
destruct (SFdiv_core_binary prec emax (Zpos mx) ex (Zpos my) ey)
  as [[q e'] l]. cbn [fst snd] in E', Eq, Hq, HV.
set (V := (F2R (Zpos mx) ex / F2R (Zpos my) ey)%R) in *.
pose proof (F2R_pos my ey) as Dpos. pose proof (F2R_pos mx ex) as Npos.
assert (HVle : (V <= 29 / 10)%R).
{ subst V. apply Rmult_le_reg_r with (F2R (Zpos my) ey); [exact Dpos |].
  unfold Rdiv at 1. rewrite Rmult_assoc, Rinv_l by lra. lra. }
assert (E4 : bpow 2 = 4%R) by (rewrite bpow_IZR by lia; reflexivity).
set (D := Zpos (digits2_pos mx) + ex - (Zpos (digits2_pos my) + ey)) in *.
assert (HD : D <= 2).
{ assert (Hb : (bpow (D - 1) < bpow 2)%R).
  { rewrite E4. eapply Rle_lt_trans with V; [| lra].
    subst V. apply Rmult_le_reg_r with (F2R (Zpos my) ey); [exact Dpos |].
    unfold Rdiv at 1. rewrite Rmult_assoc, Rinv_l, Rmult_1_r by lra.
    destruct (F2R_digits mx ex) as [Hlx _].
    destruct (F2R_digits my ey) as [_ Huy].
    eapply Rle_trans; [| exact Hlx].
    replace (Zpos (digits2_pos mx) - 1 + ex)
      with ((D - 1) + (Zpos (digits2_pos my) + ey)) by (subst D; lia).
    rewrite bpow_add. pose proof (bpow_pos (D - 1)). nra. }
  apply bpow_lt_inv in Hb. lia. }
assert (Hdq : Zdigits2 q + e' - 53 <= -51).
{ destruct q as [| qp | qp]; try lia.
  - cbn [Zdigits2]. lia.
  - cbn [Zdigits2]. destruct (F2R_digits qp e') as [Hlq _].
    assert (Hb : (bpow (Zpos (digits2_pos qp) - 1 + e') < bpow 2)%R)
      by (rewrite E4; lra).
    apply bpow_lt_inv in Hb. lia. }
destruct (round_bounds (xorb sx false) q e' l V Hq HV)
  as (m1 & _ & _ & HL & Hr).
set (e1 := Z.max e' (Z.max (Zdigits2 q + e' - 53) (-1074))) in *.
assert (He1 : e1 <= -51) by (subst e1; lia).
destruct (binary_round_aux prec emax (xorb sx false) q e' l)
  as [s' | s' | | s' m3 e2]; try tauto.
- destruct Hr as [_ Hr]. lia.
- destruct Hr as (_ & _ & Hv & _). rewrite F2R_succ in Hv.
  pose proof (bpow_le e1 (-51) He1) as Hb.
  assert (E51 : (bpow (-51) = 2 * u)%R).
  { unfold u. replace (-51) with (-52 + 1) by lia.
    rewrite bpow_add, bpow_1. lra. }
  pose proof u_bounds. lra.
Qed.

(** ** Square root *)

(** The square root of a positive float is a positive float whose square,
    with the relative error [u] of the rounding, reaches the operand. *)
Lemma SFsqrt_lower (m : positive) (e : Z) :
  valid_binary (S754_finite false m e) = true ->
  match SF64sqrt (S754_finite false m e) with
  | S754_finite s' m3 e2 =>
      s' = false /\
      (F2R (Zpos m) e
       < (F2R (Zpos m3) e2 * (1 + u)) * (F2R (Zpos m3) e2 * (1 + u)))%R
  | _ => False
  end.
Proof.
intros Vx. destruct (valid_exponent _ _ _ Vx) as (He & Hd & _).
cbn [SF64sqrt SFsqrt]. unfold SFsqrt_core_binary. cbn [Zdigits2].
rewrite !Z.div2_div.
set (d := Zpos (digits2_pos m)) in *.
assert (Hd1 : 1 <= d) by (subst d; lia).
change (fexp prec emax ((d + e + 1) / 2))
  with (Z.max ((d + e + 1) / 2 - 53) (-1074)).
pose proof (Z.div_mod (d + e + 1) 2 ltac:(lia)) as T1.
pose proof (Z.mod_pos_bound (d + e + 1) 2 ltac:(lia)) as T2.
pose proof (Z.div_mod e 2 ltac:(lia)) as T3.
pose proof (Z.mod_pos_bound e 2 ltac:(lia)) as T4.
set (t2 := (d + e + 1) / 2) in *.
replace (Z.min (Z.max (t2 - 53) (-1074)) (e / 2)) with (t2 - 53) by lia.
set (e' := t2 - 53).
remember (e - 2 * e') as sh eqn:Esh.
assert (Hsh : 52 <= sh) by (subst sh e'; lia).
assert (Hds : d + sh = 105 \/ d + sh = 106) by (subst sh e'; lia).
set (m' := match sh with
           | 0 => Zpos m
           | Zpos _ => Z.shiftl (Zpos m) sh
           | Zneg _ => 0
           end).
assert (Em : m' = Zpos m * 2 ^ sh).
{ subst m'. clear Esh Hds. destruct sh as [| p | p]; try lia.
  rewrite Z.shiftl_mul_pow2 by lia. reflexivity. }
destruct (digits_spec m) as [Hlm Hum]. fold d in Hlm, Hum.
assert (Hm'l : 2 ^ 104 <= m').
{ rewrite Em.
  assert (H1 : 2 ^ (d - 1) * 2 ^ sh <= Zpos m * 2 ^ sh)
    by (apply Z.mul_le_mono_nonneg_r; [apply Z.pow_nonneg; lia | exact Hlm]).
  rewrite <- Z.pow_add_r in H1 by lia.
  eapply Z.le_trans; [| exact H1]. apply Z.pow_le_mono_r; lia. }
assert (Hm'u : m' < 2 ^ 106).
{ rewrite Em.
  assert (H1 : Zpos m * 2 ^ sh < 2 ^ d * 2 ^ sh)
    by (apply Z.mul_lt_mono_pos_r; [apply Z.pow_pos_nonneg; lia | exact Hum]).
  rewrite <- Z.pow_add_r in H1 by lia.
  eapply Z.lt_le_trans; [exact H1 |]. apply Z.pow_le_mono_r; lia. }
pose proof (Z.sqrtrem_spec m' ltac:(lia)) as Hsq.
destruct (Z.sqrtrem m') as [q r].
destruct Hsq as [Hsq Hr].
assert (Hq0 : 0 <= q) by lia.
assert (Hql : 2 ^ 52 <= q).
{ destruct (Z_le_gt_dec (2 ^ 52) q) as [| Hc]; [assumption | exfalso].
  assert (q + 1 <= 2 ^ 52) by lia.
  assert ((q + 1) * (q + 1) <= 2 ^ 52 * 2 ^ 52) by (apply Z.mul_le_mono_nonneg; lia).
  change (2 ^ 52 * 2 ^ 52) with (2 ^ 104) in *. lia. }
assert (Hqu : q < 2 ^ 53).
{ destruct (Z_lt_le_dec q (2 ^ 53)) as [| Hc]; [assumption | exfalso].
  assert (2 ^ 53 * 2 ^ 53 <= q * q) by (apply Z.mul_le_mono_nonneg; lia).
  change (2 ^ 53 * 2 ^ 53) with (2 ^ 106) in *. lia. }
assert (Hdq : Zdigits2 q = 53).
{ assert (Zdigits2 q <= 53) by (apply Zdigits2_le; lia).
  assert (52 < Zdigits2 q) by (apply Zdigits2_ge; lia). lia. }
set (l := if r =? 0 then loc_Exact
          else loc_Inexact (if r <=? q then Lt else Gt)).
destruct (binary_round_aux_spec false q e' l Hq0) as (m2 & Hc & _ & Hres).
rewrite Hdq in Hc, Hres.
assert (He' : -1074 <= e' <= 460) by (subst e'; lia).
replace (Z.max e' (Z.max (53 + e' - 53) (-1074))) with e' in Hc, Hres by lia.
rewrite Z.sub_diag, Z.div_1_r in Hc.
destruct (binary_round_aux prec emax false q e' l) as [s' | s' | | s' m3 e2].
- lia.
- lia.
- exact Hres.
- destruct Hres as (-> & Hle & Hv & Hb). split; [reflexivity |].
  assert (Ev : F2R (Zpos m3) e2 = F2R m2 e').
  { replace e2 with (e' + (e2 - e')) by lia.
    rewrite <- F2R_shift by lia. now rewrite Hv. }
  rewrite Ev.
  assert (EV : F2R (Zpos m) e = F2R m' (e' + e')).
  { rewrite Em, F2R_shift by lia. f_equal. lia. }
  rewrite EV.
  assert (Hm2 : (F2R q e' <= F2R m2 e')%R) by (apply F2R_le; lia).
  assert (Hsq1 : (F2R m' (e' + e') < F2R (q + 1) e' * F2R (q + 1) e')%R).
  { rewrite F2R_mul. apply F2R_lt. nia. }
  assert (Hq1 : (F2R (q + 1) e' <= F2R q e' * (1 + u))%R).
  { rewrite F2R_succ. unfold F2R. apply IZR_le in Hql.
    change (IZR (2 ^ 52)) with 4503599627370496%R in Hql.
    rewrite u_val. pose proof (bpow_pos e'). nra. }
  assert (Hpos : (0 < F2R q e')%R).
  { unfold F2R. apply IZR_le in Hql.
    change (IZR (2 ^ 52)) with 4503599627370496%R in Hql.
    pose proof (bpow_pos e'). nra. }
  pose proof u_bounds as Hu.
  assert (Hq2 : (F2R (q + 1) e' <= F2R m2 e' * (1 + u))%R) by nra.
  assert (Hq3 : (0 < F2R (q + 1) e')%R).
  { rewrite F2R_succ. pose proof (bpow_pos e'). lra. }
  eapply Rlt_le_trans; [exact Hsq1 |].
  apply Rmult_le_compat; lra.
Qed.

(** ** Subtraction *)

Lemma binary_normalize_opp (m e : Z) :
  SFabs (binary_normalize prec emax (- m) e false)
  = SFabs (binary_normalize prec emax m e false).
Proof.
destruct m as [| p | p]; cbn [Z.opp binary_normalize]; try reflexivity;
  unfold binary_round; destruct (shl_align _ _ _) as [mz ez].
- apply binary_round_aux_abs.
- symmetry. apply binary_round_aux_abs.
Qed.

(** The two differences of a pair have the same magnitude. *)
Lemma SFsub_abs (x y : spec_float) :
  SFabs (SF64sub x y) = SFabs (SF64sub y x).
Proof.
unfold SF64sub, SFsub.
destruct x as [sx | sx | | sx mx ex]; destruct y as [sy | sy | | sy my ey];
  try reflexivity; try (now destruct sx, sy).
rewrite (Z.min_comm ey ex).
set (X := cond_Zopp sx (Zpos (fst (shl_align mx ex (Z.min ex ey))))).
set (Y := cond_Zopp sy (Zpos (fst (shl_align my ey (Z.min ex ey))))).
replace (Y - X) with (- (X - Y)) by lia.
symmetry. apply binary_normalize_opp.
Qed.

(** The difference of two positive floats, the first one the larger. *)
Lemma SFsub_pos (mx my : positive) (ex ey : Z) :
  valid_binary (S754_finite false mx ex) = true ->
  valid_binary (S754_finite false my ey) = true ->
  (F2R (Zpos my) ey < F2R (Zpos mx) ex)%R ->
  let V := (F2R (Zpos mx) ex - F2R (Zpos my) ey)%R in
  match SF64sub (S754_finite false mx ex) (S754_finite false my ey) with
  | S754_infinity s' => s' = false /\ (bpow 1023 <= V)%R
  | S754_finite s' m3 e2 =>
      s' = false /\
      (V * (1 - u) <= F2R (Zpos m3) e2 <= V * (1 + u))%R
  | _ => False
  end.
Proof.
intros Vx Vy Hlt V.
destruct (valid_exponent _ _ _ Vx) as (Hex & _).
destruct (valid_exponent _ _ _ Vy) as (Hey & _).
cbn [SF64sub SFsub cond_Zopp].
set (ez := Z.min ex ey).
destruct (shl_align_spec mx ex ez) as (X1 & X2 & _).
destruct (shl_align_spec my ey ez) as (Y1 & Y2 & _).
rewrite X2, Y2, X1, Y1.
replace (Z.min ex ez) with ez by (subst ez; lia).
replace (Z.min ey ez) with ez by (subst ez; lia).
assert (EV : F2R (Zpos mx * 2 ^ (ex - ez) - Zpos my * 2 ^ (ey - ez)) ez = V).
{ subst V. unfold F2R at 1. rewrite minus_IZR, Rmult_minus_distr_r.
  change (IZR (Zpos mx * 2 ^ (ex - ez)) * bpow ez)%R
    with (F2R (Zpos mx * 2 ^ (ex - ez)) ez).
  change (IZR (Zpos my * 2 ^ (ey - ez)) * bpow ez)%R
    with (F2R (Zpos my * 2 ^ (ey - ez)) ez).
  rewrite !F2R_shift by (subst ez; lia).
  f_equal; [| f_equal]; f_equal; lia. }
assert (HVpos : (0 < V)%R) by (subst V; lra).
destruct (Zpos mx * 2 ^ (ex - ez) - Zpos my * 2 ^ (ey - ez))
  as [| p | p] eqn:Ep.
- unfold F2R in EV. simpl in EV. lra.
- cbn [binary_normalize].
  pose proof (binary_round_bounds false p ez ltac:(subst ez; lia)) as Hr.
  rewrite EV in Hr.
  destruct (binary_round prec emax false p ez) as [s' | s' | | s' m3 e2];
    try contradiction; tauto.
- exfalso. unfold F2R in EV.
  assert (IZR (Zneg p) < 0)%R by (apply IZR_lt; lia).
  pose proof (bpow_pos ez). nra.
Qed.

(** ** Granularity of differences and squares *)

(** The difference of two positive numbers whose exponents are at least
    [k] is zero, or at least 2^k in magnitude before rounding. *)
Lemma SFsub_granular (mx my : positive) (ex ey k : Z) :
  -1074 <= k -> k <= ex -> k <= ey ->
  match SF64sub (S754_finite false mx ex) (S754_finite false my ey) with
  | S754_finite _ m3 e3 => (bpow k * (1 - u) <= F2R (Zpos m3) e3)%R
  | S754_nan => False
  | _ => True
  end.
Proof.
intros Hk Hx Hy. pose proof u_bounds as Hu.
cbn [SF64sub SFsub cond_Zopp].
set (ez := Z.min ex ey).
destruct (shl_align_spec mx ex ez) as (X1 & X2 & _).
destruct (shl_align_spec my ey ez) as (Y1 & Y2 & _).
rewrite X2, Y2, X1, Y1.
replace (Z.min ex ez) with ez by (subst ez; lia).
replace (Z.min ey ez) with ez by (subst ez; lia).
assert (Hez : k <= ez) by (subst ez; lia).
assert (Hb : forall (s : bool) (p : positive),
  match binary_round prec emax s p ez with
  | S754_finite _ m3 e3 => (bpow k * (1 - u) <= F2R (Zpos m3) e3)%R
  | S754_nan => False
  | _ => True
  end).
{ intros s p.
  pose proof (binary_round_bounds s p ez ltac:(lia)) as Hr.
  destruct (binary_round prec emax s p ez) as [s' | s' | | s' m3 e3];
    try contradiction; try exact I.
  destruct Hr as (_ & _ & Hr & _).
  pose proof (F2R_ge_bpow p ez) as Hp. pose proof (bpow_le k ez Hez) as Hke.
  pose proof (bpow_pos k). nra. }
destruct (Zpos mx * 2 ^ (ex - ez) - Zpos my * 2 ^ (ey - ez)) as [| p | p].
- exact I.
- apply Hb.
- apply Hb.
Qed.

(** The square of a number of magnitude at least 2^-537 does not round to
    zero. *)
Lemma SFmul_square_nonzero (s : bool) (m : positive) (e : Z) :
  (bpow (-537) <= F2R (Zpos m) e)%R ->
  match SF64mul (S754_finite s m e) (S754_finite s m e) with
  | S754_zero _ => False
  | _ => True
  end.
Proof.
intros Hm. cbn [SF64mul SFmul].
set (V := (F2R (Zpos m) e * F2R (Zpos m) e)%R).
assert (EV : V = F2R (Zpos (m * m)) (e + e)).
{ subst V. rewrite F2R_mul. reflexivity. }
assert (HV : (F2R (Zpos (m * m)) (e + e) <= V
              < F2R (Zpos (m * m) + 1) (e + e))%R).
{ rewrite <- EV, F2R_succ, <- EV. pose proof (bpow_pos (e + e)). lra. }
destruct (round_bounds (xorb s s) (Zpos (m * m)) (e + e) loc_Exact V
            ltac:(lia) HV) as (m1 & Hm1 & Hbig & HL & Hr).
destruct (binary_round_aux prec emax (xorb s s) (Zpos (m * m)) (e + e)
            loc_Exact) as [s' | s' | | s' m3 e3]; try exact I.
destruct Hr as [_ Hz]. subst m1.
set (e1 := Z.max (e + e) (Z.max (Zdigits2 (Zpos (m * m)) + (e + e) - 53)
                                (-1074))) in *.
assert (HVlt : (V < bpow e1)%R).
{ destruct HL as [_ HL]. unfold F2R in HL. simpl in HL. lra. }
assert (Hmin : (bpow (-1074) <= V)%R).
{ replace (-1074) with (-537 + -537) by lia. rewrite bpow_add. subst V.
  pose proof (bpow_pos (-537)). nra. }
assert (Hone : (bpow (e + e) <= V)%R).
{ rewrite EV. apply F2R_ge_bpow. }
destruct (Z.max_spec (e + e) (Z.max (Zdigits2 (Zpos (m * m)) + (e + e) - 53)
                                    (-1074))) as [[_ E] | [_ E]];
  fold e1 in E.
- destruct (Z.max_spec (Zdigits2 (Zpos (m * m)) + (e + e) - 53) (-1074))
    as [[_ E'] | [_ E']]; rewrite E' in E.
  + rewrite E in HVlt. lra.
  + assert (2 ^ 52 <= 0) by (apply Hbig; [lia | exact E]). lia.
- rewrite E in HVlt. lra.
Qed.

Lemma of_nat_pos (n : nat) :
  (1 <= n)%nat -> (Z.of_nat n < 2 ^ 53)%Z ->
  exists (mN : positive) (eN : Z),
    Prim2SF (Float64.of_nat n) = S754_finite false mN eN /\
    (0 < F2R (Zpos mN) eN <= INR n * (1 + u))%R.
Proof.
intros H1 Hn. pose proof u_bounds as Hu.
assert (Hn1 : (1 <= INR n)%R) by (apply (le_INR 1 n); exact H1).
unfold Float64.of_nat.
assert (Hr : (0 <= Z.of_nat n < 2 ^ 63)%Z) by lia.
rewrite of_uint63_spec, Uint63.of_Z_spec, Z.mod_small by exact Hr.
destruct (Z.of_nat n) as [| p | p] eqn:Ep; try lia.
cbn [binary_normalize].
pose proof (binary_round_bounds false p 0 ltac:(lia)) as Hb.
assert (EV : F2R (Zpos p) 0 = INR n).
{ unfold F2R. rewrite bpow_0, Rmult_1_r, INR_IZR_INZ, Ep. reflexivity. }
rewrite EV in Hb.
assert (E54 : (bpow 54 <= bpow 1023)%R) by (apply bpow_le; lia).
assert (E54' : bpow 54 = 18014398509481984%R)
  by (rewrite bpow_IZR by lia; reflexivity).
assert (Hnu : (INR n < 9007199254740992)%R).
{ rewrite INR_IZR_INZ, Ep.
  change 9007199254740992%R with (IZR (2 ^ 53)). now apply IZR_lt. }
destruct (binary_round prec emax false p 0) as [s' | s' | | s' mn en];
  try contradiction.
{ destruct Hb as [_ Hb]. lra. }
destruct Hb as (-> & _ & Hb). exists mn, en. split; [reflexivity |].
split; [nra | lra].
Qed.

(** Comparison with 2^-480. *)
Lemma leb_bpow_480 (x : float) :
  (0x1p-480 <=? x)%float = true ->
  Prim2SF x = S754_infinity false \/
  exists (mx : positive) (ex : Z),
    Prim2SF x = S754_finite false mx ex /\ -532 <= ex /\
    (bpow (-480) <= F2R (Zpos mx) ex)%R.
Proof.
rewrite leb_spec. pose proof (Prim2SF_valid x) as Vx. revert Vx.
change (Prim2SF 0x1p-480) with (S754_finite false 4503599627370496 (-532)).
destruct (Prim2SF x) as [sx | sx | | sx mx ex]; try discriminate.
- destruct sx; [discriminate | now left].
- intros Vx H. right. destruct sx; [discriminate H |].
  exists mx, ex. split; [reflexivity |].
  destruct (valid_exponent _ _ _ Vx) as (He & Hd & Hc).
  unfold SFleb, SFcompare in H.
  destruct (Z.compare_spec (-532) ex) as [E | E | E].
  + subst ex. split; [lia |].
    change (PosDef.Pos.compare_cont Eq 4503599627370496 mx)
      with (Pos.compare 4503599627370496 mx) in H.
    destruct (Pos.compare_spec 4503599627370496 mx) as [E | E | E];
      try discriminate H.
    * subst mx. unfold F2R. replace (-480) with (52 + -532) by lia.
      rewrite bpow_add, (bpow_IZR 52) by lia. apply Rle_refl.
    * unfold F2R. replace (-480) with (52 + -532) by lia.
      rewrite bpow_add, (bpow_IZR 52) by lia.
      apply Rmult_le_compat_r; [apply Rlt_le, bpow_pos |].
      apply IZR_le. change (2 ^ 52) with 4503599627370496. lia.
  + split; [lia |].
    pose proof (F2R_digits mx ex) as [Hl _].
    rewrite (Hc ltac:(lia)) in Hl.
    eapply Rle_trans; [| exact Hl]. apply bpow_le. lia.
  + discriminate H.
Qed.

(** ** A lower bound for the pairwise sum of cells that all reach [Q] *)

Local Open Scope float_scope.

(** [f] is not negative and, when finite, reaches [k] times [Q] up to [h]
    roundings. *)
Definition ge_sum (Q : R) (f : float) (k h : nat) : Prop :=
  nonneg (Prim2SF f) = true /\
  (Prim2SF f = S754_infinity false \/
   (sf_finite (Prim2SF f) = true /\
    (INR k * Q * (1 - INR h * u) <= B2R (Prim2SF f))%R)).

Section Sum.

Variable Q : R.
Hypothesis Q_nonneg : (0 <= Q)%R.

Lemma ge_sum_mono (f : float) (k h h' : nat) :
  (h <= h')%nat -> ge_sum Q f k h -> ge_sum Q f k h'.
Proof.
intros Hh [Hn [Hi | [Hf Hv]]]; split; auto. right. split; [exact Hf |].
apply le_INR in Hh. pose proof (pos_INR k). pose proof u_bounds.
eapply Rle_trans; [| exact Hv].
assert (HA : (0 <= INR k * Q)%R) by (apply Rmult_le_pos; assumption).
assert (HB : (INR h * u <= INR h' * u)%R) by (apply Rmult_le_compat_r; lra).
apply Rmult_le_compat_l; [exact HA | lra].
Qed.

Lemma ge_sum_add (a b : float) (k1 k2 h1 h2 h : nat) :
  (h1 <= h)%nat -> (h2 <= h)%nat ->
  ge_sum Q a k1 h1 -> ge_sum Q b k2 h2 ->
  ge_sum Q (a + b) (k1 + k2) (S h).
Proof.
intros H1 H2 Ha Hb.
apply (ge_sum_mono a k1 h1 h H1) in Ha.
apply (ge_sum_mono b k2 h2 h H2) in Hb.
destruct Ha as [Na Ha], Hb as [Nb Hb]. unfold ge_sum. rewrite add_spec.
destruct (SFadd_nonneg (Prim2SF a) (Prim2SF b) (Prim2SF_valid a)
            (Prim2SF_valid b) Na Nb) as [Hn [Hi | (Fa & Fb & Fs & Hv)]].
- split; [exact Hn | now left].
- split; [exact Hn |]. right. split; [exact Fs |].
  destruct Ha as [Ea | [_ Ha]]; [rewrite Ea in Fa; discriminate |].
  destruct Hb as [Eb | [_ Hb]]; [rewrite Eb in Fb; discriminate |].
  rewrite plus_INR, S_INR.
  pose proof (pos_INR k1). pose proof (pos_INR k2). pose proof (pos_INR h).
  pose proof u_bounds.
  eapply Rle_trans; [| exact Hv].
  assert (A1 : (0 <= INR k1 * Q)%R) by (apply Rmult_le_pos; assumption).
  assert (A2 : (0 <= INR k2 * Q)%R) by (apply Rmult_le_pos; assumption).
  assert (E : ((INR k1 + INR k2) * Q * (1 - INR h * u) * (1 - u)
               <= (B2R (Prim2SF a) + B2R (Prim2SF b)) * (1 - u))%R)
    by (apply Rmult_le_compat_r; lra).
  eapply Rle_trans; [| exact E].
  assert (A3 : (0 <= (INR k1 + INR k2) * Q * (INR h * (u * u)))%R).
  { apply Rmult_le_pos; [lra |]. apply Rmult_le_pos; [assumption |].
    apply Rmult_le_pos; lra. }
  replace ((INR k1 + INR k2) * Q * (1 - INR h * u) * (1 - u))%R
    with ((INR k1 + INR k2) * Q * (1 - (INR h + 1) * u)
          + (INR k1 + INR k2) * Q * (INR h * (u * u)))%R by ring.
  lra.
Qed.

Lemma ge_sum_zero : ge_sum Q (-0) 0 0.
Proof.
split; [reflexivity |]. right. split; [reflexivity |].
change (Prim2SF (-0)) with (S754_zero true). cbn [B2R INR]. lra.
Qed.

Definition reaches (x : float) : Prop := ge_sum Q x 1 0.

Lemma ge_fold (l : list float) : forall (acc : float) (k h : nat),
  Forall reaches l -> ge_sum Q acc k h ->
  ge_sum Q (fold_left add l acc) (k + List.length l) (h + List.length l).
Proof.
induction l as [| x l IH]; intros acc k h HF Ha.
- cbn [fold_left List.length]. now rewrite !Nat.add_0_r.
- apply Forall_cons_iff in HF. destruct HF as [Hx HF].
  cbn [fold_left List.length].
  replace (k + S (List.length l))%nat with (k + 1 + List.length l)%nat by lia.
  replace (h + S (List.length l))%nat with (S h + List.length l)%nat by lia.
  apply IH; [exact HF |].
  apply (ge_sum_add acc x k 1 h 0 h); auto. lia.
Qed.

Lemma ge_unrolled (l : list float) :
  forall (r0 r1 r2 r3 r4 r5 r6 r7 : float) (c h : nat),
  Forall reaches l ->
  ge_sum Q r0 c h -> ge_sum Q r1 c h -> ge_sum Q r2 c h -> ge_sum Q r3 c h ->
  ge_sum Q r4 c h -> ge_sum Q r5 c h -> ge_sum Q r6 c h -> ge_sum Q r7 c h ->
  ge_sum Q (Float64.sum_unrolled r0 r1 r2 r3 r4 r5 r6 r7 l)
         (8 * c + List.length l) (h + List.length l / 8 + 10).
Proof.
induction l as [l Hl | a0 a1 a2 a3 a4 a5 a6 a7 t IH] using list_ind8;
  intros r0 r1 r2 r3 r4 r5 r6 r7 c h HF H0 H1 H2 H3 H4 H5 H6 H7.
- rewrite sum_unrolled_short by exact Hl.
  rewrite (Nat.div_small _ 8) by exact Hl.
  apply (ge_sum_mono _ _ (h + 3 + List.length l)); [lia |].
  apply ge_fold; [exact HF |].
  replace (8 * c)%nat with ((c + c) + (c + c) + ((c + c) + (c + c)))%nat by lia.
  replace (h + 3)%nat with (S (S (S h))) by lia.
  apply (ge_sum_add _ _ _ _ (S (S h)) (S (S h))); try lia;
    apply (ge_sum_add _ _ _ _ (S h) (S h)); try lia;
    apply (ge_sum_add _ _ _ _ h h); auto.
- do 8 (apply Forall_cons_iff in HF; destruct HF as [? HF]).
  cbn [Float64.sum_unrolled].
  assert (Ediv : (List.length
                    (a0 :: a1 :: a2 :: a3 :: a4 :: a5 :: a6 :: a7 :: t) / 8
                  = 1 + List.length t / 8)%nat).
  { cbn [List.length].
    replace (S (S (S (S (S (S (S (S (List.length t)))))))))
      with (1 * 8 + List.length t)%nat by lia.
    rewrite Nat.div_add_l by lia. reflexivity. }
  rewrite Ediv.
  replace (8 * c + List.length
                     (a0 :: a1 :: a2 :: a3 :: a4 :: a5 :: a6 :: a7 :: t))%nat
    with (8 * (c + 1) + List.length t)%nat by (cbn [List.length]; lia).
  replace (h + (1 + List.length t / 8) + 10)%nat
    with (S h + List.length t / 8 + 10)%nat by lia.
  apply IH; try exact HF;
    apply (ge_sum_add _ _ c 1 h 0 h); auto; lia.
Qed.

(** Up to 128 cells. *)
Lemma ge_pairwise_block (fuel : nat) (l : list float) :
  (List.length l <= 128)%nat -> Forall reaches l ->
  ge_sum Q (Float64.pairwise_sum fuel l) (List.length l) 26.
Proof.
intros Hl HF.
destruct (Nat.lt_ge_cases (List.length l) 8) as [Hs | Hs].
- rewrite pairwise_sum_short by exact Hs.
  apply (ge_sum_mono _ _ (0 + List.length l)); [lia |].
  apply (ge_fold l (-0) 0 0 HF ge_sum_zero).
- destruct l as [| a0 [| a1 [| a2 [| a3 [| a4 [| a5 [| a6 [| a7 t]]]]]]]];
    try (simpl in Hs; lia).
  rewrite pairwise_sum_block by (simpl in Hl; lia).
  do 8 (apply Forall_cons_iff in HF; destruct HF as [? HF]).
  assert (Hd : (List.length t / 8 <= 15)%nat).
  { apply Nat.Div0.div_le_upper_bound. simpl in Hl. lia. }
  apply (ge_sum_mono _ _ (0 + List.length t / 8 + 10)); [lia |].
  replace (List.length (a0 :: a1 :: a2 :: a3 :: a4 :: a5 :: a6 :: a7 :: t))
    with (8 * 1 + List.length t)%nat by (cbn [List.length]; lia).
  apply ge_unrolled; auto.
Qed.

(** Any length: one more rounding for each halving. *)
Lemma ge_pairwise (d : nat) : forall (fuel : nat) (l : list float),
  (Z.of_nat (List.length l) <= 112 * 2 ^ Z.of_nat d + 16)%Z ->
  (d <= fuel)%nat ->
  Forall reaches l ->
  ge_sum Q (Float64.pairwise_sum fuel l) (List.length l) (26 + d).
Proof.
induction d as [| d IH]; intros fuel l Hl Hf HF.
- apply (ge_sum_mono _ _ 26); [lia |].
  apply ge_pairwise_block; [simpl in Hl; lia | exact HF].
- destruct (Nat.le_gt_cases (List.length l) 128) as [Hs | Hb].
  + apply (ge_sum_mono _ _ 26); [lia |]. now apply ge_pairwise_block.
  + destruct fuel as [| fuel]; [lia |].
    rewrite (pairwise_sum_split fuel l Hb). cbv zeta.
    pose proof (split_point (List.length l) Hb) as Hp.
    set (n2 := (List.length l / 2 - (List.length l / 2) mod 8)%nat) in *.
    assert (L1 : List.length (firstn n2 l) = n2)
      by (apply firstn_length_le; lia).
    assert (L2 : List.length (skipn n2 l) = (List.length l - n2)%nat)
      by apply length_skipn.
    pose proof (Nat.mod_upper_bound (List.length l / 2) 8 ltac:(lia)) as Hm.
    pose proof (Nat.div_mod_eq (List.length l) 2) as Hd.
    pose proof (Nat.mod_upper_bound (List.length l) 2 ltac:(lia)) as Hr.
    rewrite Nat2Z.inj_succ, Z.pow_succ_r in Hl by lia.
    assert (Hpow : (0 < 2 ^ Z.of_nat d)%Z) by (apply Z.pow_pos_nonneg; lia).
    assert (HF' : Forall reaches (firstn n2 l ++ skipn n2 l))
      by (now rewrite firstn_skipn).
    apply Forall_app in HF'. destruct HF' as [F1 F2].
    assert (G1 : ge_sum Q (Float64.pairwise_sum fuel (firstn n2 l))
                        n2 (26 + d)).
    { rewrite <- L1 at 2.
      apply IH; [rewrite L1; subst n2; lia | lia | exact F1]. }
    assert (G2 : ge_sum Q (Float64.pairwise_sum fuel (skipn n2 l))
                        (List.length l - n2) (26 + d)).
    { rewrite <- L2.
      apply IH; [rewrite L2; subst n2; lia | lia | exact F2]. }
    pose proof (ge_sum_add _ _ _ _ _ _ (26 + d) (Nat.le_refl _)
                  (Nat.le_refl _) G1 G2) as G.
    replace (n2 + (List.length l - n2))%nat with (List.length l) in G by lia.
    replace (26 + S d)%nat with (S (26 + d)) by lia. exact G.
Qed.

End Sum.

(** ** Sums of cells with a property that the addition preserves *)

Section ClosedNonEmpty.

Variable P : float -> Prop.
Hypothesis P_add : forall a b, P a -> P b -> P (a + b).

Lemma pairwise_sum_closed_ne (fuel : nat) : forall l : list float,
  l <> [] -> Forall P l -> P (Float64.pairwise_sum fuel l).
Proof.
induction fuel as [| fuel IH]; intros l Hne HF;
  (destruct (Nat.lt_ge_cases (List.length l) 8) as [Hs | Hs];
   [rewrite pairwise_sum_short by exact Hs;
    destruct l as [| x l]; [congruence |];
    apply Forall_cons_iff in HF; destruct HF as [Hx HF];
    cbn [fold_left]; rewrite add_neg_zero_l;
    now apply fold_add_closed |]);
  (destruct (Nat.le_gt_cases (List.length l) 128) as [Hb | Hb]).
- destruct l as [| a0 [| a1 [| a2 [| a3 [| a4 [| a5 [| a6 [| a7 t]]]]]]]];
    try (simpl in Hs; lia).
  rewrite pairwise_sum_block by (simpl in Hb; lia).
  do 8 (apply Forall_cons_iff in HF; destruct HF as [? HF]).
  apply sum_unrolled_closed; auto.
- destruct l as [| a0 [| a1 [| a2 [| a3 [| a4 [| a5 [| a6 [| a7 t]]]]]]]];
    try (simpl in Hs; lia).
  cbn [Float64.pairwise_sum].
  do 8 (apply Forall_cons_iff in HF; destruct HF as [? HF]).
  destruct (_ <=? 128)%nat; apply sum_unrolled_closed; auto.
- destruct l as [| a0 [| a1 [| a2 [| a3 [| a4 [| a5 [| a6 [| a7 t]]]]]]]];
    try (simpl in Hs; lia).
  rewrite pairwise_sum_block by (simpl in Hb; lia).
  do 8 (apply Forall_cons_iff in HF; destruct HF as [? HF]).
  apply sum_unrolled_closed; auto.
- rewrite (pairwise_sum_split fuel l Hb). cbv zeta.
  pose proof (split_point (List.length l) Hb) as Hp.
  set (n2 := (List.length l / 2 - (List.length l / 2) mod 8)%nat) in *.
  assert (L1 : List.length (firstn n2 l) = n2)
    by (apply firstn_length_le; lia).
  assert (L2 : List.length (skipn n2 l) = (List.length l - n2)%nat)
    by apply length_skipn.
  rewrite <- (firstn_skipn n2 l) in HF. apply Forall_app in HF.
  apply P_add; apply IH; try tauto.
  + intros E. rewrite E in L1. simpl in L1. lia.
  + intros E. rewrite E in L2. simpl in L2. lia.
Qed.

Lemma sum_closed_ne (l : list float) :
  l <> [] -> Forall P l -> P (Float64.sum l).
Proof.
intros Hne HF. destruct l as [| x l]; [congruence |].
rewrite sum_cons. now apply pairwise_sum_closed_ne.
Qed.

End ClosedNonEmpty.

Lemma Forall_repeat {A : Type} (P : A -> Prop) (x : A) (n : nat) :
  P x -> Forall P (repeat x n).
Proof. intros H. induction n; simpl; auto. Qed.

Lemma repeat_ne {A : Type} (x : A) (n : nat) : (1 <= n)%nat -> repeat x n <> [].
Proof. destruct n; simpl; [lia | discriminate]. Qed.

(** ** Comparison with 3 *)

Lemma ltb_3_false (s : bool) (m : positive) (e : Z) :
  valid_binary (S754_finite s m e) = true -> (F2R (Zpos m) e < 3)%R ->
  SFltb (Prim2SF 3) (SFabs (S754_finite s m e)) = false.
Proof.
intros Vx Hlt. destruct (valid_exponent _ _ _ Vx) as (He & Hd & Hn).
change (Prim2SF 3) with (S754_finite false 6755399441055744 (-51)).
cbn [SFabs]. unfold SFltb, SFcompare.
destruct (Z.compare_spec (-51) e) as [E | E | E]; try reflexivity.
- subst e.
  assert (Hm : Zpos m < 6755399441055744).
  { apply lt_IZR. unfold F2R in Hlt.
    assert (E51 : (bpow (-51) = 2 * u)%R).
    { unfold u. replace (-51)%Z with (-52 + 1)%Z by lia.
      rewrite bpow_add, bpow_1. lra. }
    rewrite E51, u_val in Hlt. lra. }
  change (Pos.compare_cont Eq 6755399441055744 m)
    with (6755399441055744 ?= m)%positive.
  destruct (Pos.compare_spec 6755399441055744 m) as [E | E | E];
    try reflexivity; lia.
- exfalso. pose proof (F2R_digits m e) as [Hl _].
  rewrite (Hn ltac:(lia)) in Hl.
  assert (Hb : (bpow 2 <= bpow (53 - 1 + e))%R) by (apply bpow_le; lia).
  assert (E4 : bpow 2 = 4%R) by (rewrite bpow_IZR by lia; reflexivity).
  lra.
Qed.

(** ** The count, less one *)

Lemma F2R_one : F2R 4503599627370496 (-52) = 1%R.
Proof.
unfold F2R. change (bpow (-52)) with u. rewrite u_val. lra.
Qed.

Lemma count_less_one (n : nat) :
  (2 <= n)%nat -> (Z.of_nat n < 2 ^ 53)%Z ->
  exists (mN : positive) (eN : Z),
    Prim2SF (Float64.of_nat n - 1) = S754_finite false mN eN /\
    (0 < F2R (Zpos mN) eN <= (INR n - 1) * (1 + 4 * u))%R.
Proof.
intros H2 Hn. pose proof u_bounds as Hu.
assert (Hn2 : (2 <= INR n)%R) by (apply (le_INR 2 n); exact H2).
pose proof (Prim2SF_valid (Float64.of_nat n)) as Vn.
revert Vn. rewrite sub_spec. unfold Float64.of_nat.
assert (Hr : (0 <= Z.of_nat n < 2 ^ 63)%Z) by lia.
rewrite of_uint63_spec, Uint63.of_Z_spec, Z.mod_small by exact Hr.
destruct (Z.of_nat n) as [| p | p] eqn:Ep; try lia.
cbn [binary_normalize].
pose proof (binary_round_bounds false p 0 ltac:(lia)) as Hb.
assert (EV : F2R (Zpos p) 0 = INR n).
{ unfold F2R. rewrite bpow_0, Rmult_1_r, INR_IZR_INZ, Ep. reflexivity. }
rewrite EV in Hb.
assert (E54 : (bpow 54 <= bpow 1023)%R) by (apply bpow_le; lia).
assert (E54' : bpow 54 = 18014398509481984%R)
  by (rewrite bpow_IZR by lia; reflexivity).
assert (Hnu : (INR n < 9007199254740992)%R).
{ rewrite INR_IZR_INZ, Ep.
  change 9007199254740992%R with (IZR (2 ^ 53)). now apply IZR_lt. }
destruct (binary_round prec emax false p 0) as [s' | s' | | s' mn en];
  try contradiction.
{ destruct Hb as [_ Hb]. lra. }
destruct Hb as (-> & _ & Hb). intros Vn.
change (Prim2SF 1) with (S754_finite false 4503599627370496 (-52)).
assert (V1 : valid_binary (S754_finite false 4503599627370496 (-52)) = true)
  by reflexivity.
assert (Hgt : (F2R 4503599627370496 (-52) < F2R (Zpos mn) en)%R)
  by (rewrite F2R_one; nra).
pose proof (SFsub_pos mn 4503599627370496 en (-52) Vn V1 Hgt) as Hs.
cbv zeta in Hs. rewrite F2R_one in Hs.
destruct (SF64sub _ _) as [s' | s' | | s' mN eN]; try contradiction.
{ destruct Hs as [_ Hs]. nra. }
destruct Hs as (-> & Hs). exists mN, eN. split; [reflexivity |].
split; [nra |].
eapply Rle_trans; [apply Hs |].
assert (F2R (Zpos mn) en - 1 <= (INR n - 1) * (1 + 2 * u))%R by nra.
assert (0 <= INR n - 1)%R by lra.
eapply Rle_trans;
  [apply Rmult_le_compat_r; [lra | eassumption] |].
nra.
Qed.

(** ** Equal cells: the z-score *)

Lemma is_zero_iff (x : float) :
  is_zero x = match Prim2SF x with S754_zero _ => true | _ => false end.
Proof.
unfold is_zero. rewrite eqb_spec.
change (Prim2SF zero) with (S754_zero false). unfold SFeqb.
destruct (Prim2SF x) as [s | s | | s m e]; simpl; try reflexivity;
  now destruct s.
Qed.

Lemma sum_ne (l : list float) :
  l <> [] -> Float64.sum l = Float64.pairwise_sum (List.length l) l.
Proof. destruct l as [| x l]; [congruence | intros _; apply sum_cons]. Qed.

(** From the sum of the squared deviations on: an infinite sum gives an
    infinite spread, and a finite deviation over it is a zero. *)
Lemma spread_infinite (sa : bool) (ma : positive) (ea : Z)
      (T N : spec_float) (mN : positive) (eN : Z) :
  T = S754_infinity false -> N = S754_finite false mN eN ->
  SFltb (Prim2SF 3)
        (SFabs (SF64div (S754_finite sa ma ea) (SF64sqrt (SF64div T N))))
  = false.
Proof. intros -> ->. now destruct sa. Qed.

Lemma equal_cells_z (x m : float) (n : nat) :
  (2 <= n)%nat -> (Z.of_nat n <= 2 ^ 45)%Z ->
  is_zero (m - x) = true \/ is_zero ((m - x) * (m - x)) = false ->
  (3 <? abs ((x - m)
             / PrimFloat.sqrt
                 (Float64.sum (repeat ((m - x) * (m - x)) n)
                  / (Float64.of_nat n - 1)))) = false.
Proof.
intros H2 Hn Hz. pose proof u_bounds as Hu.
destruct (count_less_one n H2 ltac:(lia)) as (mN & eN & EN & HN).
assert (Hne : repeat ((m - x) * (m - x)) n <> []) by (apply repeat_ne; lia).
set (q := (m - x) * (m - x)) in *.
pose proof (Prim2SF_valid
              ((x - m) / PrimFloat.sqrt
                           (Float64.sum (repeat q n)
                            / (Float64.of_nat n - 1)))) as Vz.
pose proof (Prim2SF_valid (Float64.sum (repeat q n)
                           / (Float64.of_nat n - 1))) as Vv.
pose proof (Prim2SF_valid (Float64.sum (repeat q n))) as VT.
pose proof (Prim2SF_valid q) as Vq.
revert Vz Vv.
rewrite ltb_spec, abs_spec, !div_spec, sqrt_spec, !div_spec, EN.
assert (Eabs : SFabs (Prim2SF (x - m)) = SFabs (Prim2SF (m - x)))
  by (rewrite !sub_spec; apply SFsub_abs).
assert (Eq : Prim2SF q = SF64mul (Prim2SF (m - x)) (Prim2SF (m - x)))
  by (subst q; apply mul_spec).
rewrite !is_zero_iff in Hz.
destruct (Prim2SF (m - x)) as [sd | sd | | sd md ed] eqn:ED.
- (* the deviation is zero *)
  assert (ET : Prim2SF (Float64.sum (repeat q n)) = S754_zero false).
  { apply (sum_closed_ne (fun f => Prim2SF f = S754_zero false)).
    - intros a b Ha Hb. now rewrite add_spec, Ha, Hb.
    - exact Hne.
    - apply Forall_repeat. rewrite Eq. now destruct sd. }
  rewrite ET. intros _ _.
  destruct (Prim2SF (x - m)) as [sa | sa | | sa ma ea];
    try discriminate Eabs; reflexivity.
- (* the deviation is infinite *)
  assert (ET : Prim2SF (Float64.sum (repeat q n)) = S754_infinity false).
  { apply (sum_closed_ne (fun f => Prim2SF f = S754_infinity false)).
    - intros a b Ha Hb. now rewrite add_spec, Ha, Hb.
    - exact Hne.
    - apply Forall_repeat. rewrite Eq. now destruct sd. }
  rewrite ET. intros _ _.
  destruct (Prim2SF (x - m)) as [sa | sa | | sa ma ea];
    try discriminate Eabs; reflexivity.
- (* the deviation is NaN *)
  assert (ET : Prim2SF (Float64.sum (repeat q n)) = S754_nan).
  { apply (sum_closed_ne (fun f => Prim2SF f = S754_nan)).
    - intros a b Ha Hb. now rewrite add_spec, Ha, Hb.
    - exact Hne.
    - apply Forall_repeat. now rewrite Eq. }
  rewrite ET. intros _ _.
  now destruct (Prim2SF (x - m)) as [sa | sa | | sa ma ea].
- (* a finite deviation *)
  destruct Hz as [Hz | Hz]; [discriminate Hz |].
  destruct (Prim2SF (x - m)) as [sa | sa | | sa ma ea];
    try discriminate Eabs.
  cbn [SFabs] in Eabs. injection Eabs as -> ->.
  pose proof (SFmul_square sd md ed) as Hsq. rewrite <- Eq in Hsq.
  destruct (Prim2SF q) as [sq | sq | | sq mq eq] eqn:EQ;
    try contradiction; try discriminate Hz.
  + (* the square overflows *)
    subst sq.
    assert (ET : Prim2SF (Float64.sum (repeat q n)) = S754_infinity false).
    { apply (sum_closed_ne (fun f => Prim2SF f = S754_infinity false)).
      - intros a b Ha Hb. now rewrite add_spec, Ha, Hb.
      - exact Hne.
      - apply Forall_repeat. exact EQ. }
    intros _ _. now apply (spread_infinite sa md ed _ _ mN eN).
  + destruct Hsq as [-> Hsq].
    set (a := F2R (Zpos md) ed) in *. set (Qr := F2R (Zpos mq) eq) in *.
    assert (Ha : (0 < a)%R) by apply F2R_pos.
    assert (HQ : (0 < Qr)%R) by apply F2R_pos.
    destruct (valid_exponent _ _ _ Vq) as (Heq & _).
    assert (HQmin : (bpow (-1074) <= Qr)%R) by (apply bpow_m1074_le; lia).
    (* the sum *)
    assert (Hreach : reaches Qr q).
    { split; [rewrite EQ; reflexivity |]. right. rewrite EQ.
      split; [reflexivity |]. cbn [B2R cond_Zopp INR]. fold Qr. lra. }
    assert (HT : ge_sum Qr (Float64.sum (repeat q n)) n 65).
    { rewrite sum_ne by exact Hne. rewrite repeat_length.
      destruct (Nat.le_gt_cases n 128) as [Hs | Hb].
      - apply (ge_sum_mono Qr (Rlt_le _ _ HQ) _ _ (26 + 0)); [lia |].
        pose proof (ge_pairwise Qr (Rlt_le _ _ HQ) 0 n (repeat q n)) as G.
        rewrite repeat_length in G.
        apply G; [simpl; lia | lia | now apply Forall_repeat].
      - apply (ge_sum_mono Qr (Rlt_le _ _ HQ) _ _ (26 + 39)); [lia |].
        pose proof (ge_pairwise Qr (Rlt_le _ _ HQ) 39 n (repeat q n)) as G.
        rewrite repeat_length in G.
        apply G; [| lia | now apply Forall_repeat].
        change (112 * 2 ^ Z.of_nat 39 + 16)%Z with 61572651155472%Z. lia. }
    destruct HT as [NT [ET | [FT HT]]].
    { intros _ _. now apply (spread_infinite sa md ed _ _ mN eN). }
    assert (Hnr : (2 <= INR n <= 35184372088832)%R).
    { split; [apply (le_INR 2 n); exact H2 |].
      rewrite INR_IZR_INZ. change 35184372088832%R with (IZR (2 ^ 45)).
      now apply IZR_le. }
    assert (E65 : INR 65 = 65%R) by (simpl; lra).
    rewrite E65 in HT. rewrite u_val in HT, HN, Hu.
    destruct (Prim2SF (Float64.sum (repeat q n))) as [sT | sT | | sT mT eT]
      eqn:EqT; try discriminate FT.
    { exfalso. cbn [B2R] in HT. nra. }
    destruct sT; [discriminate NT |]. cbn [B2R cond_Zopp] in HT.
    set (Tr := F2R (Zpos mT) eT) in *. set (Nr := F2R (Zpos mN) eN) in *.
    assert (HTQ : (Qr * Nr <= Tr)%R) by nra.
    assert (HVmin : (bpow (-1074) <= Tr / Nr)%R).
    { apply Rle_trans with Qr; [exact HQmin |].
      apply Rmult_le_reg_r with Nr; [lra |].
      unfold Rdiv. rewrite Rmult_assoc, Rinv_l, Rmult_1_r by lra. exact HTQ. }
    pose proof (SFdiv_lower mT mN eT eN VT HVmin) as Hv.
    fold Tr Nr in Hv.
    destruct (SF64div (S754_finite false mT eT) (S754_finite false mN eN))
      as [sv | sv | | sv mv ev] eqn:Ev; try contradiction.
    { subst sv. intros _ _. now destruct sa. }
    destruct Hv as [-> Hv]. intros Vz Vv'.
    pose proof (SFsqrt_lower mv ev Vv') as Hs.
    set (vr := F2R (Zpos mv) ev) in *.
    destruct (SF64sqrt (S754_finite false mv ev)) as [ss | ss | | ss ms es]
      eqn:Es; try contradiction.
    destruct Hs as [-> Hs]. set (sr := F2R (Zpos ms) es) in *.
    assert (Hsr : (0 < sr)%R) by apply F2R_pos.
    rewrite u_val in Hs.
    assert (HvT : (Tr < 2 * vr * Nr)%R).
    { apply Rmult_lt_compat_r with (r := Nr) in Hv; [| lra].
      unfold Rdiv in Hv. rewrite Rmult_assoc, Rinv_l, Rmult_1_r in Hv by lra.
      exact Hv. }
    assert (Hvr : (0 < vr)%R) by apply F2R_pos.
    assert (Hle : (a <= 29 / 10 * sr)%R).
    { assert (B1 : (Qr * INR n * (999 / 1000) <= Tr)%R) by nra.
      assert (B2 : (Nr <= INR n * (1001 / 1000))%R) by nra.
      assert (B3 : (Tr < 2 * vr * (INR n * (1001 / 1000)))%R) by nra.
      assert (B4 : (Qr * (999 / 1000) < 2 * vr * (1001 / 1000))%R).
      { apply Rmult_lt_reg_r with (INR n); [lra |]. nra. }
      assert (B5 : (vr < sr * sr * (1001 / 1000))%R) by nra.
      assert (B6 : (a * a < (29 / 10 * sr) * (29 / 10 * sr))%R) by nra.
      destruct (Rle_lt_dec a (29 / 10 * sr)) as [| Hc]; [assumption |].
      exfalso. assert (0 < 29 / 10 * sr)%R by lra. nra. }
    pose proof (SFdiv_upper sa md ms ed es Hle) as Hup.
    revert Vz.
    destruct (SF64div (S754_finite sa md ed) (S754_finite false ms es))
      as [sz | sz | | sz mz ez]; try contradiction.
    * reflexivity.
    * intros Vz. now apply ltb_3_false.
Qed.

(** Conversely, when the deviation is not zero but its square underflows
    to zero, the standard deviation is zero and the z-score infinite. *)
Lemma equal_cells_underflow (x m : float) (n : nat) :
  (2 <= n)%nat -> (Z.of_nat n < 2 ^ 53)%Z ->
  is_zero (m - x) = false -> is_zero ((m - x) * (m - x)) = true ->
  (3 <? abs ((x - m)
             / PrimFloat.sqrt
                 (Float64.sum (repeat ((m - x) * (m - x)) n)
                  / (Float64.of_nat n - 1)))) = true.
Proof.
intros H2 Hn Hd Hq.
destruct (count_less_one n H2 Hn) as (mN & eN & EN & _).
assert (Hne : repeat ((m - x) * (m - x)) n <> []) by (apply repeat_ne; lia).
set (q := (m - x) * (m - x)) in *.
rewrite ltb_spec, abs_spec, !div_spec, sqrt_spec, !div_spec, EN.
assert (Eabs : SFabs (Prim2SF (x - m)) = SFabs (Prim2SF (m - x)))
  by (rewrite !sub_spec; apply SFsub_abs).
assert (Eq : Prim2SF q = SF64mul (Prim2SF (m - x)) (Prim2SF (m - x)))
  by (subst q; apply mul_spec).
rewrite is_zero_iff in Hd, Hq.
destruct (Prim2SF (m - x)) as [sd | sd | | sd md ed] eqn:ED;
  try discriminate Hd.
- rewrite Eq in Hq. destruct sd; discriminate Hq.
- rewrite Eq in Hq. discriminate Hq.
- pose proof (SFmul_square sd md ed) as Hsq. rewrite <- Eq in Hsq.
  destruct (Prim2SF q) as [sq | sq | | sq mq eq] eqn:EQ;
    try discriminate Hq.
  subst sq.
  assert (ET : Prim2SF (Float64.sum (repeat q n)) = S754_zero false).
  { apply (sum_closed_ne (fun f => Prim2SF f = S754_zero false)).
    - intros a b Ha Hb. now rewrite add_spec, Ha, Hb.
    - exact Hne.
    - apply Forall_repeat. exact EQ. }
  rewrite ET.
  destruct (Prim2SF (x - m)) as [sa | sa | | sa ma ea];
    try discriminate Eabs.
  now destruct sa.
Qed.

(** ** Equal cells: when the squared deviation cannot underflow *)

Lemma ge_sum_repeat (Q : R) (q : float) (n : nat) :
  (0 <= Q)%R -> reaches Q q -> (1 <= n)%nat -> (Z.of_nat n <= 2 ^ 45)%Z ->
  ge_sum Q (Float64.sum (repeat q n)) n 65.
Proof.
intros HQ Hq H1 Hn.
rewrite sum_ne by (apply repeat_ne; exact H1). rewrite repeat_length.
destruct (Nat.le_gt_cases n 128) as [Hs | Hb].
- apply (ge_sum_mono Q HQ _ _ (26 + 0)); [lia |].
  pose proof (ge_pairwise Q HQ 0 n (repeat q n)) as G.
  rewrite repeat_length in G.
  apply G; [simpl; lia | lia | now apply Forall_repeat].
- apply (ge_sum_mono Q HQ _ _ (26 + 39)); [lia |].
  pose proof (ge_pairwise Q HQ 39 n (repeat q n)) as G.
  rewrite repeat_length in G.
  apply G; [| lia | now apply Forall_repeat].
  change (112 * 2 ^ Z.of_nat 39 + 16)%Z with 61572651155472%Z. lia.
Qed.

(** Equal cells of at least 2^-480: the deviation of their computed mean
    is zero, or large enough for its square not to underflow. *)
Lemma equal_cells_no_underflow (x : float) (n : nat) :
  (1 <= n)%nat -> (Z.of_nat n <= 2 ^ 45)%Z ->
  (0x1p-480 <=? x) = true ->
  let m := Float64.sum (repeat x n) / Float64.of_nat n in
  is_zero (m - x) = true \/ is_zero ((m - x) * (m - x)) = false.
Proof.
intros H1 Hn Hx m. pose proof u_bounds as Hu.
destruct (of_nat_pos n H1 ltac:(lia)) as (mN & eN & EN & HN).
assert (Hne : repeat x n <> []) by (apply repeat_ne; exact H1).
assert (Em : Prim2SF m
             = SF64div (Prim2SF (Float64.sum (repeat x n)))
                       (S754_finite false mN eN)).
{ subst m. now rewrite div_spec, EN. }
pose proof (Prim2SF_valid m) as Vm.
pose proof (Prim2SF_valid (Float64.sum (repeat x n))) as VT.
assert (Ed : Prim2SF (m - x) = SF64sub (Prim2SF m) (Prim2SF x))
  by apply sub_spec.
assert (Eq : Prim2SF ((m - x) * (m - x))
             = SF64mul (Prim2SF (m - x)) (Prim2SF (m - x)))
  by apply mul_spec.
rewrite !is_zero_iff, Eq, Ed.
assert (Hinf : forall mx ex, Prim2SF m = S754_infinity false ->
  Prim2SF x = S754_finite false mx ex ->
  match SF64mul (SF64sub (Prim2SF m) (Prim2SF x))
                (SF64sub (Prim2SF m) (Prim2SF x)) with
  | S754_zero _ => true | _ => false end = false).
{ intros mx ex -> ->. reflexivity. }
destruct (leb_bpow_480 x Hx) as [Ex | (mx & ex & Ex & Hex & HX)].
- (* an infinite cell *)
  right.
  assert (ET : Prim2SF (Float64.sum (repeat x n)) = S754_infinity false).
  { apply (sum_closed_ne (fun f => Prim2SF f = S754_infinity false)).
    - intros a b Ha Hb. now rewrite add_spec, Ha, Hb.
    - exact Hne.
    - apply Forall_repeat. exact Ex. }
  rewrite Em, ET, Ex. reflexivity.
- set (X := F2R (Zpos mx) ex) in *.
  assert (HXpos : (0 < X)%R) by apply F2R_pos.
  assert (Hreach : reaches X x).
  { split; [rewrite Ex; reflexivity |]. right. rewrite Ex.
    split; [reflexivity |]. cbn [B2R cond_Zopp INR]. fold X. lra. }
  pose proof (ge_sum_repeat X x n (Rlt_le _ _ HXpos) Hreach H1 Hn) as HT.
  destruct HT as [NT [ET | [FT HT]]].
  { right. apply (Hinf mx ex); [| exact Ex]. rewrite Em, ET. reflexivity. }
  assert (Hnr : (1 <= INR n)%R) by (apply (le_INR 1 n); exact H1).
  assert (E65 : INR 65 = 65%R) by (simpl; lra).
  rewrite E65 in HT. rewrite u_val in HT, HN, Hu.
  destruct (Prim2SF (Float64.sum (repeat x n))) as [sT | sT | | sT mT eT]
    eqn:EqT; try discriminate FT.
  { exfalso. cbn [B2R] in HT. nra. }
  destruct sT; [discriminate NT |]. cbn [B2R cond_Zopp] in HT.
  set (Tr := F2R (Zpos mT) eT) in *. set (Nr := F2R (Zpos mN) eN) in *.
  assert (Hhalf : (X / 2 <= Tr / Nr)%R).
  { apply Rmult_le_reg_r with Nr; [lra |].
    unfold Rdiv at 2. rewrite Rmult_assoc, Rinv_l, Rmult_1_r by lra.
    assert (B1 : (INR n * X * (999 / 1000) <= Tr)%R) by nra.
    assert (B2 : (X / 2 * Nr <= X / 2 * (INR n * (1001 / 1000)))%R).
    { apply Rmult_le_compat_l; [lra | nra]. }
    assert (B3 : (0 <= INR n * X)%R) by (apply Rmult_le_pos; lra).
    lra. }
  assert (H480 : bpow (-480) = (2 * (2 * bpow (-482)))%R).
  { replace (-480)%Z with (-482 + 1 + 1)%Z by lia. now rewrite !bpow_succ. }
  assert (Hmin : (bpow (-1074) <= Tr / Nr)%R).
  { pose proof (bpow_le (-1074) (-482) ltac:(lia)).
    pose proof (bpow_pos (-1074)). lra. }
  pose proof (SFdiv_lower mT mN eT eN VT Hmin) as Hv. fold Tr Nr in Hv.
  rewrite Em in Vm |- *.
  destruct (SF64div (S754_finite false mT eT) (S754_finite false mN eN))
    as [sm | sm | | sm mm em] eqn:Ev; try contradiction.
  { subst sm. right. rewrite Ex. reflexivity. }
  destruct Hv as [-> Hv].
  set (M := F2R (Zpos mm) em) in *.
  assert (HM : (bpow (-482) < M)%R) by lra.
  assert (Hem : (-534 <= em)%Z).
  { destruct (valid_exponent _ _ _ Vm) as (_ & Hd & _).
    pose proof (F2R_digits mm em) as [_ Hup]. fold M in Hup.
    assert (Hlt : (bpow (-482) < bpow (Zpos (digits2_pos mm) + em))%R) by lra.
    apply bpow_lt_inv in Hlt. lia. }
  rewrite Ex.
  pose proof (SFsub_granular mm mx em ex (-534)%Z ltac:(lia) Hem ltac:(lia))
    as Hs.
  destruct (SF64sub (S754_finite false mm em) (S754_finite false mx ex))
    as [sd | sd | | sd md ed]; try contradiction.
  + now left.
  + right. now destruct sd.
  + right.
    assert (Hd : (bpow (-537) <= F2R (Zpos md) ed)%R).
    { eapply Rle_trans; [| exact Hs].
      assert (E534 : bpow (-534) = (2 * (2 * (2 * bpow (-537))))%R).
      { replace (-534)%Z with (-537 + 1 + 1 + 1)%Z by lia.
        now rewrite !bpow_succ. }
      pose proof (bpow_pos (-537)). rewrite E534, u_val. lra. }
    pose proof (SFmul_square_nonzero sd md ed Hd) as Hq.
    destruct (SF64mul (S754_finite sd md ed) (S754_finite sd md ed));
      [contradiction | reflexivity | reflexivity | reflexivity].
Qed.

End RoundingFacts.

(** ** Outlier detection without spread *)

Lemma std_small (l : list float) :
  (List.length l < 2)%nat -> Float64.std l = nan.
Proof.
intros H. unfold Float64.std, Float64.var.
pose proof (count_le_length l) as Hc.
destruct (Nat.leb_spec (Float64.count l) 1) as [_ | H']; [reflexivity | lia].
Qed.

Lemma z_scores_small (l : list float) :
  (List.length l < 2)%nat ->
  forall z, In z (z_scores l) -> is_nan z = true.
Proof.
intros H z Hz. unfold z_scores in Hz.
apply in_map_iff in Hz. destruct Hz as [x [<- Hx]].
rewrite (std_small l H). now apply div_nan_r.
Qed.

Lemma outliers_none (l : list float) :
  (forall z, In z (z_scores l) -> (3 <? abs z)%float = false) ->
  outliers l = 0%nat.
Proof.
intros H. unfold outliers.
induction (z_scores l) as [| z zs IH]; [reflexivity |].
cbn [filter]. rewrite (H z) by now left.
apply IH. intros z' Hz'. apply H. now right.
Qed.

Lemma outliers_all (l : list float) :
  (forall z, In z (z_scores l) -> (3 <? abs z)%float = true) ->
  outliers l = List.length l.
Proof.
intros H. unfold outliers.
rewrite <- (length_map (fun x => ((x - Float64.mean l) / Float64.std l)%float) l).
fold (z_scores l).
induction (z_scores l) as [| z zs IH]; [reflexivity |].
cbn [filter]. rewrite (H z) by now left.
cbn [List.length]. f_equal. apply IH. intros z' Hz'. apply H. now right.
Qed.

Lemma equal_cells_repeat (x : float) (l : list float) :
  (forall y, In y l -> y = x) -> l = repeat x (List.length l).
Proof.
intros H. induction l as [| y l IH]; [reflexivity |].
cbn [List.length repeat]. rewrite (H y) by now left.
f_equal. apply IH. intros z Hz. apply H. now right.
Qed.

Lemma count_repeat (x : float) (n : nat) :
  is_nan x = false -> Float64.count (repeat x n) = n.
Proof.
intros H. rewrite count_full, repeat_length; [reflexivity |].
intros y Hy. now rewrite (repeat_spec _ _ _ Hy).
Qed.

(** The mean of [n] equal cells: their pairwise sum, divided by [n]. *)
Lemma mean_repeat (x : float) (n : nat) :
  is_nan x = false -> (1 <= n)%nat ->
  Float64.mean (repeat x n)
  = (Float64.sum (repeat x n) / Float64.of_nat n)%float.
Proof.
intros Hx Hn. unfold Float64.mean, Float64.nansum.
rewrite (count_repeat x n Hx).
destruct (Nat.ltb_spec 0 n) as [_ | H]; [| lia].
now rewrite map_repeat, (fillna0_id x Hx).
Qed.

(** The standard deviation of [n] equal cells, in terms of their computed
    mean. *)
Lemma std_repeat (x : float) (n : nat) :
  is_nan x = false -> (2 <= n)%nat ->
  Float64.std (repeat x n)
  = PrimFloat.sqrt
      (Float64.sum
         (repeat ((Float64.mean (repeat x n) - x)
                  * (Float64.mean (repeat x n) - x))%float n)
       / (Float64.of_nat n - 1))%float.
Proof.
intros Hx Hn. unfold Float64.std, Float64.var, Float64.mean.
rewrite (count_repeat x n Hx).
destruct (Nat.leb_spec n 1) as [H | _]; [lia |].
destruct (Nat.ltb_spec 0 n) as [_ | H]; [| lia].
cbv zeta. rewrite map_repeat, Hx. reflexivity.
Qed.

Lemma positive_not_nan (x : float) : (0 <? x)%float = true -> is_nan x = false.
Proof.
rewrite ltb_spec. destruct (is_nan x) eqn:E; [| reflexivity].
rewrite is_nan_spec in E. destruct (Prim2SF x); try discriminate E.
discriminate.
Qed.

Lemma rev_data_not_nan (df : DataFrame) (x : float) :
  In x (rev_data df) -> is_nan x = false.
Proof.
intros H. apply positive_not_nan. unfold rev_data in H.
apply filter_In in H. exact (proj2 H).
Qed.

(** Equal cells give no z-score above 3 when they are at least 2^-480, and
    more generally unless the squared deviation of their computed mean
    underflows to zero. *)
Lemma z_scores_equal_cells (x : float) (l : list float) :
  is_nan x = false ->
  (forall y, In y l -> y = x) ->
  (2 <= List.length l)%nat -> (Z.of_nat (List.length l) <= 2 ^ 45)%Z ->
  (0x1p-480 <=? x)%float = true \/
  is_zero (Float64.mean l - x) = true \/
  is_zero ((Float64.mean l - x) * (Float64.mean l - x)) = false ->
  forall z, In z (z_scores l) -> (3 <? abs z)%float = false.
Proof.
intros Hx Hl H2 Hn Hm z Hz.
rewrite (equal_cells_repeat x l Hl) in Hm, Hz.
set (n := List.length l) in *.
unfold z_scores in Hz. apply in_map_iff in Hz. destruct Hz as [y [<- Hy]].
rewrite (repeat_spec _ _ _ Hy), (std_repeat x n Hx H2).
apply RoundingFacts.equal_cells_z; [exact H2 | exact Hn |].
destruct Hm as [Hm | Hm]; [| exact Hm].
rewrite (mean_repeat x n Hx) by lia.
apply RoundingFacts.equal_cells_no_underflow; [lia | exact Hn | exact Hm].
Qed.

(** Conversely, when the deviation of the computed mean is not zero and its
    square underflows to zero, every z-score is infinite. *)
Lemma z_scores_underflow (x : float) (l : list float) :
  is_nan x = false ->
  (forall y, In y l -> y = x) ->
  (2 <= List.length l)%nat -> (Z.of_nat (List.length l) < 2 ^ 53)%Z ->
  is_zero (Float64.mean l - x) = false ->
  is_zero ((Float64.mean l - x) * (Float64.mean l - x)) = true ->
  forall z, In z (z_scores l) -> (3 <? abs z)%float = true.
Proof.
intros Hx Hl H2 Hn Hd Hq z Hz.
rewrite (equal_cells_repeat x l Hl) in Hd, Hq, Hz.
set (n := List.length l) in *.
unfold z_scores in Hz. apply in_map_iff in Hz. destruct Hz as [y [<- Hy]].
rewrite (repeat_spec _ _ _ Hy), (std_repeat x n Hx H2).
now apply RoundingFacts.equal_cells_underflow.
Qed.

(** C6, as amended.  When fewer than two records have a positive revenue
    (every z-score is then NaN), or when the positive revenues, at most
    2^45 of them, are all equal to some x that is at least 2^-480 or, more
    generally, such that the square of the deviation of their computed mean
    from x does not underflow to zero (the deviation is zero, or its square
    is not), no z-score exceeds 3 in absolute value, the outlier check
    emits nothing, and no issue of the report is an INFO issue. *)
Theorem no_outlier_without_spread : forall df : DataFrame,
  (List.length (rev_data df) < 2)%nat \/
  (exists x : float,
     (forall y, In y (rev_data df) -> y = x) /\
     (Z.of_nat (List.length (rev_data df)) <= 2 ^ 45)%Z /\
     ((0x1p-480 <=? x)%float = true \/
      is_zero (Float64.mean (rev_data df) - x) = true \/
      is_zero ((Float64.mean (rev_data df) - x)
               * (Float64.mean (rev_data df) - x)) = false)) ->
  (forall z, In z (z_scores (rev_data df)) -> (3 <? abs z)%float = false) /\
  ((List.length (rev_data df) < 2)%nat ->
   forall z, In z (z_scores (rev_data df)) -> is_nan z = true) /\
  outliers (rev_data df) = 0%nat /\
  check_outliers df = [] /\
  (forall s, In s (run_checks df) -> String.prefix "INFO" s = false).
Proof.
intros df H.
assert (Hz : forall z, In z (z_scores (rev_data df)) ->
                       (3 <? abs z)%float = false).
{ destruct (Nat.lt_ge_cases (List.length (rev_data df)) 2) as [Hs | Hb].
  - intros z Hz. apply ltb_nan_r, abs_nan. now apply (z_scores_small _ Hs).
  - destruct H as [H | [x [Hl [Hn Hm]]]]; [lia |].
    apply (z_scores_equal_cells x); try assumption.
    destruct (rev_data df) as [| y l] eqn:E; [simpl in Hb; lia |].
    assert (Hy : In y (rev_data df)) by (rewrite E; now left).
    rewrite <- (Hl y) by (rewrite <- E; exact Hy).
    now apply (rev_data_not_nan df). }
pose proof (outliers_none _ Hz) as Ho.
assert (Hc : check_outliers df = []).
{ unfold check_outliers. revert Ho.
  destruct (rev_data df) as [| x l]; [reflexivity | now intros ->]. }
split; [exact Hz |]. split; [apply z_scores_small |].
split; [exact Ho |]. split; [exact Hc |].
intros s Hs. unfold run_checks in Hs.
destruct (check_ctr df ++ check_neg df ++ check_nulls df ++ check_outliers df)
  as [| i l] eqn:E.
- destruct Hs as [<- | []]. reflexivity.
- rewrite <- E in Hs.
  destruct (issue_severity df s Hs) as [P | [P | [_ P]]].
  + apply prefix_head_eq in P. destruct P as [s' ->].
    apply prefix_head_neq. discriminate.
  + apply prefix_head_eq in P. destruct P as [s' ->].
    apply prefix_head_neq. discriminate.
  + rewrite Hc in P. contradiction.
Qed.

(** A single positive revenue; three revenues of 0.1, whose computed mean
    is one unit in the last place above 0.1 and whose z-scores are about
    -0.82; and three revenues of 2^-600, whose computed mean is 2^-600. *)
Lemma no_outlier_without_spread_witness :
  let row := fun v => mkRow 0 1 "Mobile" "Email" 5 100 1 v 1 "P" "Tech" "C" "A" in
  let d1 := [row 10%float] in
  let d2 := [row 0x1.999999999999ap-4%float; row 0x1.999999999999ap-4%float;
             row 0x1.999999999999ap-4%float] in
  let d3 := [row 0x1p-600%float; row 0x1p-600%float; row 0x1p-600%float] in
  ((List.length (rev_data d1) < 2)%nat /\ check_outliers d1 = [] /\
   run_checks d1 = ["PASSED: All data quality checks passed."%string]) /\
  (Float64.mean (rev_data d2) = 0x1.999999999999bp-4%float /\
   Float64.std (rev_data d2) = 0x1.3988e1409212ep-56%float /\
   check_outliers d2 = [] /\
   forall s, In s (run_checks d2) -> String.prefix "INFO" s = false) /\
  (Float64.mean (rev_data d3) = 0x1p-600%float /\ check_outliers d3 = []).
Proof.
intros row d1 d2 d3. split; [| split].
- assert (H : (List.length (rev_data d1) < 2)%nat)
    by (apply Nat.ltb_lt; reflexivity).
  split; [exact H |]. split; [| reflexivity].
  exact (proj1 (proj2 (proj2 (proj2
           (no_outlier_without_spread d1 (or_introl H)))))).
- split; [reflexivity |]. split; [reflexivity |].
  assert (H : exists x : float,
     (forall y, In y (rev_data d2) -> y = x) /\
     (Z.of_nat (List.length (rev_data d2)) <= 2 ^ 45)%Z /\
     ((0x1p-480 <=? x)%float = true \/
      is_zero (Float64.mean (rev_data d2) - x) = true \/
      is_zero ((Float64.mean (rev_data d2) - x)
               * (Float64.mean (rev_data d2) - x)) = false)).
  { exists 0x1.999999999999ap-4%float. split.
    - intros y [<- | [<- | [<- | []]]]; reflexivity.
    - split; [vm_compute; discriminate | left; reflexivity]. }
  split.
  + exact (proj1 (proj2 (proj2 (proj2
             (no_outlier_without_spread d2 (or_intror H)))))).
  + exact (proj2 (proj2 (proj2 (proj2
             (no_outlier_without_spread d2 (or_intror H)))))).
- split; [reflexivity |].
  refine (proj1 (proj2 (proj2 (proj2
            (no_outlier_without_spread d3 (or_intror _)))))).
  exists 0x1p-600%float. split.
  + intros y [<- | [<- | [<- | []]]]; reflexivity.
  + split; [vm_compute; discriminate | right; left; reflexivity].
Defined.

(** C6, as stated, fails.  Three equal positive revenues
    x = 0x1.999999999999ap-504 (that is 0.1 * 2^-500): their computed mean
    (x + x + x) / 3 is one unit in the last place above x, the squared
    deviations underflow to 0, the standard deviation is 0 and every
    z-score is -infinity, so three outliers are reported.  Ten equal
    revenues 0x1.d129d43a08f06p-504, summed pairwise: the computed mean is
    below them, the standard deviation is again 0, every z-score is
    +infinity and ten outliers are reported. *)
Lemma equal_revenues_counterexample :
  let x := 0x1.999999999999ap-504%float in
  let row := mkRow 0 1 "Mobile" "Email" 5 100 1 x 1 "P" "Tech" "C" "A" in
  let x' := 0x1.d129d43a08f06p-504%float in
  let row' := mkRow 0 1 "Mobile" "Email" 5 100 1 x' 1 "P" "Tech" "C" "A" in
  (rev_data [row; row; row] = [x; x; x] /\
   Float64.mean (rev_data [row; row; row]) = 0x1.999999999999bp-504%float /\
   Float64.std (rev_data [row; row; row]) = 0%float /\
   z_scores (rev_data [row; row; row])
     = [neg_infinity; neg_infinity; neg_infinity] /\
   run_checks [row; row; row]
     = ["INFO: Detected 3 revenue outliers (>3 Std Dev)."%string]) /\
  (rev_data (repeat row' 10) = repeat x' 10 /\
   (Float64.mean (rev_data (repeat row' 10)) <? x')%float = true /\
   Float64.std (rev_data (repeat row' 10)) = 0%float /\
   z_scores (rev_data (repeat row' 10)) = repeat infinity 10 /\
   run_checks (repeat row' 10)
     = ["INFO: Detected 10 revenue outliers (>3 Std Dev)."%string]).
Proof. repeat split. Qed.

(** The exception of the amended C6 is exact: when the positive revenues,
    at least two, are all equal to some x, the deviation of their computed
    mean from x is not zero and its square underflows to zero, every one of
    them is counted as an outlier and the INFO issue is reported. *)
Lemma outliers_on_underflow (df : DataFrame) (x : float) :
  (forall y, In y (rev_data df) -> y = x) ->
  (2 <= List.length (rev_data df))%nat ->
  (Z.of_nat (List.length (rev_data df)) < 2 ^ 53)%Z ->
  is_zero (Float64.mean (rev_data df) - x) = false ->
  is_zero ((Float64.mean (rev_data df) - x)
           * (Float64.mean (rev_data df) - x)) = true ->
  outliers (rev_data df) = List.length (rev_data df) /\
  check_outliers df = [msg_outliers (List.length (rev_data df))] /\
  In (msg_outliers (List.length (rev_data df))) (run_checks df).
Proof.
intros Hl H2 Hn Hd Hq.
assert (Hx : is_nan x = false).
{ destruct (rev_data df) as [| y l] eqn:E; [simpl in H2; lia |].
  assert (Hy : In y (rev_data df)) by (rewrite E; now left).
  rewrite <- (Hl y) by (rewrite <- E; exact Hy).
  now apply (rev_data_not_nan df). }
pose proof (outliers_all _ (z_scores_underflow x _ Hx Hl H2 Hn Hd Hq)) as Ho.
assert (Hc : check_outliers df = [msg_outliers (List.length (rev_data df))]).
{ unfold check_outliers. revert Ho.
  destruct (rev_data df) as [| y l]; [simpl in H2; lia |].
  now intros ->. }
split; [exact Ho |]. split; [exact Hc |].
rewrite run_checks_issues.
- rewrite Hc. apply in_or_app. right. apply in_or_app. right.
  apply in_or_app. right. now left.
- rewrite Hc. destruct (check_ctr df); [| discriminate].
  destruct (check_neg df); [| discriminate].
  destruct (check_nulls df); discriminate.
Qed.

(** * The overall KPIs *)

(** X6. The overall CTR is the float64 quotient of the click total by the
    impression total when the int64 impression total is positive, and 0.0
    otherwise; it is never NaN, and it is not negative when the click total
    is not. *)
Theorem overall_ctr : forall df : DataFrame,
  CTR (fst (calculate_kpis df))
    = (if 0 <? Int64.sum (map impressions df)
       then (Int64.to_float (Int64.sum (map clicks df))
             / Int64.to_float (Int64.sum (map impressions df)))%float
       else 0%float) /\
  is_nan (CTR (fst (calculate_kpis df))) = false /\
  (0 <= Int64.sum (map clicks df) ->
   (CTR (fst (calculate_kpis df)) <? 0)%float = false).
Proof.
intros df. cbn [calculate_kpis fst CTR agg_metrics m_clicks m_impressions].
repeat split.
- unfold safe_div. now rewrite to_float_pos, sum_wrapped.
- apply safe_div_not_nan, to_float_finite.
- intros H. apply safe_div_not_negative.
  rewrite to_float_neg, sum_wrapped. now apply Z.ltb_ge.
Qed.

(** X7. When the totals of orders, revenue and commission are finite, none
    of the five overall KPIs is NaN. *)
Theorem overall_kpis_not_nan : forall df : DataFrame,
  is_finite (m_orders (snd (calculate_kpis df))) = true ->
  is_finite (m_revenue (snd (calculate_kpis df))) = true ->
  is_finite (m_commission_paid (snd (calculate_kpis df))) = true ->
  is_nan (CTR (fst (calculate_kpis df))) = false /\
  is_nan (Conversion_Rate (fst (calculate_kpis df))) = false /\
  is_nan (EPC (fst (calculate_kpis df))) = false /\
  is_nan (AOV (fst (calculate_kpis df))) = false /\
  is_nan (ROI (fst (calculate_kpis df))) = false.
Proof.
intros df. cbn [calculate_kpis fst snd CTR Conversion_Rate EPC AOV ROI].
set (m := agg_metrics df). intros Ho Hr Hc.
repeat split; try (now apply safe_div_not_nan).
- apply safe_div_not_nan, to_float_finite.
- unfold safe_div. destruct (0 <? m_commission_paid m)%float eqn:E;
    [| reflexivity].
  apply div_pos_finite; try assumption.
  rewrite is_nan_spec, sub_spec. apply SF64sub_not_nan;
    now rewrite <- is_finite_spec.
Qed.

(** Two records with revenue 20 and 30, commission 4 and 6. *)
Lemma overall_kpis_not_nan_witness :
  let df := [mkRow 0 1 "Mobile" "Email" 5 100 1 20 4 "P" "Tech" "C" "A";
             mkRow 1 1 "Mobile" "Email" 7 200 2 30 6 "P" "Tech" "C" "A"] in
  is_finite (m_orders (snd (calculate_kpis df))) = true /\
  is_finite (m_revenue (snd (calculate_kpis df))) = true /\
  is_finite (m_commission_paid (snd (calculate_kpis df))) = true /\
  is_nan (ROI (fst (calculate_kpis df))) = false.
Proof.
intros df.
assert (Ho : is_finite (m_orders (snd (calculate_kpis df))) = true)
  by reflexivity.
assert (Hr : is_finite (m_revenue (snd (calculate_kpis df))) = true)
  by reflexivity.
assert (Hc : is_finite (m_commission_paid (snd (calculate_kpis df))) = true)
  by reflexivity.
split; [exact Ho | split; [exact Hr | split; [exact Hc |]]].
destruct (overall_kpis_not_nan df Ho Hr Hc) as (_ & _ & _ & _ & H). exact H.
Defined.

(** X8. When the click total and the totals of orders and revenue are not
    negative, none of CTR, Conversion_Rate, EPC and AOV is negative. *)
Theorem overall_ratios_not_negative : forall df : DataFrame,
  0 <= Int64.sum (map clicks df) ->
  (m_orders (snd (calculate_kpis df)) <? 0)%float = false ->
  (m_revenue (snd (calculate_kpis df)) <? 0)%float = false ->
  (CTR (fst (calculate_kpis df)) <? 0)%float = false /\
  (Conversion_Rate (fst (calculate_kpis df)) <? 0)%float = false /\
  (EPC (fst (calculate_kpis df)) <? 0)%float = false /\
  (AOV (fst (calculate_kpis df)) <? 0)%float = false.
Proof.
intros df Hc. cbn [calculate_kpis fst snd CTR Conversion_Rate EPC AOV].
intros Ho Hr.
repeat split; apply safe_div_not_negative; try assumption.
cbn [agg_metrics m_clicks]. rewrite to_float_neg, sum_wrapped.
now apply Z.ltb_ge.
Qed.

Lemma overall_ratios_not_negative_witness :
  let df := [mkRow 0 1 "Mobile" "Email" 5 100 1 20 4 "P" "Tech" "C" "A";
             mkRow 1 1 "Mobile" "Email" 7 200 2 30 6 "P" "Tech" "C" "A"] in
  0 <= Int64.sum (map clicks df) /\
  (m_orders (snd (calculate_kpis df)) <? 0)%float = false /\
  (m_revenue (snd (calculate_kpis df)) <? 0)%float = false /\
  (EPC (fst (calculate_kpis df)) <? 0)%float = false.
Proof.
intros df.
assert (Hc : 0 <= Int64.sum (map clicks df)) by (vm_compute; discriminate).
assert (Ho : (m_orders (snd (calculate_kpis df)) <? 0)%float = false)
  by reflexivity.
assert (Hr : (m_revenue (snd (calculate_kpis df)) <? 0)%float = false)
  by reflexivity.
split; [exact Hc | split; [exact Ho | split; [exact Hr |]]].
destruct (overall_ratios_not_negative df Hc Ho Hr) as (_ & _ & H & _). exact H.
Defined.

(** * Further properties of the grouped frames *)

(** X9. Neither grouped frame ever holds a NaN cell: the sums and the
    ratios are all passed through [fillna(0)]. *)
Theorem grouped_frames_no_nan : forall df : DataFrame,
  Forall (Forall (fun nc => match snd nc with
                            | CFloat f => is_nan f = false
                            | _ => True
                            end))
         (get_partner_performance df) /\
  Forall (Forall (fun nc => match snd nc with
                            | CFloat f => is_nan f = false
                            | _ => True
                            end))
         (get_campaign_performance df).
Proof.
intros df. split; apply Forall_forall; intros row H.
- apply partner_table_rows in H. destruct H as [g [_ ->]].
  repeat constructor; cbn [snd Frame.fillna_cell]; apply fillna0_not_nan.
- apply campaign_table_rows in H. destruct H as [g [_ ->]].
  repeat constructor; cbn [snd Frame.fillna_cell]; apply fillna0_not_nan.
Qed.

Lemma campaign_int_column (name : string) (f : Sums -> Z) (df : DataFrame) :
  (forall g, Frame.lookup name
               (map (fun nc => (fst nc, Frame.fillna_cell (snd nc)))
                    (campaign_row g)) = Some (CInt (f (snd g)))) ->
  Frame.int_column name (get_campaign_performance df)
  = map (fun k => f (agg_sum (group_rows campaign_key k df)))
        (group_keys (map campaign_key df)).
Proof.
intros H.
unfold get_campaign_performance, Frame.fillna0, Frame.int_column, groupby_agg.
rewrite !map_map.
apply (flat_map_single _ _
         (fun k => f (agg_sum (group_rows campaign_key k df)))).
intros k. now rewrite H.
Qed.

(** X10. The impressions and clicks columns of the campaign frame sum
    (in int64 arithmetic) to the totals over the input frame, hence to the
    same totals as the columns of the partner frame. *)
Theorem campaign_int_totals : forall df : DataFrame,
  Int64.sum (Frame.int_column "impressions" (get_campaign_performance df))
    = Int64.sum (map impressions df) /\
  Int64.sum (Frame.int_column "clicks" (get_campaign_performance df))
    = Int64.sum (map clicks df) /\
  Int64.sum (Frame.int_column "impressions" (get_campaign_performance df))
    = Int64.sum (Frame.int_column "impressions" (get_partner_performance df)) /\
  Int64.sum (Frame.int_column "clicks" (get_campaign_performance df))
    = Int64.sum (Frame.int_column "clicks" (get_partner_performance df)).
Proof.
intros df.
assert (Hi : Int64.sum (Frame.int_column "impressions"
                          (get_campaign_performance df))
             = Int64.sum (map impressions df)).
{ rewrite (campaign_int_column "impressions" s_impressions)
    by (intros g; reflexivity).
  apply (groupby_int_total campaign_key impressions). }
assert (Hc : Int64.sum (Frame.int_column "clicks"
                          (get_campaign_performance df))
             = Int64.sum (map clicks df)).
{ rewrite (campaign_int_column "clicks" s_clicks) by (intros g; reflexivity).
  apply (groupby_int_total campaign_key clicks). }
assert (Pi : Int64.sum (Frame.int_column "impressions"
                          (get_partner_performance df))
             = Int64.sum (map impressions df)).
{ rewrite (partner_int_column "impressions" s_impressions)
    by (intros g; reflexivity).
  apply (groupby_int_total partner_key impressions). }
assert (Pc : Int64.sum (Frame.int_column "clicks"
                          (get_partner_performance df))
             = Int64.sum (map clicks df)).
{ rewrite (partner_int_column "clicks" s_clicks) by (intros g; reflexivity).
  apply (groupby_int_total partner_key clicks). }
repeat split; congruence.
Qed.

Lemma partner_row_of_key (df : DataFrame) (k : key) :
  In k (map partner_key df) ->
  In (map (fun nc => (fst nc, Frame.fillna_cell (snd nc)))
          (partner_row (k, agg_sum (group_rows partner_key k df))))
     (get_partner_performance df).
Proof.
intros Hk. apply partner_table_rows. eexists. split; [| reflexivity].
apply groupby_agg_In. split; [exact Hk | reflexivity].
Qed.

Lemma is_zero_spec (x : float) :
  is_zero x = true -> sf_zero_or_nan (Prim2SF x) = true.
Proof.
unfold is_zero. rewrite eqb_spec.
change (Prim2SF zero) with (S754_zero false). unfold SFeqb.
destruct (Prim2SF x) as [s | s | | s m e]; simpl; try reflexivity;
  destruct s; discriminate.
Qed.

Lemma is_zero_form (x : float) :
  is_zero x = true -> exists s, Prim2SF x = S754_zero s.
Proof.
unfold is_zero. rewrite eqb_spec.
change (Prim2SF zero) with (S754_zero false). unfold SFeqb.
destruct (Prim2SF x) as [s | s | | s m e]; simpl; try discriminate;
  try (destruct s; discriminate). eauto.
Qed.

Lemma fillna0_vanishing (x y : float) :
  sf_zero_or_nan (Prim2SF x) = true -> sf_zero_or_nan (Prim2SF y) = true ->
  Float64.fillna0 (x / y) = 0%float.
Proof.
intros Hx Hy. unfold Float64.fillna0.
now rewrite (div_vanishing_nan x y Hx Hy).
Qed.

(** X11. A partner group without any activity (no impressions, no clicks,
    and zero totals of orders, revenue and commission) is reported with all
    five ratios equal to 0, and therefore appears among the partners with
    ROI < 1.0 listed by the report and by the dashboard. *)
Theorem idle_group_is_underperformer : forall (df : DataFrame) (k : key),
  In k (map partner_key df) ->
  s_impressions (agg_sum (group_rows partner_key k df)) = 0 ->
  s_clicks (agg_sum (group_rows partner_key k df)) = 0 ->
  is_zero (s_orders (agg_sum (group_rows partner_key k df))) = true ->
  is_zero (s_revenue (agg_sum (group_rows partner_key k df))) = true ->
  is_zero (s_commission_paid (agg_sum (group_rows partner_key k df))) = true ->
  exists row,
    In row (get_partner_performance df) /\
    Frame.lookup "partner_name" row = Some (CText (fst k)) /\
    Frame.lookup "vertical" row = Some (CText (snd k)) /\
    Frame.float_at "CTR" row = Some 0%float /\
    Frame.float_at "Conversion_Rate" row = Some 0%float /\
    Frame.float_at "EPC" row = Some 0%float /\
    Frame.float_at "AOV" row = Some 0%float /\
    Frame.float_at "ROI" row = Some 0%float /\
    In row (Select.below "ROI" 1 (get_partner_performance df)) /\
    In row (low_roi (get_partner_performance df)) /\
    ~ In row (high_roi (get_partner_performance df)).
Proof.
intros df k Hk Hi Hc Ho Hr Hm.
pose proof (partner_row_of_key df k Hk) as Hrow.
set (s := agg_sum (group_rows partner_key k df)) in *.
assert (Zi : sf_zero_or_nan (Prim2SF (Int64.to_float (s_impressions s))) = true)
  by (rewrite Hi; reflexivity).
assert (Zc : sf_zero_or_nan (Prim2SF (Int64.to_float (s_clicks s))) = true)
  by (rewrite Hc; reflexivity).
pose proof (is_zero_spec _ Ho) as Zo.
pose proof (is_zero_spec _ Hr) as Zr.
pose proof (is_zero_spec _ Hm) as Zm.
assert (Zd : sf_zero_or_nan
               (Prim2SF (s_revenue s - s_commission_paid s)%float) = true).
{ rewrite sub_spec.
  destruct (is_zero_form _ Hr) as [s1 ->], (is_zero_form _ Hm) as [s2 ->].
  now destruct s1, s2. }
assert (E5 : Frame.float_at "ROI"
               (map (fun nc => (fst nc, Frame.fillna_cell (snd nc)))
                    (partner_row (k, s))) = Some 0%float).
{ cbn. unfold roi_of. now rewrite fillna0_vanishing. }
eexists. split; [exact Hrow |].
split; [reflexivity | split; [reflexivity |]].
split; [cbn; unfold ctr_of; now rewrite fillna0_vanishing |].
split; [cbn; unfold conversion_rate_of; now rewrite fillna0_vanishing |].
split; [cbn; unfold epc_of; now rewrite fillna0_vanishing |].
split; [cbn; unfold aov_of; now rewrite fillna0_vanishing |].
split; [exact E5 |].
split; [| split].
- apply filter_In. split; [exact Hrow | now rewrite E5].
- apply filter_In. split; [exact Hrow | now rewrite E5].
- intros H. apply filter_In in H. destruct H as [_ H].
  rewrite E5 in H. discriminate H.
Qed.

(** A partner whose only record has no traffic and no sale. *)
Lemma idle_group_is_underperformer_witness :
  let df := [mkRow 0 1 "Mobile" "Email" 0 0 0 0 0 "Idle" "Tech" "C" "A";
             mkRow 0 2 "Mobile" "Email" 5 100 1 20 4 "Busy" "Home" "D" "B"] in
  In ("Idle", "Tech")%string (map partner_key df) /\
  exists row,
    In row (low_roi (get_partner_performance df)) /\
    Frame.lookup "partner_name" row = Some (CText "Idle").
Proof.
intros df.
assert (Hk : In ("Idle", "Tech")%string (map partner_key df)) by (now left).
split; [exact Hk |].
destruct (idle_group_is_underperformer df ("Idle", "Tech")%string Hk
            eq_refl eq_refl eq_refl eq_refl eq_refl)
  as (row & _ & Hn & _ & _ & _ & _ & _ & _ & _ & Hlow & _).
exists row. split; [exact Hlow | exact Hn].
Defined.

Lemma to_float_sum_pos (l : list Z) :
  0 < Int64.sum l -> (0 <? Int64.to_float (Int64.sum l))%float = true.
Proof.
intros H. rewrite to_float_pos, sum_wrapped. now apply Z.ltb_lt.
Qed.

Lemma guarded_equals_filled (n d : float) :
  (0 <? d)%float = true -> is_nan (n / d)%float = false ->
  Float64.fillna0 (n / d)%float = safe_div n d.
Proof.
intros Hd Hn. unfold safe_div. rewrite Hd. now apply fillna0_id.
Qed.

(** X12. On a partner group whose totals of impressions, clicks, orders
    and commission are positive and whose float totals are finite, the two
    zero-handling strategies agree: each of the five ratios of the group's
    row in the partner frame is what [safe_div] returns on the group's
    totals, no cell being altered by the sanitising pass. *)
Theorem grouped_ratios_match_safe_div : forall (df : DataFrame) (k : key),
  In k (map partner_key df) ->
  is_finite (s_orders (agg_sum (group_rows partner_key k df))) = true ->
  is_finite (s_revenue (agg_sum (group_rows partner_key k df))) = true ->
  is_finite (s_commission_paid (agg_sum (group_rows partner_key k df)))
    = true ->
  0 < s_impressions (agg_sum (group_rows partner_key k df)) ->
  0 < s_clicks (agg_sum (group_rows partner_key k df)) ->
  (0 <? s_orders (agg_sum (group_rows partner_key k df)))%float = true ->
  (0 <? s_commission_paid (agg_sum (group_rows partner_key k df)))%float
    = true ->
  let s := agg_sum (group_rows partner_key k df) in
  exists row,
    In row (get_partner_performance df) /\
    Frame.lookup "partner_name" row = Some (CText (fst k)) /\
    Frame.lookup "vertical" row = Some (CText (snd k)) /\
    Frame.float_at "CTR" row
      = Some (safe_div (Int64.to_float (s_clicks s))
                       (Int64.to_float (s_impressions s))) /\
    Frame.float_at "Conversion_Rate" row
      = Some (safe_div (s_orders s) (Int64.to_float (s_clicks s))) /\
    Frame.float_at "EPC" row
      = Some (safe_div (s_revenue s) (Int64.to_float (s_clicks s))) /\
    Frame.float_at "AOV" row = Some (safe_div (s_revenue s) (s_orders s)) /\
    Frame.float_at "ROI" row
      = Some (safe_div (s_revenue s - s_commission_paid s)%float
                       (s_commission_paid s)).
Proof.
intros df k Hk Fo Fr Fc Pi Pc Po Pm s.
pose proof (partner_row_of_key df k Hk) as Hrow. fold s in Hrow, Fo, Fr, Fc, Pi, Pc, Po, Pm.
assert (Pi' : (0 <? Int64.to_float (s_impressions s))%float = true)
  by (apply to_float_sum_pos, Pi).
assert (Pc' : (0 <? Int64.to_float (s_clicks s))%float = true)
  by (apply to_float_sum_pos, Pc).
eexists. split; [exact Hrow |].
split; [reflexivity | split; [reflexivity |]].
cbn. unfold ctr_of, conversion_rate_of, epc_of, aov_of, roi_of. cbn [snd].
repeat split; f_equal; apply guarded_equals_filled; try assumption.
- apply div_finite_pos; [apply to_float_finite | exact Pi'].
- now apply div_finite_pos.
- now apply div_finite_pos.
- now apply div_finite_pos.
- apply div_pos_finite; try assumption.
  rewrite is_nan_spec, sub_spec. apply SF64sub_not_nan;
    now rewrite <- is_finite_spec.
Qed.

(** One group with 100 impressions, 5 clicks, 1 order, revenue 20 and
    commission 4, beside another group: its ROI is (20 - 4) / 4 = 4. *)
Lemma grouped_ratios_match_safe_div_witness :
  let df := [mkRow 0 1 "Mobile" "Email" 5 100 1 20 4 "P" "Tech" "C" "A";
             mkRow 0 2 "Mobile" "Email" 0 0 0 0 0 "Idle" "Home" "D" "B"] in
  In ("P", "Tech")%string (map partner_key df) /\
  exists row,
    In row (get_partner_performance df) /\
    Frame.float_at "ROI" row = Some 4%float.
Proof.
intros df.
assert (Hk : In ("P", "Tech")%string (map partner_key df)) by (now left).
split; [exact Hk |].
destruct (grouped_ratios_match_safe_div df ("P", "Tech")%string Hk
            eq_refl eq_refl eq_refl eq_refl eq_refl eq_refl eq_refl)
  as (row & Hrow & _ & _ & _ & _ & _ & _ & Hroi).
exists row. split; [exact Hrow |].
rewrite Hroi. reflexivity.
Defined.

(** * Independence from the order of the records *)

Lemma sorted_unique (l1 : list key) : forall l2 : list key,
  StronglySorted key_lt l1 -> StronglySorted key_lt l2 ->
  (forall x, In x l1 <-> In x l2) -> l1 = l2.
Proof.
induction l1 as [| a t1 IH]; intros [| b t2] H1 H2 Hin.
- reflexivity.
- exfalso. apply (proj2 (Hin b)). now left.
- exfalso. apply (proj1 (Hin a)). now left.
- inversion H1 as [| ? ? S1 F1]; inversion H2 as [| ? ? S2 F2]; subst.
  rewrite Forall_forall in F1, F2.
  assert (Eab : a = b).
  { destruct (proj1 (Hin a) (or_introl eq_refl)) as [E | Ha]; [now symmetry |].
    destruct (proj2 (Hin b) (or_introl eq_refl)) as [E | Hb]; [exact E |].
    exfalso. apply (key_lt_irrefl a).
    eapply key_lt_trans; [apply F1, Hb | apply F2, Ha]. }
  subst b. f_equal. apply IH; try assumption.
  intros x. split; intros Hx.
  + destruct (proj1 (Hin x) (or_intror Hx)) as [E | Hx']; [| exact Hx'].
    subst x. exfalso. exact (key_lt_irrefl a (F1 a Hx)).
  + destruct (proj2 (Hin x) (or_intror Hx)) as [E | Hx']; [| exact Hx'].
    subst x. exfalso. exact (key_lt_irrefl a (F2 a Hx)).
Qed.

Lemma group_keys_perm (ks ks' : list key) :
  Permutation ks ks' -> group_keys ks = group_keys ks'.
Proof.
intros P. apply sorted_unique; try apply group_keys_sorted.
intros x. rewrite !group_keys_In.
split; apply Permutation_in; [exact P | now apply Permutation_sym].
Qed.

Lemma int_sum_perm (l l' : list Z) :
  Permutation l l' -> Int64.sum l = Int64.sum l'.
Proof.
intros P. unfold Int64.sum. f_equal.
induction P as [| x l l' P IH | x y l | l l' l'' P1 IH1 P2 IH2].
- reflexivity.
- now rewrite !fold_add_cons, IH.
- rewrite !fold_add_cons. lia.
- congruence.
Qed.

Lemma group_rows_perm (by_ : Row -> key) (k : key) (df df' : DataFrame) :
  Permutation df df' ->
  Permutation (group_rows by_ k df) (group_rows by_ k df').
Proof.
intros P. unfold group_rows.
induction P as [| x l l' P IH | x y l | l l' l'' P1 IH1 P2 IH2]; cbn [filter].
- constructor.
- destruct (key_eqb (by_ x) k); [now constructor | exact IH].
- destruct (key_eqb (by_ x) k), (key_eqb (by_ y) k);
    try apply Permutation_refl; apply perm_swap.
- eapply Permutation_trans; eassumption.
Qed.

Lemma grouped_int_perm (by_ : Row -> key) (f : Row -> Z) (df df' : DataFrame) :
  Permutation df df' ->
  map (fun k => Int64.sum (map f (group_rows by_ k df)))
      (group_keys (map by_ df))
  = map (fun k => Int64.sum (map f (group_rows by_ k df')))
        (group_keys (map by_ df')).
Proof.
intros P. rewrite (group_keys_perm _ _ (Permutation_map by_ P)).
apply map_ext. intros k.
apply int_sum_perm, Permutation_map, group_rows_perm, P.
Qed.

(** X13. Reordering the records of the input changes neither the rows of
    the grouped frames (their keys, in order) nor their impressions and
    clicks columns. *)
Theorem grouped_frames_ignore_record_order : forall df df' : DataFrame,
  Permutation df df' ->
  Frame.key_column "partner_name" "vertical" (get_partner_performance df)
    = Frame.key_column "partner_name" "vertical"
                       (get_partner_performance df') /\
  Frame.int_column "impressions" (get_partner_performance df)
    = Frame.int_column "impressions" (get_partner_performance df') /\
  Frame.int_column "clicks" (get_partner_performance df)
    = Frame.int_column "clicks" (get_partner_performance df') /\
  Frame.key_column "campaign_name" "landing_page_variant"
                   (get_campaign_performance df)
    = Frame.key_column "campaign_name" "landing_page_variant"
                       (get_campaign_performance df') /\
  Frame.int_column "impressions" (get_campaign_performance df)
    = Frame.int_column "impressions" (get_campaign_performance df') /\
  Frame.int_column "clicks" (get_campaign_performance df)
    = Frame.int_column "clicks" (get_campaign_performance df').
Proof.
intros df df' P.
rewrite !partner_key_column, !campaign_key_column.
rewrite !(partner_int_column "impressions" s_impressions)
  by (intros g; reflexivity).
rewrite !(partner_int_column "clicks" s_clicks) by (intros g; reflexivity).
rewrite !(campaign_int_column "impressions" s_impressions)
  by (intros g; reflexivity).
rewrite !(campaign_int_column "clicks" s_clicks) by (intros g; reflexivity).
repeat split;
  try (apply group_keys_perm, Permutation_map, P);
  now apply (grouped_int_perm _ _ df df').
Qed.

(** Two records of two partners, in either order. *)
Lemma grouped_frames_ignore_record_order_witness :
  let r1 := mkRow 0 1 "Mobile" "Email" 5 100 1 20 4 "Zeta" "Tech" "Z" "B" in
  let r2 := mkRow 0 2 "Mobile" "Email" 7 200 2 30 6 "Alpha" "Home" "A" "A" in
  Permutation [r1; r2] [r2; r1] /\
  Frame.int_column "clicks" (get_partner_performance [r1; r2])
    = Frame.int_column "clicks" (get_partner_performance [r2; r1]).
Proof.
intros r1 r2.
assert (P : Permutation [r1; r2] [r2; r1]) by apply perm_swap.
split; [exact P |].
exact (proj1 (proj2 (proj2 (grouped_frames_ignore_record_order _ _ P)))).
Defined.

(** * The stakeholder report *)

Import ReportGenerator.

Lemma insert_desc_perm (col : string) (row : LabelledRow) (t : Table) :
  Permutation (Select.insert_desc col row t) (row :: t).
Proof.
induction t as [| h t IH]; cbn [Select.insert_desc]; [apply Permutation_refl |].
assert (Hrec : Permutation (h :: Select.insert_desc col row t) (row :: h :: t)).
{ eapply Permutation_trans; [apply perm_skip, IH | apply perm_swap]. }
destruct (Select.sort_key col h); [| apply Permutation_refl].
destruct (Select.sort_key col row); [| exact Hrec].
destruct (_ <=? _)%float; [apply Permutation_refl | exact Hrec].
Qed.

Lemma sort_values_desc_perm (col : string) (t : Table) :
  Permutation (Select.sort_values_desc col t) t.
Proof.
induction t as [| row t IH]; [constructor |].
cbn [Select.sort_values_desc fold_right].
eapply Permutation_trans; [apply insert_desc_perm | now apply perm_skip].
Qed.

Lemma partner_table_length (df : DataFrame) :
  List.length (get_partner_performance df)
  = List.length (group_keys (map partner_key df)).
Proof.
unfold get_partner_performance, Frame.fillna0, groupby_agg.
now rewrite !length_map.
Qed.

Lemma partner_table_NoDup (df : DataFrame) :
  NoDup (get_partner_performance df).
Proof.
unfold get_partner_performance, Frame.fillna0, groupby_agg.
rewrite !map_map.
pose proof (group_keys_NoDup (map partner_key df)) as Hnd.
induction Hnd as [| k l Hk Hnd IH]; [constructor |].
cbn [map]. constructor; [| exact IH].
intros Hin. apply in_map_iff in Hin. destruct Hin as [k' [E Hk']].
assert (k' = k); [| congruence].
cbn in E. injection E as E1 E2 _. destruct k, k'; cbn in *. congruence.
Qed.

Lemma nth_error_two_distinct {A : Type} (l : list A) (a b : A) :
  NoDup l -> nth_error l 0 = Some a -> nth_error l 1 = Some b -> a <> b.
Proof.
destruct l as [| x [| y l]]; try discriminate.
intros Hnd [= <-] [= <-] E. subst y.
inversion Hnd as [| ? ? Hx _]. apply Hx. now left.
Qed.

Lemma firstn_NoDup {A : Type} (n : nat) (l : list A) :
  NoDup l -> NoDup (firstn n l).
Proof.
revert l. induction n as [| n IH]; intros [| x l] H; try constructor.
- inversion H as [| ? ? Hx Hl]; subst. intros Hin. apply Hx.
  rewrite <- (firstn_skipn n l). apply in_or_app. now left.
- apply IH. now inversion H.
Qed.

(** X14. Whatever order [sort_values] gives to equal revenues,
    [generate_report] raises the IndexError of [iloc] exactly when the
    frame has fewer than two distinct (partner_name, vertical) groups; when
    it succeeds, its leaderboard holds the first five rows of the sorted
    partner frame (all of them when there are fewer), and the two partners
    it recommends are two different rows of the partner frame. *)
Theorem generate_report_needs_two_partners :
  forall (sort_values : string -> Table -> Table) (df : DataFrame),
  (forall c t, Permutation (sort_values c t) t) ->
  (generate_report sort_values df = None <->
   (List.length (group_keys (map partner_key df)) < 2)%nat) /\
  (forall rv, generate_report sort_values df = Some rv ->
     List.length (top_partners rv)
       = Nat.min 5 (List.length (group_keys (map partner_key df))) /\
     underperformers rv = Select.below "ROI" 1 (get_partner_performance df) /\
     In (first_pick rv) (get_partner_performance df) /\
     In (second_pick rv) (get_partner_performance df) /\
     first_pick rv <> second_pick rv).
Proof.
intros sort_values df Hperm. unfold generate_report.
set (t := get_partner_performance df).
set (top := firstn 5 (sort_values "revenue"%string t)).
assert (Hlen : List.length top
               = Nat.min 5 (List.length (group_keys (map partner_key df)))).
{ subst top. rewrite length_firstn, (Permutation_length (Hperm _ t)).
  subst t. now rewrite partner_table_length. }
assert (Hnd : NoDup top).
{ subst top. apply firstn_NoDup.
  apply (Permutation_NoDup (Permutation_sym (Hperm _ t))).
  apply partner_table_NoDup. }
assert (Hin : forall x, In x top -> In x t).
{ intros x Hx. apply (Permutation_in _ (Hperm "revenue"%string t)).
  subst top. rewrite <- (firstn_skipn 5 (sort_values _ t)).
  apply in_or_app. now left. }
split.
- destruct (nth_error top 0) as [a |] eqn:E0;
    destruct (nth_error top 1) as [b |] eqn:E1.
  + split; [discriminate |]. intros H. exfalso.
    assert (List.length top <= 1 -> False)%nat.
    { intros Hl. apply nth_error_None in Hl. congruence. }
    lia.
  + split; [intros _ | reflexivity].
    apply nth_error_None in E1. lia.
  + split; [intros _ | reflexivity].
    apply nth_error_None in E0. lia.
  + split; [intros _ | reflexivity].
    apply nth_error_None in E0. lia.
- intros rv.
  destruct (nth_error top 0) as [a |] eqn:E0; [| discriminate].
  destruct (nth_error top 1) as [b |] eqn:E1; [| discriminate].
  intros [= <-]. cbn [top_partners underperformers first_pick second_pick].
  repeat split.
  + exact Hlen.
  + apply Hin. eapply nth_error_In, E0.
  + apply Hin. eapply nth_error_In, E1.
  + exact (nth_error_two_distinct top a b Hnd E0 E1).
Qed.

(** With the stable descending sort: one partner gives the IndexError,
    two partners give a report. *)
Lemma generate_report_needs_two_partners_witness :
  let r1 := mkRow 0 1 "Mobile" "Email" 5 100 1 20 4 "Zeta" "Tech" "Z" "B" in
  let r2 := mkRow 0 2 "Mobile" "Email" 7 200 2 30 6 "Alpha" "Home" "A" "A" in
  (forall c t, Permutation (Select.sort_values_desc c t) t) /\
  generate_report Select.sort_values_desc [r1] = None /\
  generate_report Select.sort_values_desc [r1; r2] <> None.
Proof.
intros r1 r2.
pose proof (generate_report_needs_two_partners Select.sort_values_desc)
  as H.
split; [exact sort_values_desc_perm |]. split.
- apply (proj1 (H [r1] sort_values_desc_perm)). cbn. lia.
- intros E. apply (proj1 (H [r1; r2] sort_values_desc_perm)) in E.
  cbn in E. lia.
Defined.

(** * The dashboard's two ROI lists *)

Module OrderFacts.

Local Open Scope float_scope.

Lemma SFcompare_antisym (x y : spec_float) :
  SFcompare y x = match SFcompare x y with
                  | Some c => Some (CompOpp c)
                  | None => None
                  end.
Proof.
destruct x as [sx | sx | | sx mx ex]; destruct y as [sy | sy | | sy my ey];
  try reflexivity; try (destruct sx; reflexivity);
  try (destruct sy; reflexivity); try (destruct sx, sy; reflexivity).
cbn [SFcompare]. rewrite (Z.compare_antisym ey ex).
destruct sx, sy; try reflexivity;
  destruct (ey ?= ex)%Z; cbn [CompOpp]; try reflexivity;
  rewrite ?CompOpp_involutive, Pos.compare_cont_antisym; reflexivity.
Qed.

Lemma SFcompare_numbers (x y : spec_float) :
  sf_nan x = false -> sf_nan y = false -> SFcompare x y <> None.
Proof.
destruct x, y; simpl; try discriminate; intros _ _; discriminate.
Qed.

(** On numbers, "not below" is "at least". *)
Lemma not_ltb_leb (x y : float) :
  is_nan x = false -> is_nan y = false -> (x <? y) = false ->
  (y <=? x) = true.
Proof.
rewrite !is_nan_spec, ltb_spec, leb_spec. unfold SFltb, SFleb.
intros Hx Hy. rewrite (SFcompare_antisym (Prim2SF x) (Prim2SF y)).
pose proof (SFcompare_numbers _ _ Hx Hy) as Hn.
destruct (SFcompare (Prim2SF x) (Prim2SF y)) as [[| |] |];
  try reflexivity; try discriminate. congruence.
Qed.

Lemma below_1_not_above_4 (x : float) :
  (x <? 1) = true -> (4 <? x) = false.
Proof.
rewrite !ltb_spec.
change (Prim2SF 1) with (S754_finite false 4503599627370496 (-52)).
change (Prim2SF 4) with (S754_finite false 4503599627370496 (-50)).
unfold SFltb.
destruct (Prim2SF x) as [s | s | | s m e]; try discriminate;
  try (destruct s; try discriminate; reflexivity).
cbn [SFcompare]. destruct s; [reflexivity |].
destruct (Z.compare_spec e (-52)); destruct (Z.compare_spec (-50) e);
  try lia; try discriminate; reflexivity.
Qed.

End OrderFacts.

Import OrderFacts.

(** X15. Every row of the partner frame carries an ROI that is a number;
    the dashboard lists the row as underperforming exactly when ROI < 1.0
    and as high potential exactly when ROI > 4.0; no row is in both lists,
    and a row in neither has 1.0 <= ROI <= 4.0. *)
Theorem roi_lists_partition : forall df : DataFrame,
  Forall
    (fun row =>
       exists roi,
         Frame.float_at "ROI" row = Some roi /\
         is_nan roi = false /\
         (In row (low_roi (get_partner_performance df))
          <-> (roi <? 1)%float = true) /\
         (In row (high_roi (get_partner_performance df))
          <-> (4 <? roi)%float = true) /\
         ~ (In row (low_roi (get_partner_performance df)) /\
            In row (high_roi (get_partner_performance df))) /\
         (~ In row (low_roi (get_partner_performance df)) ->
          ~ In row (high_roi (get_partner_performance df)) ->
          (1 <=? roi)%float = true /\ (roi <=? 4)%float = true))
    (get_partner_performance df).
Proof.
intros df. apply Forall_forall. intros row Hrow.
destruct (proj1 (partner_table_rows df row) Hrow) as [g [_ E]].
set (roi := Float64.fillna0 (roi_of (snd g))).
assert (Hroi : Frame.float_at "ROI" row = Some roi) by (rewrite E; reflexivity).
assert (Hnan : is_nan roi = false) by apply fillna0_not_nan.
assert (Hlow : In row (low_roi (get_partner_performance df))
               <-> (roi <? 1)%float = true).
{ unfold low_roi, Select.below. rewrite filter_In, Hroi. tauto. }
assert (Hhigh : In row (high_roi (get_partner_performance df))
                <-> (4 <? roi)%float = true).
{ unfold high_roi, Select.above. rewrite filter_In, Hroi. tauto. }
exists roi. repeat split; try assumption; try apply Hlow; try apply Hhigh.
- intros [H1 H2]. apply Hlow in H1. apply Hhigh in H2.
  rewrite (below_1_not_above_4 roi H1) in H2. discriminate H2.
- apply not_ltb_leb; try assumption; [reflexivity |].
  destruct (roi <? 1)%float eqn:L; [| reflexivity].
  exfalso. apply H. now apply Hlow.
- apply not_ltb_leb; try assumption; [reflexivity |].
  destruct (4 <? roi)%float eqn:L; [| reflexivity].
  exfalso. apply H0. now apply Hhigh.
Qed.

(** * The loader's fill *)

Import DataLoader.

Lemma fillna0_idem (x : float) :
  Float64.fillna0 (Float64.fillna0 x) = Float64.fillna0 x.
Proof. apply fillna0_id, fillna0_not_nan. Qed.

Lemma nansum_filled (l : list float) :
  Float64.nansum (map Float64.fillna0 l) = Float64.nansum l.
Proof.
unfold Float64.nansum. f_equal. rewrite map_map.
apply map_ext. intros x. apply fillna0_idem.
Qed.

Lemma ltb_nan_l (x y : float) : is_nan x = true -> (x <? y)%float = false.
Proof.
rewrite is_nan_spec, ltb_spec. unfold SFltb.
destruct (Prim2SF x); try discriminate. reflexivity.
Qed.

Lemma filled_negative (x : float) :
  (Float64.fillna0 x <? 0)%float = (x <? 0)%float.
Proof.
unfold Float64.fillna0. destruct (is_nan x) eqn:E; [| reflexivity].
now rewrite (ltb_nan_l x 0 E).
Qed.

Lemma filled_positive (x : float) :
  (0 <? Float64.fillna0 x)%float = (0 <? x)%float.
Proof.
unfold Float64.fillna0. destruct (is_nan x) eqn:E; [| reflexivity].
now rewrite (ltb_nan_r 0 x E).
Qed.

Lemma filter_map_length {A B : Type} (f : A -> B) (p : B -> bool)
      (q : A -> bool) (l : list A) :
  (forall x, p (f x) = q x) ->
  filter p (map f l) = map f (filter q l).
Proof.
intros H. induction l as [| x l IH]; [reflexivity |].
cbn [map filter]. rewrite H, IH. now destruct (q x).
Qed.

Lemma rev_data_filled (df : DataFrame) :
  rev_data (fill_joined df) = rev_data df.
Proof.
unfold rev_data, fill_joined.
induction df as [| r df IH]; [reflexivity |].
cbn [map filter revenue fill_row]. rewrite filled_positive, IH.
destruct (0 <? revenue r)%float eqn:E; [| reflexivity].
f_equal. apply fillna0_id.
destruct (is_nan (revenue r)) eqn:N; [| reflexivity].
now rewrite (ltb_nan_r 0 _ N) in E.
Qed.

Lemma filter_nan_filled (l : list float) :
  filter is_nan (map Float64.fillna0 l) = [].
Proof.
apply filter_nil_iff, Forall_map, Forall_forall.
intros x _. apply fillna0_not_nan.
Qed.

Lemma filled_columns (df : DataFrame) :
  map clicks (fill_joined df) = map clicks df /\
  map impressions (fill_joined df) = map impressions df /\
  map orders (fill_joined df) = map Float64.fillna0 (map orders df) /\
  map revenue (fill_joined df) = map Float64.fillna0 (map revenue df) /\
  map commission_paid (fill_joined df)
    = map Float64.fillna0 (map commission_paid df).
Proof.
unfold fill_joined. rewrite !map_map. repeat split.
Qed.

(** X16. Filling the missing orders, revenue and commission cells with 0,
    as the loader does, changes neither the overall KPIs and totals (the
    sums skip missing cells anyway) nor the click, negative-value and
    outlier checks; it is idempotent, and afterwards the missing-value
    check finds none of these cells missing. *)
Theorem loader_fill_effect : forall df : DataFrame,
  calculate_kpis (fill_joined df) = calculate_kpis df /\
  check_ctr (fill_joined df) = check_ctr df /\
  check_neg (fill_joined df) = check_neg df /\
  check_outliers (fill_joined df) = check_outliers df /\
  nulls (fill_joined df) = 0%nat /\
  check_nulls (fill_joined df) = [] /\
  fill_joined (fill_joined df) = fill_joined df.
Proof.
intros df.
assert (Hk : calculate_kpis (fill_joined df) = calculate_kpis df).
{ destruct (filled_columns df) as (E1 & E2 & E3 & E4 & E5).
  unfold calculate_kpis, agg_metrics.
  now rewrite E1, E2, E3, E4, E5, !nansum_filled. }
assert (Hc : check_ctr (fill_joined df) = check_ctr df).
{ unfold check_ctr, invalid_ctr, fill_joined.
  rewrite (filter_map_length fill_row _
             (fun r => (impressions r <? clicks r))) by reflexivity.
  destruct (filter _ df); [reflexivity |].
  cbn [map List.length]. now rewrite length_map. }
assert (Hn : check_neg (fill_joined df) = check_neg df).
{ unfold check_neg, neg_val, fill_joined.
  rewrite (filter_map_length fill_row _
             (fun r => ((revenue r <? 0) || (commission_paid r <? 0))%float%bool))
    by (intros r; cbn [revenue commission_paid fill_row];
        now rewrite !filled_negative).
  destruct (filter _ df); [reflexivity |].
  cbn [map List.length]. now rewrite length_map. }
assert (Ho : check_outliers (fill_joined df) = check_outliers df).
{ unfold check_outliers. now rewrite rev_data_filled. }
assert (Hz : nulls (fill_joined df) = 0%nat).
{ destruct (filled_columns df) as (_ & _ & E3 & E4 & E5).
  unfold nulls. now rewrite E3, E4, E5, !filter_nan_filled. }
repeat split; try assumption.
- unfold check_nulls. now rewrite Hz.
- unfold fill_joined. rewrite map_map. apply map_ext. intros r.
  unfold fill_row. cbn. now rewrite !fillna0_idem.
Qed.

(** * The dashboard's filter *)

Lemma fold_min_le (l : list Z) : forall a : Z,
  fold_left Z.min l a <= a /\ forall x, In x l -> fold_left Z.min l a <= x.
Proof.
induction l as [| y l IH]; intros a; cbn [fold_left].
- split; [lia | contradiction].
- destruct (IH (Z.min a y)) as [H1 H2]. split; [lia |].
  intros x [<- | Hx]; [lia | now apply H2].
Qed.

Lemma fold_max_ge (l : list Z) : forall a : Z,
  a <= fold_left Z.max l a /\ forall x, In x l -> x <= fold_left Z.max l a.
Proof.
induction l as [| y l IH]; intros a; cbn [fold_left].
- split; [lia | contradiction].
- destruct (IH (Z.max a y)) as [H1 H2]. split; [lia |].
  intros x [<- | Hx]; [lia | now apply H2].
Qed.

Lemma unique_In (l : list string) (x : string) : In x (unique l) <-> In x l.
Proof.
induction l as [| y l IH]; cbn [unique]; [tauto |].
cbn [In]. rewrite filter_In, IH, negb_true_iff, String.eqb_neq.
destruct (String.eqb_spec y x) as [-> | Hne]; [tauto |].
split; [tauto |]. intros [E | H]; [tauto |]. right. split; [exact H |].
congruence.
Qed.

Lemma filter_all {A : Type} (f : A -> bool) (l : list A) :
  (forall x, In x l -> f x = true) -> filter f l = l.
Proof.
induction l as [| x l IH]; intros H; [reflexivity |].
cbn [filter]. rewrite (H x (or_introl eq_refl)). f_equal.
apply IH. intros y Hy. apply H. now right.
Qed.

(** X17. With the sidebar left at its default values (the full range of
    dates of the frame and all of its verticals) the filter keeps every
    record. *)
Theorem default_filters_keep_all :
  forall (df : DataFrame) (date_range : list Z) (selected : list string),
  default_filters df = Some (date_range, selected) ->
  filtered_df date_range selected df = Some df.
Proof.
intros [| r t] date_range selected; [discriminate |].
unfold default_filters. intros [= <- <-].
unfold filtered_df. cbn [nth_error]. f_equal.
apply filter_all. intros x Hx.
destruct (fold_min_le (map date t) (date r)) as [M1 M2].
destruct (fold_max_ge (map date t) (date r)) as [X1 X2].
apply andb_true_iff. split; [apply andb_true_iff; split |].
- apply Z.leb_le. destruct Hx as [<- | Hx]; [exact M1 |].
  apply M2, in_map, Hx.
- apply Z.leb_le. destruct Hx as [<- | Hx]; [exact X1 |].
  apply X2, in_map, Hx.
- apply existsb_exists. exists (vertical x). split.
  + change (In (vertical x) (unique (map vertical (r :: t)))).
    apply (proj2 (unique_In _ _)), in_map, Hx.
  + apply String.eqb_refl.
Qed.

Lemma default_filters_keep_all_witness :
  let r1 := mkRow 3 1 "Mobile" "Email" 5 100 1 20 4 "Zeta" "Tech" "Z" "B" in
  let r2 := mkRow 1 2 "Mobile" "Email" 7 200 2 30 6 "Alpha" "Home" "A" "A" in
  default_filters [r1; r2] = Some ([1; 3], ["Tech"; "Home"]%string) /\
  filtered_df [1; 3] ["Tech"; "Home"]%string [r1; r2] = Some [r1; r2].
Proof.
intros r1 r2.
assert (H : default_filters [r1; r2] = Some ([1; 3], ["Tech"; "Home"]%string))
  by reflexivity.
split; [exact H |].
exact (default_filters_keep_all _ _ _ H).
Defined.

(** X18. The filter fails (IndexError) exactly when the date range holds
    fewer than two dates.  Otherwise the partner frame computed from the
    filtered records lists only partners of a selected vertical, each of
    them a partner of the unfiltered frame. *)
Theorem filtered_partner_frame :
  forall (date_range : list Z) (selected : list string) (df : DataFrame),
  (filtered_df date_range selected df = None
   <-> (List.length date_range < 2)%nat) /\
  (forall fdf, filtered_df date_range selected df = Some fdf ->
     Forall (fun k => In (snd k) selected /\ In k (map partner_key df))
            (Frame.key_column "partner_name" "vertical"
                              (get_partner_performance fdf))).
Proof.
intros date_range selected df. unfold filtered_df. split.
- destruct date_range as [| d0 [| d1 l]]; cbn [nth_error List.length];
    split; intros H; try reflexivity; try discriminate; lia.
- intros fdf.
  destruct (nth_error date_range 0) as [d0 |]; [| discriminate].
  destruct (nth_error date_range 1) as [d1 |]; [| discriminate].
  intros [= <-]. rewrite partner_key_column. apply Forall_forall.
  intros k Hk. apply group_keys_In, in_map_iff in Hk.
  destruct Hk as [r [<- Hr]]. apply filter_In in Hr.
  destruct Hr as [Hin Hf].
  apply andb_true_iff in Hf. destruct Hf as [_ Hf].
  apply existsb_exists in Hf. destruct Hf as [v [Hv Ev]].
  apply String.eqb_eq in Ev. split.
  + cbn [partner_key snd]. now rewrite Ev.
  + now apply in_map.
Qed.
